(** * MiniSearch: the response-generation orchestration of
      [src/client/modules/textGeneration.ts]

    The module is a coordination script over three text-generation
    backends.  It is embedded here as a state-and-exception monad over
    the shared pub/sub store; everything the module merely calls (the
    search service, the keyword extractor, the inference runtimes, the
    clock, the user pressing "stop") is an oracle of an environment
    record, and every theorem quantifies over all environments.

    Three conventions of the embedding:
    - the query and the settings are read-only inputs of a run (nothing in
      the module writes them), so they live in the environment;
    - the search started by [prepareTextGeneration] runs concurrently: it
      is kept as a pending promise and settles at a suspension point of
      the coordinating routine, after a number of such points chosen by
      the environment, or earlier when the routine awaits it;
    - the user's "stop" reaches the store while the routine waits for the
      next item of a stream, as the specification describes it (an
      external flag polled between streamed tokens). *)

From Stdlib Require Import ZArith QArith List String Ascii Bool Lia.
From Stdlib Require Import DecimalString RelationClasses.
Import ListNotations.

Local Open Scope string_scope.
Local Open Scope Z_scope.

(* ================================================================== *)
(** ** JavaScript built-ins used by the module *)
(* ================================================================== *)

Module Js.

(** [Array.prototype.slice] and [String.prototype.slice] clamp a relative
    index the same way: a negative index counts from the end. *)
Definition clampIndex (len i : Z) : Z :=
  if i <? 0 then Z.max (len + i) 0 else Z.min i len.

(** [xs.slice(start, end)]; [end = None] is an omitted / undefined end. *)
Definition slice {A} (start : Z) (stop : option Z) (xs : list A) : list A :=
  let len := Z.of_nat (List.length xs) in
  let from := clampIndex len start in
  let to := match stop with Some e => clampIndex len e | None => len end in
  firstn (Z.to_nat (to - from)) (skipn (Z.to_nat from) xs).

(** [s.slice(start, end)] on strings (one [ascii] per UTF-16 code unit). *)
Definition strSlice (start : Z) (stop : option Z) (s : string) : string :=
  let len := Z.of_nat (String.length s) in
  let from := clampIndex len start in
  let to := match stop with Some e => clampIndex len e | None => len end in
  String.substring (Z.to_nat from) (Z.to_nat (to - from)) s.

(** [hay.includes(needle)]. *)
Fixpoint includes (needle hay : string) : bool :=
  if String.prefix needle hay then true
  else match hay with
       | EmptyString => false
       | String _ rest => includes needle rest
       end.

(** [xs.join(sep)]. *)
Definition join (sep : string) (xs : list string) : string :=
  String.concat sep xs.

(** [`${n}`] for a natural number. *)
Definition showNat (n : nat) : string :=
  NilEmpty.string_of_uint (Nat.to_uint n).

(** [xs.map((x, index) => f x index)]. *)
Fixpoint mapi_from {A B} (i : nat) (f : A -> nat -> B) (xs : list A) : list B :=
  match xs with
  | [] => []
  | x :: rest => f x i :: mapi_from (S i) f rest
  end.

Definition mapi {A B} (f : A -> nat -> B) (xs : list A) : list B :=
  mapi_from 0 f xs.

End Js.

(* ================================================================== *)
(** ** Data model *)
(* ================================================================== *)

(** The values of the text-generation state.  The module writes
    [loadingModel], [awaitingSearchResults], [preparingToGenerate],
    [generating], [completed] and [failed] and tests for [interrupted];
    [idle] is the resting value named by the glossary. *)
Inductive TextGenerationState :=
| idle
| loadingModel
| awaitingSearchResults
| preparingToGenerate
| generating
| interrupted
| failed
| completed.

Definition tgs_eqb (a b : TextGenerationState) : bool :=
  match a, b with
  | idle, idle | loadingModel, loadingModel
  | awaitingSearchResults, awaitingSearchResults
  | preparingToGenerate, preparingToGenerate
  | generating, generating | interrupted, interrupted
  | failed, failed | completed, completed => true
  | _, _ => false
  end.

Lemma tgs_eqb_spec a b : reflect (a = b) (tgs_eqb a b).
Proof. destruct a, b; simpl; constructor; congruence. Qed.

(** The search state; the module writes "running", "failed" and
    "completed", [searchIdle] stands for the value before a search. *)
Inductive SearchState := searchIdle | searchRunning | searchFailed | searchCompleted.

(** A text result is the triple [[title, snippet, url]]. *)
Definition TextResult : Type := string * string * string.

Record SearchResults := mkSearchResults {
  textResults : list TextResult;
  imageResults : list string
}.

Definition emptySearchResults : SearchResults := mkSearchResults [] [].

Record Settings := mkSettings {
  enableAiResponse : bool;
  inferenceType : string;
  enableWebGpu : bool;
  searchResultsToConsider : Z;
  webLlmModelId : string;
  wllamaModelId : string
}.

Inductive Backend := OpenAI | WebLlm | Wllama.

Definition backend_eqb (a b : Backend) : bool :=
  match a, b with
  | OpenAI, OpenAI | WebLlm, WebLlm | Wllama, Wllama => true
  | _, _ => false
  end.

(** A chat message [{ role, content }]. *)
Definition Message : Type := string * string.

Inductive Request :=
| ChatRequest (messages : list Message)
| PromptRequest (prompt : string).

(** What a run does, in order.  The store keeps the current values; the
    trace keeps the history the temporal claims talk about. *)
Inductive Event :=
| EvTextGenerationState (st : TextGenerationState)  (* updateTextGenerationState *)
| EvInterrupt                                       (* the user sets "interrupted" *)
| EvResponse (at_ms : Z) (text : string)            (* updateResponse *)
| EvSearchState (st : SearchState)                  (* updateSearchState *)
| EvSearchResults (r : SearchResults)               (* updateSearchResults *)
| EvSearchPromise                                   (* updateSearchPromise *)
| EvSearchCall (q : string) (limit : Z)             (* search(q, limit) *)
| EvSearchAwaited                                   (* await getSearchPromise() returned *)
| EvBackend (b : Backend)                           (* generateTextWith<b> entered *)
| EvCompletion (b : Backend) (req : Request)        (* completion call issued *)
| EvToken (b : Backend)                             (* a streamed token received *)
| EvAbort (b : Backend).                            (* the backend's abort mechanism *)

(** The promise kept by [updateSearchPromise].  A pending search carries
    its query and the number of suspension points of the coordinating
    routine that still pass before it settles by itself. *)
Inductive SearchPromise :=
| NoPromise
| Pending (q : string) (remaining : nat)
| Fulfilled (r : SearchResults)
| Rejected (error : string).

Record Store := mkStore {
  response : string;
  searchResults : SearchResults;
  searchState : SearchState;
  textGenerationState : TextGenerationState;
  searchPromise : SearchPromise;
  documentTitle : string;
  modelLoadingProgress : Z;
  logEntries : list string;
  lastUpdateTime : Z;     (* updateResponseRateLimited.lastUpdateTime *)
  now : Z;                (* what Date.now() returns *)
  trace : list Event
}.

(* ================================================================== *)
(** ** The monad: shared store, exceptions that keep the store *)
(* ================================================================== *)

Inductive Result (A : Type) :=
| Ok (a : A)
| Throw (error : string).
Arguments Ok {A} a.
Arguments Throw {A} error.

Definition M (A : Type) : Type := Store -> Result A * Store.

Definition ret {A} (a : A) : M A := fun s => (Ok a, s).

Definition throw {A} (error : string) : M A := fun s => (Throw error, s).

Definition bind {A B} (m : M A) (k : A -> M B) : M B :=
  fun s => match m s with
           | (Ok a, s1) => k a s1
           | (Throw e, s1) => (Throw e, s1)
           end.

(** [try { body } catch (error) { handler error }]. *)
Definition tryCatch {A} (body : M A) (handler : string -> M A) : M A :=
  fun s => match body s with
           | (Ok a, s1) => (Ok a, s1)
           | (Throw e, s1) => handler e s1
           end.

(** [try { body } finally { fin }]: [fin] always runs; its own exception
    replaces the outcome of [body]. *)
Definition tryFinally {A} (body : M A) (fin : M unit) : M A :=
  fun s => let (r, s1) := body s in
           match fin s1 with
           | (Ok _, s2) => (r, s2)
           | (Throw e, s2) => (Throw e, s2)
           end.

(** An oracle's outcome enters the monad. *)
Definition liftResult {A} (r : Result A) : M A := fun s => (r, s).

Declare Scope js_scope.
Delimit Scope js_scope with js.
Notation "x <- m ;; k" := (bind m (fun x => k))
  (at level 61, m at next level, right associativity) : js_scope.
Notation "m ;; k" := (bind m (fun _ => k))
  (at level 61, right associativity) : js_scope.
Local Open Scope js_scope.

Definition run {A} (m : M A) (s : Store) : Result A * Store := m s.
Definition outcome {A} (m : M A) (s : Store) : Result A := fst (m s).
Definition after {A} (m : M A) (s : Store) : Store := snd (m s).

(* ================================================================== *)
(** ** Store updates (the setters of [./pubSub]) *)
(* ================================================================== *)

Definition emit (e : Event) : M unit :=
  fun s => (Ok tt,
    mkStore (response s) (searchResults s) (searchState s)
            (textGenerationState s) (searchPromise s) (documentTitle s)
            (modelLoadingProgress s) (logEntries s) (lastUpdateTime s)
            (now s) (trace s ++ [e])).

Definition reads {A} (f : Store -> A) : M A := fun s => (Ok (f s), s).

Definition writeResponse (text : string) : M unit :=
  fun s => (Ok tt,
    mkStore text (searchResults s) (searchState s)
            (textGenerationState s) (searchPromise s) (documentTitle s)
            (modelLoadingProgress s) (logEntries s) (lastUpdateTime s)
            (now s) (trace s)).

Definition writeSearchResults (r : SearchResults) : M unit :=
  fun s => (Ok tt,
    mkStore (response s) r (searchState s)
            (textGenerationState s) (searchPromise s) (documentTitle s)
            (modelLoadingProgress s) (logEntries s) (lastUpdateTime s)
            (now s) (trace s)).

Definition writeSearchState (st : SearchState) : M unit :=
  fun s => (Ok tt,
    mkStore (response s) (searchResults s) st
            (textGenerationState s) (searchPromise s) (documentTitle s)
            (modelLoadingProgress s) (logEntries s) (lastUpdateTime s)
            (now s) (trace s)).

Definition writeTextGenerationState (st : TextGenerationState) : M unit :=
  fun s => (Ok tt,
    mkStore (response s) (searchResults s) (searchState s)
            st (searchPromise s) (documentTitle s)
            (modelLoadingProgress s) (logEntries s) (lastUpdateTime s)
            (now s) (trace s)).

Definition writeSearchPromise (p : SearchPromise) : M unit :=
  fun s => (Ok tt,
    mkStore (response s) (searchResults s) (searchState s)
            (textGenerationState s) p (documentTitle s)
            (modelLoadingProgress s) (logEntries s) (lastUpdateTime s)
            (now s) (trace s)).

Definition setDocumentTitle (title : string) : M unit :=
  fun s => (Ok tt,
    mkStore (response s) (searchResults s) (searchState s)
            (textGenerationState s) (searchPromise s) title
            (modelLoadingProgress s) (logEntries s) (lastUpdateTime s)
            (now s) (trace s)).

Definition updateModelLoadingProgress (p : Z) : M unit :=
  fun s => (Ok tt,
    mkStore (response s) (searchResults s) (searchState s)
            (textGenerationState s) (searchPromise s) (documentTitle s)
            p (logEntries s) (lastUpdateTime s)
            (now s) (trace s)).

Definition addLogEntry (entry : string) : M unit :=
  fun s => (Ok tt,
    mkStore (response s) (searchResults s) (searchState s)
            (textGenerationState s) (searchPromise s) (documentTitle s)
            (modelLoadingProgress s) (logEntries s ++ [entry]) (lastUpdateTime s)
            (now s) (trace s)).

Definition setLastUpdateTime (t : Z) : M unit :=
  fun s => (Ok tt,
    mkStore (response s) (searchResults s) (searchState s)
            (textGenerationState s) (searchPromise s) (documentTitle s)
            (modelLoadingProgress s) (logEntries s) t
            (now s) (trace s)).

(** The clock moves only while the routine is suspended. *)
Definition advanceClock (t : Z) : M unit :=
  fun s => (Ok tt,
    mkStore (response s) (searchResults s) (searchState s)
            (textGenerationState s) (searchPromise s) (documentTitle s)
            (modelLoadingProgress s) (logEntries s) (lastUpdateTime s)
            t (trace s)).

Definition updateResponse (text : string) : M unit :=
  t <- reads now ;; writeResponse text ;; emit (EvResponse t text).

Definition updateSearchResults (r : SearchResults) : M unit :=
  writeSearchResults r ;; emit (EvSearchResults r).

Definition updateSearchState (st : SearchState) : M unit :=
  writeSearchState st ;; emit (EvSearchState st).

Definition updateTextGenerationState (st : TextGenerationState) : M unit :=
  writeTextGenerationState st ;; emit (EvTextGenerationState st).

Definition getTextGenerationState : M TextGenerationState :=
  reads textGenerationState.

(** The user presses "stop": the UI, not this module, stores
    ["interrupted"]. *)
Definition userInterrupts : M unit :=
  writeTextGenerationState interrupted ;; emit EvInterrupt.

(* ================================================================== *)
(** ** The environment *)
(* ================================================================== *)

(** One delivery of an asynchronous stream: the item, the wall clock when
    the routine resumes with it, and whether the user pressed "stop"
    while the routine was suspended waiting for it. *)
Record Arrival (T : Type) := mkArrival {
  payload : T;
  arrivedAt : Z;
  stopPressed : bool
}.
Arguments mkArrival {T}.
Arguments payload {T}.
Arguments arrivedAt {T}.
Arguments stopPressed {T}.

(** The items a stream delivers and how it ends: [None] when it finishes,
    [Some e] when the iteration throws [e]. *)
Record Stream (T : Type) := mkStream {
  arrivals : list (Arrival T);
  failure : option string
}.
Arguments mkStream {T}.
Arguments arrivals {T}.
Arguments failure {T}.

(** The fields of a [wllamaModels] entry that [generateTextWithWllama]
    reads for more than passing them on. *)
Record WllamaModel := mkWllamaModel {
  modelUrl : string;
  shouldIncludeUrlsOnPrompt : bool;
  stopStrings : option (list string);
  buildPrompt : string -> string -> Result string
}.

Record Env := mkEnv {
  getQuery : string;
  getSettings : Settings;
  isWebGPUAvailable : bool;
  (* ./search and keyword-extractor *)
  searchLatency : nat;
  search : nat -> string -> Z -> Result SearchResults;
  extractKeywords : string -> list string;
  (* ./systemPrompt, pretty-ms *)
  getSystemPrompt : string -> string;
  prettyMilliseconds : Z -> string;
  (* openai *)
  openAiCreate : list Message -> Result (Stream (option string));
  (* @mlc-ai/web-llm *)
  hasModelInCache : string -> Result bool;
  webLlmInitProgress : list Z;
  createMLCEngine : string -> Result unit;
  webLlmCreate : list Message -> Result (Stream (option string));
  runtimeStatsText : Result string;
  (* ./wllama *)
  wllamaModels : string -> option WllamaModel;
  wllamaLoadProgress : list Z;
  initializeWllama : string -> Result unit;
  createCompletion : string -> Stream string;
  wllamaExit : Result unit
}.

(* ================================================================== *)
(** ** The module *)
(* ================================================================== *)

Section TextGeneration.

Variable E : Env.

(** *** Suspension points and the concurrent search *)

(** [search(query, limit)] of [./search]; [attempt] numbers the calls of
    one [startSearch], so the service may answer a retry differently. *)
Definition searchCall (attempt : nat) (q : string) (limit : Z) : M SearchResults :=
  emit (EvSearchCall q limit) ;; liftResult (search E attempt q limit).

(** [getKeywords(text, limit)]. *)
Definition getKeywords (text : string) (limit : option Z) : list string :=
  Js.slice 0 limit (extractKeywords E text).

(** [startSearch] up to its first [await]: this part runs inside the
    caller, before the promise exists. *)
Definition startSearch_begin : M unit :=
  updateSearchState searchRunning.

(** [startSearch] after its first [await]: it runs while the caller is
    suspended, in one piece as far as the caller can observe. *)
Definition startSearch_resume (q : string) : M SearchResults :=
  first <- searchCall 0
             (if 2000 <? Z.of_nat (String.length q)
              then Js.join " " (getKeywords q (Some 20))
              else q) 30 ;;
  searchResults <-
    (match textResults first with
     | [] =>
         let queryKeywords := getKeywords q (Some 10) in
         searchCall 1 (Js.join " " queryKeywords) 30
     | _ :: _ => ret first
     end) ;;
  updateSearchState
    (match textResults searchResults with
     | [] => searchFailed
     | _ :: _ => searchCompleted
     end) ;;
  updateSearchResults searchResults ;;
  ret searchResults.

Definition startSearch (q : string) : M SearchResults :=
  startSearch_begin ;; startSearch_resume q.

(** The pending search runs to its end and settles the promise. *)
Definition settleSearch : M unit :=
  p <- reads searchPromise ;;
  match p with
  | Pending q _ =>
      tryCatch
        (r <- startSearch_resume q ;; writeSearchPromise (Fulfilled r))
        (fun e => writeSearchPromise (Rejected e))
  | _ => ret tt
  end.

(** A suspension point of the coordinating routine: the event loop runs
    whatever is ready, here the search once its time has come. *)
Definition suspend : M unit :=
  p <- reads searchPromise ;;
  match p with
  | Pending q 0%nat => settleSearch
  | Pending q (S n) => writeSearchPromise (Pending q n)
  | _ => ret tt
  end.

Definition untilUiIsUpdated : M unit := suspend.

(** [await x] for a library call [x]. *)
Definition await {A} (r : Result A) : M A := suspend ;; liftResult r.

(** [await getSearchPromise()]. *)
Definition awaitSearchPromise : M unit :=
  settleSearch ;;
  p <- reads searchPromise ;;
  match p with
  | Rejected e => throw e
  | _ => emit EvSearchAwaited
  end.

(** [updateSearchPromise(startSearch(query))]. *)
Definition updateSearchPromise_startSearch (q : string) : M unit :=
  startSearch_begin ;;
  writeSearchPromise (Pending q (searchLatency E)) ;;
  emit EvSearchPromise.

(** *** getFormattedSearchResults *)

Definition formatWithUrl (r : TextResult) (index : nat) : string :=
  let '(title, snippet, url) := r in
  Js.showNat (index + 1) ++ ". [" ++ title ++ "](" ++ url ++ ") | " ++ snippet.

Definition formatWithoutUrl (r : TextResult) : string :=
  let '(title, snippet, _) := r in
  "- " ++ title ++ " | " ++ snippet.

Definition getFormattedSearchResults (shouldIncludeUrl : bool) (s : Store) : string :=
  let searchResults :=
    Js.slice 0 (Some (searchResultsToConsider (getSettings E)))
             (textResults (searchResults s)) in
  match searchResults with
  | [] => "None."
  | _ :: _ =>
      if shouldIncludeUrl
      then Js.join (String "010" "") (Js.mapi formatWithUrl searchResults)
      else Js.join (String "010" "") (map formatWithoutUrl searchResults)
  end.

(** *** canStartResponding *)

Definition canStartResponding : M unit :=
  if 0 <? searchResultsToConsider (getSettings E) then
    updateTextGenerationState awaitingSearchResults ;;
    untilUiIsUpdated ;;
    awaitSearchPromise
  else ret tt.

(** *** updateResponseRateLimited *)

Definition updateInterval : Q := 1000 # 12.

(** [Date.now()] and [lastUpdateTime] are whole numbers of milliseconds,
    and for a whole number [d] the test [d >= 1000 / 12] on doubles and
    the test on rationals agree (both say [d >= 84]). *)
Definition updateResponseRateLimited (text : string) : M unit :=
  currentTime <- reads now ;;
  last <- reads lastUpdateTime ;;
  if Qle_bool updateInterval (inject_Z (currentTime - last)) then
    updateResponse text ;;
    setLastUpdateTime currentTime
  else ret tt.

(** *** Streams *)

(** The routine resumes with the next item of a stream. *)
Definition receive {T} (a : Arrival T) : M unit :=
  suspend ;;
  advanceClock (arrivedAt a) ;;
  if stopPressed a then userInterrupts else ret tt.

(** [for await (const item of stream) body], threading the local
    variables of the loop. *)
Fixpoint forAwait {T A} (body : A -> T -> M A) (items : list (Arrival T))
                  (acc : A) : M A :=
  match items with
  | [] => ret acc
  | a :: rest =>
      receive a ;;
      acc' <- body acc (payload a) ;;
      forAwait body rest acc'
  end.

Definition consume {T A} (body : A -> T -> M A) (st : Stream T) (acc : A) : M A :=
  acc' <- forAwait body (arrivals st) acc ;;
  suspend ;;
  match failure st with
  | None => ret acc'
  | Some e => throw e
  end.

(** [if (deltaContent) streamedMessage += deltaContent]. *)
Definition appendDelta (streamedMessage : string) (deltaContent : option string) : string :=
  match deltaContent with
  | Some (String c rest) => streamedMessage ++ String c rest
  | Some EmptyString | None => streamedMessage
  end.

Definition chatMessages (s : Store) : list Message :=
  [ ("system", getSystemPrompt E (getFormattedSearchResults true s));
    ("user", getQuery E) ].

(** *** generateTextWithOpenAI *)

Definition openAiOnChunk (streamedMessage : string) (deltaContent : option string)
  : M string :=
  emit (EvToken OpenAI) ;;
  let streamedMessage := appendDelta streamedMessage deltaContent in
  st <- getTextGenerationState ;;
  (if tgs_eqb st interrupted then
     emit (EvAbort OpenAI)                        (* completion.controller.abort() *)
   else
     st' <- getTextGenerationState ;;
     if negb (tgs_eqb st' generating) then updateTextGenerationState generating
     else ret tt) ;;
  updateResponseRateLimited streamedMessage ;;
  ret streamedMessage.

Definition generateTextWithOpenAI : M unit :=
  emit (EvBackend OpenAI) ;;
  canStartResponding ;;
  updateTextGenerationState preparingToGenerate ;;
  untilUiIsUpdated ;;
  messages <- reads chatMessages ;;
  emit (EvCompletion OpenAI (ChatRequest messages)) ;;
  completion <- await (openAiCreate E messages) ;;
  streamedMessage <- consume openAiOnChunk completion "" ;;
  updateResponse streamedMessage.

(** *** generateTextWithWebLlm *)

Definition webLlmOnChunk (streamedMessage : string) (deltaContent : option string)
  : M string :=
  emit (EvToken WebLlm) ;;
  let streamedMessage := appendDelta streamedMessage deltaContent in
  st <- getTextGenerationState ;;
  (if tgs_eqb st interrupted then
     emit (EvAbort WebLlm) ;; suspend             (* await engine.interruptGenerate() *)
   else
     st' <- getTextGenerationState ;;
     if negb (tgs_eqb st' generating) then updateTextGenerationState generating
     else ret tt) ;;
  updateResponseRateLimited streamedMessage ;;
  ret streamedMessage.

(** The engine calls [initProgressCallback] with each report while it
    loads; the reports are given already rounded to whole percents. *)
Fixpoint reportInitProgress (reports : list Z) : M unit :=
  match reports with
  | [] => ret tt
  | p :: rest => updateModelLoadingProgress p ;; reportInitProgress rest
  end.

Definition generateTextWithWebLlm : M unit :=
  emit (EvBackend WebLlm) ;;
  let selectedModelId := webLlmModelId (getSettings E) in
  addLogEntry ("Selected WebLLM model: " ++ selectedModelId) ;;
  isModelCached <- await (hasModelInCache E selectedModelId) ;;
  (if isModelCached : bool then
     updateTextGenerationState preparingToGenerate ;;
     untilUiIsUpdated
   else ret tt) ;;
  suspend ;;
  (if isModelCached : bool then ret tt
   else reportInitProgress (webLlmInitProgress E)) ;;
  liftResult (createMLCEngine E selectedModelId) ;;
  (if enableAiResponse (getSettings E) then
     canStartResponding ;;
     updateTextGenerationState preparingToGenerate ;;
     untilUiIsUpdated ;;
     messages <- reads chatMessages ;;
     emit (EvCompletion WebLlm (ChatRequest messages)) ;;
     completion <- await (webLlmCreate E messages) ;;
     streamedMessage <- consume webLlmOnChunk completion "" ;;
     updateResponse streamedMessage
   else ret tt) ;;
  stats <- await (runtimeStatsText E) ;;
  addLogEntry ("WebLLM finished generating the response. Stats: " ++ stats).

(** *** generateTextWithWllama *)

(** The [for (const stopString of model.stopStrings)] loop with its
    [break]: the first stop string found near the end of the text aborts
    the completion and is cut off. *)
Fixpoint cutAtStopString (stops : list string) (currentText : string) : M string :=
  match stops with
  | [] => ret currentText
  | stopString :: rest =>
      let n := Z.of_nat (String.length stopString) in
      if Js.includes stopString (Js.strSlice (- (n * 2)) None currentText) then
        emit (EvAbort Wllama) ;;                   (* abortSignal() *)
        ret (Js.strSlice 0 (Some (- n)) currentText)
      else cutAtStopString rest currentText
  end.

Definition onNewToken (model : WllamaModel) (streamedMessage currentText : string)
  : M string :=
  emit (EvToken Wllama) ;;
  st <- getTextGenerationState ;;
  (if tgs_eqb st interrupted then
     emit (EvAbort Wllama)                        (* abortSignal() *)
   else
     st' <- getTextGenerationState ;;
     if negb (tgs_eqb st' generating) then updateTextGenerationState generating
     else ret tt) ;;
  currentText <-
    (match stopStrings model with
     | Some stops => cutAtStopString stops currentText
     | None => ret currentText
     end) ;;
  let streamedMessage := currentText in
  updateResponseRateLimited streamedMessage ;;
  ret streamedMessage.

(** The [progressCallback] of the model download, with its local
    [loadingPercentage]. *)
Fixpoint reportLoadProgress (reports : list Z) (loadingPercentage : Z) : M unit :=
  match reports with
  | [] => ret tt
  | progressPercentage :: rest =>
      if negb (loadingPercentage =? progressPercentage) then
        updateModelLoadingProgress progressPercentage ;;
        reportLoadProgress rest progressPercentage
      else reportLoadProgress rest loadingPercentage
  end.

Definition generateTextWithWllama : M unit :=
  emit (EvBackend Wllama) ;;
  suspend ;;
  match wllamaModels E (wllamaModelId (getSettings E)) with
  | None => throw "TypeError: Cannot read properties of undefined (reading 'url')"
  | Some model =>
      suspend ;;
      reportLoadProgress (wllamaLoadProgress E) 0 ;;
      liftResult (initializeWllama E (modelUrl model)) ;;
      (if enableAiResponse (getSettings E) then
         canStartResponding ;;
         updateTextGenerationState preparingToGenerate ;;
         untilUiIsUpdated ;;
         formatted <- reads (getFormattedSearchResults (shouldIncludeUrlsOnPrompt model)) ;;
         prompt <- await (buildPrompt model (getQuery E) formatted) ;;
         emit (EvCompletion Wllama (PromptRequest prompt)) ;;
         streamedMessage <- consume (onNewToken model) (createCompletion E prompt) "" ;;
         updateResponse streamedMessage
       else ret tt) ;;
      await (wllamaExit E)
  end.

(** *** prepareTextGeneration *)

(** The two [throw]s that open the inner [try]. *)
Definition webGpuGuard : M unit :=
  if negb (isWebGPUAvailable E) then throw "Error: WebGPU is not available."
  else if negb (enableWebGpu (getSettings E)) then throw "Error: WebGPU is disabled."
  else ret tt.

(** The body of the outer [try] of [prepareTextGeneration]. *)
Definition generateText : M unit :=
  let settings := getSettings E in
  (if String.eqb (inferenceType settings) "openai" then
     generateTextWithOpenAI
   else
     tryCatch
       (webGpuGuard ;; generateTextWithWebLlm)
       (fun error =>
          addLogEntry ("Skipping text generation with WebLLM: " ++ error) ;;
          addLogEntry "Starting text generation with Wllama" ;;
          generateTextWithWllama)) ;;
  st <- getTextGenerationState ;;
  if negb (tgs_eqb st interrupted) then updateTextGenerationState completed
  else ret tt.

Definition prepareTextGeneration : M unit :=
  if String.eqb (getQuery E) "" then ret tt
  else
    setDocumentTitle (getQuery E) ;;
    updateResponse "" ;;
    updateSearchResults emptySearchResults ;;
    updateSearchPromise_startSearch (getQuery E) ;;
    if negb (enableAiResponse (getSettings E)) then ret tt
    else
      responseGenerationStartTime <- reads now ;;
      updateTextGenerationState loadingModel ;;
      untilUiIsUpdated ;;
      tryFinally
        (tryCatch generateText
           (fun error =>
              addLogEntry ("Error generating text: " ++ error) ;;
              updateTextGenerationState failed))
        untilUiIsUpdated ;;
      finished <- reads now ;;
      addLogEntry ("Response generation took " ++
                   prettyMilliseconds E (finished - responseGenerationStartTime)).

End TextGeneration.

(* ================================================================== *)
(** ** The vocabulary of the properties *)
(* ================================================================== *)

Local Open Scope list_scope.

(** A run respects a relation between stores when the relation holds
    between the store before and the store after. *)
Definition respects (R : Store -> Store -> Prop) {A} (m : M A) : Prop :=
  forall s, R s (snd (m s)).

(** The run from [s] to [s'] only adds events, all of a given kind. *)
Definition extendsBy (P : Event -> Prop) (s s' : Store) : Prop :=
  exists evs, trace s' = trace s ++ evs /\ Forall P evs.

(** Runs that leave a field of the store alone and only add events of a
    given kind. *)
Definition keeping {X} (f : Store -> X) (P : Event -> Prop) (s s' : Store) : Prop :=
  f s' = f s /\ extendsBy P s s'.



(** Runs that never throw. *)
Definition noThrow {A} (m : M A) : Prop := forall s, exists a, fst (m s) = Ok a.

(** What [prepareTextGeneration] does before its [try] when the query is
    not empty and AI responses are enabled. *)
Definition enterGeneration (E : Env) : M unit :=
  setDocumentTitle (getQuery E) ;;
  updateResponse "" ;;
  updateSearchResults emptySearchResults ;;
  updateSearchPromise_startSearch E (getQuery E) ;;
  updateTextGenerationState loadingModel ;;
  untilUiIsUpdated E.

(** The outer [catch] block. *)
Definition reportFailure (error : string) : M unit :=
  addLogEntry ("Error generating text: " ++ error)%string ;;
  updateTextGenerationState failed.

(** What the run of [m] from [s] adds to a projection of the trace. *)
Definition adds {X} (proj : list Event -> list X) {A} (m : M A) (s : Store)
                (l : list X) : Prop :=
  proj (trace (snd (m s))) = proj (trace s) ++ l.

Definition webLlmInitFails (E : Env) : Prop :=
  (exists e, hasModelInCache E (webLlmModelId (getSettings E)) = Throw e) \/
  (exists e, createMLCEngine E (webLlmModelId (getSettings E)) = Throw e).

(** The lines of the prompt for the results [shown]. *)
Definition formattedLines (shouldIncludeUrl : bool) (shown : list TextResult)
  : list string :=
  if shouldIncludeUrl then Js.mapi formatWithUrl shown
  else map formatWithoutUrl shown.

(** C10 as the specification words it: "None." exactly when there are no
    text results, and otherwise the joined lines of some at most
    [searchResultsToConsider] leading results. *)
Definition formatsAtMostConsidered (E : Env) (shouldIncludeUrl : bool)
                                   (s : Store) : Prop :=
  let out := getFormattedSearchResults E shouldIncludeUrl s in
  (textResults (searchResults s) = [] -> out = "None."%string) /\
  (textResults (searchResults s) <> [] ->
   exists shown rest,
     textResults (searchResults s) = shown ++ rest /\
     Z.of_nat (List.length shown) <= searchResultsToConsider (getSettings E) /\
     out = Js.join (String "010" "") (formattedLines shouldIncludeUrl shown)).

(** Events that change the text-generation state. *)
Definition notStateChange (e : Event) : Prop :=
  match e with
  | EvTextGenerationState _ | EvInterrupt => False
  | _ => True
  end.

(** The text-generation state is neither written nor interrupted. *)
Definition keepsGenerationState : Store -> Store -> Prop :=
  keeping textGenerationState notStateChange.

(** The calls of the search service in a trace, in order. *)
Fixpoint searchCalls (evs : list Event) : list (string * Z) :=
  match evs with
  | [] => []
  | EvSearchCall q limit :: rest => (q, limit) :: searchCalls rest
  | _ :: rest => searchCalls rest
  end.

(** [spaced last evs last']: every response update in [evs] comes at
    least [updateInterval] after the one before it, the first of them
    after [last]; [last'] is the time of the last one. *)
Inductive spaced : Z -> list Event -> Z -> Prop :=
| spaced_nil last : spaced last [] last
| spaced_response last t text evs last' :
    (updateInterval <= inject_Z (t - last))%Q ->
    spaced t evs last' ->
    spaced last (EvResponse t text :: evs) last'
| spaced_other last e evs last' :
    (forall t text, e <> EvResponse t text) ->
    spaced last evs last' ->
    spaced last (e :: evs) last'.

(** The rate limiter's invariant over a run. *)
Definition rateLimited (s s' : Store) : Prop :=
  exists evs, trace s' = trace s ++ evs /\
              spaced (lastUpdateTime s) evs (lastUpdateTime s').

(** Any two response updates of [evs], in order, are at least
    [updateInterval] apart, and each is that far from [last]. *)
Definition separated (last : Z) (evs : list Event) : Prop :=
  (forall pre t text post,
     evs = pre ++ EvResponse t text :: post ->
     (updateInterval <= inject_Z (t - last))%Q) /\
  (forall pre t1 text1 mid t2 text2 post,
     evs = pre ++ EvResponse t1 text1 :: mid ++ EvResponse t2 text2 :: post ->
     (updateInterval <= inject_Z (t2 - t1))%Q).

(** The clock readings of the response updates of a trace, in order. *)
Fixpoint responseTimes (evs : list Event) : list Z :=
  match evs with
  | [] => []
  | EvResponse t _ :: rest => t :: responseTimes rest
  | _ :: rest => responseTimes rest
  end.

(** The updates that fall into the second that starts at [w]. *)
Definition updatesInSecond (w : Z) (times : list Z) : nat :=
  List.length (filter (fun t => (w <=? t) && (t <? w + 1000)) times).

Fixpoint chained (prev : Z) (times : list Z) : Prop :=
  match times with
  | [] => True
  | t :: rest => 1000 <= 12 * (t - prev) /\ chained t rest
  end.

(** The three streaming loops, as [generateTextWithOpenAI],
    [generateTextWithWebLlm] and [generateTextWithWllama] run them. *)
Definition streamOpenAI E := consume E openAiOnChunk.

Definition streamWebLlm E := consume E (webLlmOnChunk E).

Definition streamWllama E model := consume E (onNewToken model).

(** The claim's reading of the buffer: the non-empty delta contents of
    the chunks, in stream order, concatenated. *)
Definition nonEmptyDeltas (chunks : list (option string)) : list string :=
  flat_map (fun d => match d with
                     | Some (String c rest) => [String c rest]
                     | Some EmptyString | None => []
                     end) chunks.

Definition concatNonEmptyDeltas (chunks : list (option string)) : string :=
  String.concat "" (nonEmptyDeltas chunks).

Definition notResponse (e : Event) : Prop :=
  match e with EvResponse _ _ => False | _ => True end.

(** The last response update of a trace carries [text]. *)
Definition finalResponse (evs : list Event) (text : string) : Prop :=
  exists pre t post,
    evs = pre ++ EvResponse t text :: post /\ Forall notResponse post.

(** A monitor reads the trace.  After a token of backend [b] it is inside
    the handler of that token ([Handling b]) until something else happens;
    when the state was "interrupted" as the token came in, the very next
    event has to be the abort of [b] ([MustAbort b]).  An abort anywhere
    but inside a token handler of the same backend is rejected. *)
Inductive PollMode :=
| Outside
| Handling (b : Backend)
| MustAbort (b : Backend).

Definition settled (m : PollMode) : Prop :=
  match m with MustAbort _ => False | _ => True end.

Definition pollStep (st : TextGenerationState * PollMode) (e : Event)
  : option (TextGenerationState * PollMode) :=
  let (cur, mode) := st in
  match mode with
  | MustAbort b =>
      match e with
      | EvAbort b' => if backend_eqb b b' then Some (cur, Handling b) else None
      | _ => None
      end
  | _ =>
      match e with
      | EvToken b =>
          Some (cur, if tgs_eqb cur interrupted then MustAbort b else Handling b)
      | EvAbort b' =>
          match mode with
          | Handling b => if backend_eqb b b' then Some (cur, Handling b) else None
          | _ => None
          end
      | EvTextGenerationState x => Some (x, mode)
      | EvInterrupt => Some (interrupted, Outside)
      | _ => Some (cur, Outside)
      end
  end.

Fixpoint pollRun (st : TextGenerationState * PollMode) (evs : list Event)
  : option (TextGenerationState * PollMode) :=
  match evs with
  | [] => Some st
  | e :: rest =>
      match pollStep st e with
      | Some st' => pollRun st' rest
      | None => None
      end
  end.

(** The events [evs], seen from generation state [cur], keep the
    discipline: the monitor accepts them and owes no abort at the end. *)
Definition pollDiscipline (cur : TextGenerationState) (evs : list Event) : Prop :=
  exists cur' mode', pollRun (cur, Outside) evs = Some (cur', mode') /\ settled mode'.

(** The run from [s] to [s'] takes the monitor from mode [m0] to [m1]. *)
Definition pollsTo (m0 m1 : PollMode) (s s' : Store) : Prop :=
  exists evs, trace s' = trace s ++ evs /\
    pollRun (textGenerationState s, m0) evs = Some (textGenerationState s', m1).

Definition polledFrom (m0 : PollMode) (s s' : Store) : Prop :=
  exists m1, pollsTo m0 m1 s s' /\ settled m1.

Definition polled (s s' : Store) : Prop :=
  forall m0, settled m0 -> polledFrom m0 s s'.

(** The interruption check that opens every token handler: from any
    settled mode, the token and the check leave the monitor inside the
    handler, with the abort made when the state was "interrupted". *)
Definition pollCheck (b : Backend) (abort : M unit) : M unit :=
  emit (EvToken b) ;;
  st <- getTextGenerationState ;;
  if tgs_eqb st interrupted then abort
  else
    st' <- getTextGenerationState ;;
    if negb (tgs_eqb st' generating) then updateTextGenerationState generating
    else ret tt.

(** The tokens a trace receives, in order. *)
Fixpoint tokensOf (evs : list Event) : list Backend :=
  match evs with
  | [] => []
  | EvToken b :: rest => b :: tokensOf rest
  | _ :: rest => tokensOf rest
  end.

Definition notToken (e : Event) : Prop :=
  match e with EvToken _ => False | _ => True end.

Definition isPending (p : SearchPromise) : Prop :=
  match p with Pending _ _ => True | _ => False end.

(** The completion calls of a trace, in order. *)
Fixpoint completionsOf (evs : list Event) : list (Backend * Request) :=
  match evs with
  | [] => []
  | EvCompletion b req :: rest => (b, req) :: completionsOf rest
  | _ :: rest => completionsOf rest
  end.

Definition notCompletion (e : Event) : Prop :=
  match e with EvCompletion _ _ => False | _ => True end.

(** What [generateTextWithOpenAI] does once the completion call is
    issued. *)
Definition openAiStreaming (E : Env) (messages : list Message) : M unit :=
  completion <- await E (openAiCreate E messages) ;;
  streamedMessage <- consume E openAiOnChunk completion "" ;;
  updateResponse streamedMessage.

(** The inner [catch] block: the two log entries and the Wllama run. *)
Definition fallBack (E : Env) (error : string) : M unit :=
  addLogEntry ("Skipping text generation with WebLLM: " ++ error)%string ;;
  addLogEntry "Starting text generation with Wllama" ;;
  generateTextWithWllama E.

(** The end of the outer [try] block. *)
Definition markCompleted : M unit :=
  st <- getTextGenerationState ;;
  if negb (tgs_eqb st interrupted) then updateTextGenerationState completed
  else ret tt.

(** The state a run that ran into no error ends in. *)
Definition endState (s : Store) : TextGenerationState :=
  if tgs_eqb (textGenerationState s) interrupted then interrupted else completed.

(** C5, as the specification words it, at the errors thrown by
    [generateTextWithWebLlm]: such an error that is not an error of the
    model initialization ends the run in "failed", logged. *)
Definition otherErrorsEndFailed (E : Env) (s : Store) : Prop :=
  forall e,
    outcome (generateTextWithWebLlm E) (after (enterGeneration E) s) = Throw e ->
    ~ webLlmInitFails E ->
    textGenerationState (after (prepareTextGeneration E) s) = failed /\
    In ("Error generating text: " ++ e)%string
       (logEntries (after (prepareTextGeneration E) s)).

(** The values the text-generation state takes along a trace, whoever
    stores them. *)
Fixpoint stateHistory (evs : list Event) : list TextGenerationState :=
  match evs with
  | [] => []
  | EvTextGenerationState st :: rest => st :: stateHistory rest
  | EvInterrupt :: rest => interrupted :: stateHistory rest
  | _ :: rest => stateHistory rest
  end.

(** The order of the glossary: idle, loading model, awaiting search,
    generating, and the three terminal states; "preparingToGenerate" is
    not part of it. *)
Definition glossaryOrder (st : TextGenerationState) : option nat :=
  match st with
  | idle => Some 0%nat
  | loadingModel => Some 1%nat
  | awaitingSearchResults => Some 2%nat
  | preparingToGenerate => None
  | generating => Some 3%nat
  | interrupted | failed | completed => Some 4%nat
  end.

(** The order with the state the code adds between awaiting the search
    and generating. *)
Definition codeOrder (st : TextGenerationState) : nat :=
  match st with
  | idle => 0
  | loadingModel => 1
  | awaitingSearchResults => 2
  | preparingToGenerate => 3
  | generating => 4
  | interrupted | failed | completed => 5
  end%nat.

(** Every step of the history goes from a state to one that is not
    earlier in the order, both being in the order. *)
Definition movesForward (order : TextGenerationState -> option nat)
                        (history : list TextGenerationState) : Prop :=
  forall pre a b post,
    history = pre ++ a :: b :: post ->
    exists ra rb, order a = Some ra /\ order b = Some rb /\ (ra <= rb)%nat.

(** [climbs lo hi l]: the ranks along [l] never decrease and lie between
    [lo] and [hi]. *)
Fixpoint climbs (lo hi : nat) (l : list TextGenerationState) : Prop :=
  match l with
  | [] => True
  | x :: rest => (lo <= codeOrder x <= hi)%nat /\ climbs (codeOrder x) hi rest
  end.

(** The run of [m] from [s] adds a history that climbs from [lo] to at
    most [hi]. *)
Definition phaseAt {A} (lo hi : nat) (m : M A) (s : Store) : Prop :=
  exists evs, trace (snd (m s)) = trace s ++ evs /\
              climbs lo hi (stateHistory evs).

Definition streaming (st : TextGenerationState) : Prop :=
  st = interrupted \/ st = generating.

(** What holds between two points inside a streaming loop: the history
    between them climbs within "generating" and the terminal states; once
    the state is "generating" or "interrupted" it stays so and only
    interruptions follow; and any change leaves such a state. *)
Definition inStream (s s' : Store) : Prop :=
  exists evs, trace s' = trace s ++ evs /\
    climbs 4 5 (stateHistory evs) /\
    (streaming (textGenerationState s) ->
     climbs 5 5 (stateHistory evs) /\ streaming (textGenerationState s')) /\
    (stateHistory evs <> [] -> streaming (textGenerationState s')).

(** A request is served by one attempt that writes no state before its
    response phase: OpenAI; Wllama because WebGPU is unavailable or
    disabled; or WebLLM with the model not yet cached, returning
    normally. *)
Definition singleAttempt (E : Env) (s1 : Store) : Prop :=
  inferenceType (getSettings E) = "openai"%string \/
  isWebGPUAvailable E = false \/
  enableWebGpu (getSettings E) = false \/
  (hasModelInCache E (webLlmModelId (getSettings E)) = Ok false /\
   outcome (generateTextWithWebLlm E) s1 = Ok tt).

(** The events a run adds to the trace. *)
Definition newEvents {A} (m : M A) (s : Store) : list Event :=
  skipn (List.length (trace s)) (trace (after m s)).

(** C4 as the specification words it: along a run the state moves
    forward in the order of the glossary and enters no state outside
    it. *)
Definition forwardInGlossaryOrder (E : Env) (s : Store) : Prop :=
  movesForward glossaryOrder
    (stateHistory (newEvents (prepareTextGeneration E) s)).

Definition notIdle (e : Event) : Prop := e <> EvTextGenerationState idle.

(** [generateTextWith<b>]. *)
Definition generateTextWith (E : Env) (b : Backend) : M unit :=
  match b with
  | OpenAI => generateTextWithOpenAI E
  | WebLlm => generateTextWithWebLlm E
  | Wllama => generateTextWithWllama E
  end.

(** What backend [b] does before its response phase: its code up to, and
    not including, its call of [canStartResponding]. *)
Definition beforeResponding (E : Env) (b : Backend) : M unit :=
  match b with
  | OpenAI => emit (EvBackend OpenAI)
  | WebLlm =>
      emit (EvBackend WebLlm) ;;
      let selectedModelId := webLlmModelId (getSettings E) in
      addLogEntry ("Selected WebLLM model: " ++ selectedModelId)%string ;;
      isModelCached <- await E (hasModelInCache E selectedModelId) ;;
      (if isModelCached : bool then
         updateTextGenerationState preparingToGenerate ;;
         untilUiIsUpdated E
       else ret tt) ;;
      suspend E ;;
      (if isModelCached : bool then ret tt
       else reportInitProgress (webLlmInitProgress E)) ;;
      liftResult (createMLCEngine E selectedModelId)
  | Wllama =>
      emit (EvBackend Wllama) ;;
      suspend E ;;
      match wllamaModels E (wllamaModelId (getSettings E)) with
      | None => throw "TypeError: Cannot read properties of undefined (reading 'url')"
      | Some model =>
          suspend E ;;
          reportLoadProgress (wllamaLoadProgress E) 0 ;;
          liftResult (initializeWllama E (modelUrl model))
      end
  end.

(** Whether backend [b] goes on to a response phase: WebLLM and Wllama
    test [enableAiResponse] once more, OpenAI does not. *)
Definition responds (E : Env) (b : Backend) : bool :=
  match b with
  | OpenAI => true
  | WebLlm | Wllama => enableAiResponse (getSettings E)
  end.

(** The request backend [b] builds from the store [s1]. *)
Definition requestBuiltFrom (E : Env) (b : Backend) (s1 : Store) : Result Request :=
  match b with
  | OpenAI | WebLlm => Ok (ChatRequest (chatMessages E s1))
  | Wllama =>
      match wllamaModels E (wllamaModelId (getSettings E)) with
      | None => Throw "TypeError: Cannot read properties of undefined (reading 'url')"
      | Some model =>
          match buildPrompt model (getQuery E)
                  (getFormattedSearchResults E (shouldIncludeUrlsOnPrompt model) s1)
          with
          | Ok prompt => Ok (PromptRequest prompt)
          | Throw e => Throw e
          end
      end
  end.

(** The promise in the store is the search for [q]: still pending, or
    settled with what [startSearch] answers for [q], the answer being the
    search results of the store. *)
Definition searchTracked (E : Env) (q : string) (x : Store) : Prop :=
  match searchPromise x with
  | Pending q' _ => q' = q
  | Fulfilled r => outcome (startSearch E q) x = Ok r /\ searchResults x = r
  | Rejected e => outcome (startSearch E q) x = Throw e
  | NoPromise => False
  end.

(** A run preserves a property of the store, whether it returns or
    throws. *)
Definition preserves (I : Store -> Prop) (s s' : Store) : Prop := I s -> I s'.

(** The run of backend [b] from [s] is sequenced after the search.  When
    the backend reaches its response phase, at the store [s0], and
    [canStartResponding] returns there, at the store [s1]: the search
    promise is settled in [s1]; if it is the search for [q], it is
    fulfilled with the answer of that search and the answer is in [s1];
    "awaitingSearchResults" was written and the promise awaited between
    [s0] and [s1]; and the one completion call of the run carries the
    request built from [s1] and comes right after the write of
    "preparingToGenerate" that follows [s1].  In every other case the run
    issues no completion call. *)
Definition sequencedAfterSearch (E : Env) (b : Backend) (s : Store) : Prop :=
  let run := generateTextWith E b in
  let issued := completionsOf (newEvents run s) in
  match beforeResponding E b s with
  | (Throw e, s0) => run s = (Throw e, s0) /\ issued = []
  | (Ok _, s0) =>
      if responds E b then
        match canStartResponding E s0 with
        | (Throw e, s1) =>
            run s = (Throw e, s1) /\ searchPromise s1 = Rejected e /\ issued = []
        | (Ok _, s1) =>
            ~ isPending (searchPromise s1) /\
            (forall q, searchTracked E q s ->
               exists r, outcome (startSearch E q) s = Ok r /\
                         searchPromise s1 = Fulfilled r /\
                         searchResults s1 = r) /\
            (exists evs,
               trace s1 = trace s0 ++
                 EvTextGenerationState awaitingSearchResults
                 :: evs ++ [EvSearchAwaited]) /\
            match requestBuiltFrom E b s1 with
            | Ok req =>
                issued = [(b, req)] /\
                exists post,
                  trace (after run s)
                  = trace s1 ++ EvTextGenerationState preparingToGenerate
                             :: EvCompletion b req :: post
            | Throw e => outcome run s = Throw e /\ issued = []
            end
        end
      else issued = []
  end.

(** Every stop of the user is stored while the routine waits for a
    streamed token: among the events, an interruption comes right before
    the token whose wait it ended. *)
Fixpoint stopsAtPollPoints (evs : list Event) : Prop :=
  match evs with
  | [] => True
  | EvInterrupt :: rest =>
      match rest with EvToken _ :: _ => True | _ => False end /\
      stopsAtPollPoints rest
  | _ :: rest => stopsAtPollPoints rest
  end.

(** The events [evs] keep every stop at a poll point and do not end on a
    stop that still waits for its token. *)
Definition stopsSettled (evs : list Event) : Prop :=
  stopsAtPollPoints evs /\ last evs EvSearchAwaited <> EvInterrupt.

(** The run from [s] to [s'] stores every stop at a poll point. *)
Definition pollStops (s s' : Store) : Prop :=
  exists evs, trace s' = trace s ++ evs /\ stopsSettled evs.

(** *** Stop strings, streamed texts and the log *)

(** The part of [currentText] in which the loop of [onNewToken] looks for
    [stopString]: [currentText.slice(-(stopString.length * 2))]. *)
Definition stopWindow (stopString currentText : string) : string :=
  Js.strSlice (- (Z.of_nat (String.length stopString) * 2)) None currentText.

Definition stopFound (stopString currentText : string) : bool :=
  Js.includes stopString (stopWindow stopString currentText).

Definition noStopFound (currentText : string) (stops : list string) : Prop :=
  Forall (fun stop => stopFound stop currentText = false) stops.

(** The text [onNewToken] keeps of [currentText]: the value the
    stop-string loop leaves in it. *)
Fixpoint textAfterStops (stops : list string) (currentText : string) : string :=
  match stops with
  | [] => currentText
  | stopString :: rest =>
      if stopFound stopString currentText
      then Js.strSlice 0 (Some (- Z.of_nat (String.length stopString))) currentText
      else textAfterStops rest currentText
  end.

Definition shownText (model : WllamaModel) (currentText : string) : string :=
  match stopStrings model with
  | Some stops => textAfterStops stops currentText
  | None => currentText
  end.

(** Every response update among the events carries a text that is [good]. *)
Definition respondsWith (good : string -> Prop) (e : Event) : Prop :=
  match e with EvResponse _ text => good text | _ => True end.

(** The log only grows. *)
Definition logGrows (s s' : Store) : Prop :=
  exists entries, logEntries s' = logEntries s ++ entries.

(** What the OpenAI backend never writes: the log and the model loading
    progress. *)
Definition logAndProgress (s : Store) : list string * Z :=
  (logEntries s, modelLoadingProgress s).

(** *** The search of a run *)

(** The two queries [startSearch] may send for [q]. *)
Definition firstSearchQuery (E : Env) (q : string) : string :=
  if 2000 <? Z.of_nat (String.length q)
  then Js.join " " (getKeywords E q (Some 20)) else q.

Definition retrySearchQuery (E : Env) (q : string) : string :=
  Js.join " " (getKeywords E q (Some 10)).

(** The calls one search for [q] can make. *)
Definition oneSearch (E : Env) (q : string) (calls : list (string * Z)) : Prop :=
  calls = [(firstSearchQuery E q, 30)] \/
  calls = [(firstSearchQuery E q, 30); (retrySearchQuery E q, 30)].

(** From a store with a pending search for [q], a run either leaves the
    search pending and calls nothing, or lets it settle with the calls of
    one search; from any other store it calls nothing and starts no
    search. *)
Definition searchesOnce (E : Env) (s s' : Store) : Prop :=
  exists evs, trace s' = trace s ++ evs /\
    match searchPromise s with
    | Pending q _ =>
        (searchCalls evs = [] /\ exists n, searchPromise s' = Pending q n) \/
        (oneSearch E q (searchCalls evs) /\ ~ isPending (searchPromise s'))
    | _ => searchCalls evs = [] /\ ~ isPending (searchPromise s')
    end.

Definition notSearchCall (e : Event) : Prop :=
  match e with EvSearchCall _ _ => False | _ => True end.

(** The search for [q] fails with [e]: the first call of the search
    service throws [e], or it finds no text results and the retry throws
    [e]. *)
Definition searchFails (E : Env) (q e : string) : Prop :=
  search E 0 (firstSearchQuery E q) 30 = Throw e \/
  exists first,
    search E 0 (firstSearchQuery E q) 30 = Ok first /\
    textResults first = [] /\
    search E 1 (retrySearchQuery E q) 30 = Throw e.

(** The search promise of the store is rejected with [e] or is going to
    be. *)
Definition searchDoomed (E : Env) (e : string) (s : Store) : Prop :=
  match searchPromise s with
  | Pending q _ => searchFails E q e
  | Rejected e' => e' = e
  | _ => False
  end.

(** From a store with [I] the run throws, and [I] still holds. *)
Definition blocked (I : Store -> Prop) {A} (m : M A) : Prop :=
  forall s, I s -> I (snd (m s)) /\ exists e, fst (m s) = Throw e.

(** The search is doomed and the completion calls made so far are [made]. *)
Definition doomedWith (E : Env) (e : string) (made : list (Backend * Request))
                      (s : Store) : Prop :=
  searchDoomed E e s /\ completionsOf (trace s) = made.

(** The search promise of the store is settled, or was never set. *)
Definition searchOver (s : Store) : Prop := ~ isPending (searchPromise s).

(** Whatever the store the run starts from, and whether it returns or
    throws, it ends in a store with [I]. *)
Definition reaches (I : Store -> Prop) {A} (m : M A) : Prop :=
  forall s, I (snd (m s)).

(** *** The stop of the user *)

(** The user pressed "stop" while the routine waited for one of the items. *)
Definition stopPressedDuring {T} (items : list (Arrival T)) : Prop :=
  Exists (fun a => stopPressed a = true) items.

Definition isInterrupted (s : Store) : Prop := textGenerationState s = interrupted.

(** *** Sample stores, streams and environments *)

Module Samples.

Local Open Scope string_scope.

Definition store0 : Store :=
  mkStore "previous answer" emptySearchResults searchIdle idle NoPromise
          "MiniSearch" 0 [] 0 0 [].

Definition results2 : SearchResults :=
  mkSearchResults [("Cats", "Cats purr.", "https://cats.example");
                   ("Dogs", "Dogs bark.", "https://dogs.example")] [].

Definition hello : Stream (option string) :=
  mkStream [mkArrival (Some "Hel") 100 false;
            mkArrival None 150 false;
            mkArrival (Some "lo") 200 false] None.

(** A stream that delivers one chunk and then breaks. *)
Definition broken : Stream (option string) :=
  mkStream [mkArrival (Some "Hel") 100 false] (Some "Error: device lost").

Definition tokens : Stream string :=
  mkStream [mkArrival "He" 100 false; mkArrival "Hello" 300 false] None.

Definition model : WllamaModel :=
  mkWllamaModel "https://models.example/model.gguf" true None
                (fun q formatted => Ok (formatted ++ " / " ++ q)).

(** An environment in which every library call succeeds. *)
Definition env (kind : string) (consider : Z) (gpu : bool)
               (webLlm : Stream (option string)) : Env :=
  mkEnv "cats" (mkSettings true kind true consider "webllm-model" "wllama-model")
        gpu
        1%nat (fun _ _ _ => Ok results2) (fun text => [text])
        (fun formatted => "Search results: " ++ formatted) (fun _ => "a moment")
        (fun _ => Ok hello)
        (fun _ => Ok false) [10; 50] (fun _ => Ok tt) (fun _ => Ok webLlm) (Ok "fast")
        (fun _ => Some model) [10; 10; 20] (fun _ => Ok tt) (fun _ => tokens) (Ok tt).

(** An environment with a given query and AI switch. *)
Definition plain (q : string) (enabled : bool) : Env :=
  mkEnv q (mkSettings enabled "openai" true 3 "webllm-model" "wllama-model")
        true
        0%nat (fun _ _ _ => Ok emptySearchResults) (fun text => [text])
        (fun formatted => formatted) (fun _ => "a moment")
        (fun _ => Ok hello)
        (fun _ => Ok true) [] (fun _ => Ok tt) (fun _ => Ok hello) (Ok "fast")
        (fun _ => None) [] (fun _ => Ok tt) (fun _ => tokens) (Ok tt).

(** A store in which the search for "cats" is under way. *)
Definition searching : Store :=
  mkStore "" emptySearchResults searchRunning loadingModel (Pending "cats" 1)
          "cats" 0 [] 0 0 [].

(** A stream during which the user presses "stop": the stop is stored
    while the routine waits for the second chunk. *)
Definition stopped : Stream (option string) :=
  mkStream [mkArrival (Some "Hel") 100 false;
            mkArrival (Some "lo") 200 true;
            mkArrival (Some "!") 300 false] None.

End Samples.

(** *** Environments in which a library call fails *)

Module Failures.

Local Open Scope string_scope.

(** The search service cannot be reached. *)
Definition offline : Env :=
  mkEnv "cats" (mkSettings true "openai" true 3 "webllm-model" "wllama-model")
        true
        1%nat (fun _ _ _ => Throw "Error: network") (fun text => [text])
        (fun formatted => "Search results: " ++ formatted) (fun _ => "a moment")
        (fun _ => Ok Samples.hello)
        (fun _ => Ok false) [10; 50] (fun _ => Ok tt) (fun _ => Ok Samples.hello)
        (Ok "fast")
        (fun _ => Some Samples.model) [10; 10; 20] (fun _ => Ok tt)
        (fun _ => Samples.tokens) (Ok tt).

(** WebLLM cannot create its engine, and the settings name a Wllama model
    that the table of models does not have. *)
Definition noModel : Env :=
  mkEnv "cats" (mkSettings true "browser" true 3 "webllm-model" "missing")
        true
        1%nat (fun _ _ _ => Ok Samples.results2) (fun text => [text])
        (fun formatted => "Search results: " ++ formatted) (fun _ => "a moment")
        (fun _ => Ok Samples.hello)
        (fun _ => Ok false) [10; 50] (fun _ => Throw "Error: out of memory")
        (fun _ => Ok Samples.hello) (Ok "fast")
        (fun _ => None) [] (fun _ => Ok tt) (fun _ => Samples.tokens) (Ok tt).

(** A store that holds the two sample results. *)
Definition answered : Store :=
  mkStore "" Samples.results2 searchCompleted idle NoPromise "cats" 0 [] 0 0 [].

End Failures.

(* ================================================================== *)
(** ** Reasoning about runs *)
(* ================================================================== *)

Create HintDb prog.

#[global] Hint Unfold
  updateResponse updateSearchResults updateSearchState
  updateTextGenerationState getTextGenerationState userInterrupts
  searchCall startSearch_begin startSearch_resume startSearch
  settleSearch suspend untilUiIsUpdated await awaitSearchPromise
  updateSearchPromise_startSearch canStartResponding
  updateResponseRateLimited receive consume
  openAiOnChunk generateTextWithOpenAI
  webLlmOnChunk generateTextWithWebLlm
  onNewToken generateTextWithWllama
  webGpuGuard generateText prepareTextGeneration : prog.

(** A relation between the store before and after, closed under doing
    nothing and under sequencing, holds of a whole run as soon as it holds
    of every primitive step. *)
Section Respects.

Variable E : Env.
Variable R : Store -> Store -> Prop.
Context {R_pre : PreOrder R}.

Lemma respects_ret {A} (a : A) : respects R (ret a).
Proof. intros s. simpl. reflexivity. Qed.

Lemma respects_throw {A} e : respects R (@throw A e).
Proof. intros s. simpl. reflexivity. Qed.

Lemma respects_liftResult {A} (r : Result A) : respects R (liftResult r).
Proof. intros s. simpl. reflexivity. Qed.

Lemma respects_reads {A} (f : Store -> A) : respects R (reads f).
Proof. intros s. simpl. reflexivity. Qed.

Lemma respects_bind {A B} (m : M A) (k : A -> M B) :
  respects R m -> (forall a, respects R (k a)) -> respects R (bind m k).
Proof.
  intros Hm Hk s. unfold bind. specialize (Hm s).
  destruct (m s) as [[a|e] s1]; simpl in *; [|assumption].
  etransitivity; [eassumption | apply Hk].
Qed.

Lemma respects_tryCatch {A} (body : M A) handler :
  respects R body -> (forall e, respects R (handler e)) ->
  respects R (tryCatch body handler).
Proof.
  intros Hm Hk s. unfold tryCatch. specialize (Hm s).
  destruct (body s) as [[a|e] s1]; simpl in *; [assumption|].
  etransitivity; [eassumption | apply Hk].
Qed.

Lemma respects_tryFinally {A} (body : M A) fin :
  respects R body -> respects R fin -> respects R (tryFinally body fin).
Proof.
  intros Hm Hk s. unfold tryFinally. specialize (Hm s).
  destruct (body s) as [r s1]; simpl in *. specialize (Hk s1).
  destruct (fin s1) as [[u|e] s2]; simpl in *;
    (etransitivity; [eassumption | assumption]).
Qed.

Lemma respects_forAwait {T A} (body : A -> T -> M A) items :
  (forall a : Arrival T, respects R (receive E a)) ->
  (forall acc t, respects R (body acc t)) ->
  forall acc, respects R (forAwait E body items acc).
Proof.
  intros Hr Hb. induction items as [|a rest IH]; intros acc; simpl.
  - apply respects_ret.
  - apply respects_bind; [apply Hr|]. intros _.
    apply respects_bind; [apply Hb|]. intros acc'. apply IH.
Qed.

Lemma respects_reportInitProgress reports :
  (forall p, respects R (updateModelLoadingProgress p)) ->
  respects R (reportInitProgress reports).
Proof.
  intros Hp. induction reports as [|p rest IH]; simpl.
  - apply respects_ret.
  - apply respects_bind; [apply Hp | intros _; apply IH].
Qed.

Lemma respects_reportLoadProgress reports :
  (forall p, respects R (updateModelLoadingProgress p)) ->
  forall shown, respects R (reportLoadProgress reports shown).
Proof.
  intros Hp. induction reports as [|p rest IH]; intros shown; simpl.
  - apply respects_ret.
  - destruct (negb (shown =? p)); [|apply IH].
    apply respects_bind; [apply Hp | intros _; apply IH].
Qed.

Lemma respects_cutAtStopString stops :
  respects R (emit (EvAbort Wllama)) ->
  forall text, respects R (cutAtStopString stops text).
Proof.
  intros Hp. induction stops as [|stop rest IH]; intros text; simpl.
  - apply respects_ret.
  - destruct (Js.includes _ _); [|apply IH].
    apply respects_bind; [apply Hp | intros _; apply respects_ret].
Qed.

End Respects.

(** The primitive steps: the writes of single fields and [emit]. *)
Ltac on_primitive tac :=
  lazymatch goal with
  | |- respects _ ?m =>
      lazymatch m with
      | emit _ => tac
      | writeResponse _ => tac
      | writeSearchResults _ => tac
      | writeSearchState _ => tac
      | writeTextGenerationState _ => tac
      | writeSearchPromise _ => tac
      | setDocumentTitle _ => tac
      | updateModelLoadingProgress _ => tac
      | addLogEntry _ => tac
      | setLastUpdateTime _ => tac
      | advanceClock _ => tac
      end
  end.

Ltac head_of t :=
  lazymatch t with
  | ?f _ => head_of f
  | _ => t
  end.

(** Only the definitions of the module are opened, and only at the head
    of the program, so that a step is seen whole before it is seen in
    parts. *)
Ltac open_head :=
  lazymatch goal with
  | |- respects _ ?m =>
      let h := head_of m in
      lazymatch h with
      | updateResponse => unfold updateResponse at 1
      | updateSearchResults => unfold updateSearchResults at 1
      | updateSearchState => unfold updateSearchState at 1
      | updateTextGenerationState => unfold updateTextGenerationState at 1
      | getTextGenerationState => unfold getTextGenerationState at 1
      | userInterrupts => unfold userInterrupts at 1
      | searchCall => unfold searchCall at 1
      | startSearch_begin => unfold startSearch_begin at 1
      | startSearch_resume => unfold startSearch_resume at 1
      | startSearch => unfold startSearch at 1
      | settleSearch => unfold settleSearch at 1
      | suspend => unfold suspend at 1
      | untilUiIsUpdated => unfold untilUiIsUpdated at 1
      | await => unfold await at 1
      | awaitSearchPromise => unfold awaitSearchPromise at 1
      | updateSearchPromise_startSearch =>
          unfold updateSearchPromise_startSearch at 1
      | canStartResponding => unfold canStartResponding at 1
      | updateResponseRateLimited => unfold updateResponseRateLimited at 1
      | receive => unfold receive at 1
      | consume => unfold consume at 1
      | openAiOnChunk => unfold openAiOnChunk at 1
      | generateTextWithOpenAI => unfold generateTextWithOpenAI at 1
      | webLlmOnChunk => unfold webLlmOnChunk at 1
      | generateTextWithWebLlm => unfold generateTextWithWebLlm at 1
      | onNewToken => unfold onNewToken at 1
      | generateTextWithWllama => unfold generateTextWithWllama at 1
      | webGpuGuard => unfold webGpuGuard at 1
      | generateText => unfold generateText at 1
      | prepareTextGeneration => unfold prepareTextGeneration at 1
      end
  end.

Ltac respects_with leaf :=
  repeat first
    [ progress intros
    | match goal with |- PreOrder _ => solve [typeclasses eauto] end
    | solve [leaf]
    | lazymatch goal with
      | |- respects _ (ret _) => apply respects_ret
      | |- respects _ (throw _) => apply respects_throw
      | |- respects _ (liftResult _) => apply respects_liftResult
      | |- respects _ (reads _) => apply respects_reads
      | |- respects _ (bind _ _) => apply respects_bind
      | |- respects _ (tryCatch _ _) => apply respects_tryCatch
      | |- respects _ (tryFinally _ _) => apply respects_tryFinally
      | |- respects _ (forAwait _ _ _ _) => apply respects_forAwait
      | |- respects _ (reportInitProgress _) => apply respects_reportInitProgress
      | |- respects _ (reportLoadProgress _ _) => apply respects_reportLoadProgress
      | |- respects _ (cutAtStopString _ _) => apply respects_cutAtStopString
      | |- respects _ (match ?x with _ => _ end) => destruct x
      | |- respects _ (let _ := _ in _) => cbv zeta
      end
    | open_head ].

(** *** Runs that only add events of a given kind *)

#[global] Instance extendsBy_PreOrder P : PreOrder (extendsBy P).
Proof.
  split.
  - intros s. exists []. rewrite app_nil_r. auto.
  - intros a b c [e1 [H1 F1]] [e2 [H2 F2]]. exists (e1 ++ e2).
    rewrite H2, H1, app_assoc. split; [reflexivity|].
    apply Forall_app; auto.
Qed.

Ltac extendsBy_step :=
  first
    [ exists []; simpl; rewrite app_nil_r; split; [reflexivity | constructor]
    | eexists [_]; simpl; split;
      [reflexivity
      | constructor; [simpl; solve [exact I | congruence | auto] | constructor]] ].

Ltac extendsBy_leaf := on_primitive ltac:(idtac); intros ?s; extendsBy_step.

#[global] Instance keeping_PreOrder {X} (f : Store -> X) P : PreOrder (keeping f P).
Proof.
  split.
  - intros s. split; reflexivity.
  - intros a b c [H1 E1] [H2 E2]. split; [congruence | etransitivity; eauto].
Qed.

Ltac keeping_leaf :=
  on_primitive ltac:(idtac); intros ?s; split; [reflexivity | extendsBy_step].

Lemma respects_run {A} (R : Store -> Store -> Prop) (m : M A) s r s' :
  respects R m -> m s = (r, s') -> R s s'.
Proof. intros H Hm. specialize (H s). rewrite Hm in H. exact H. Qed.

Lemma extendsBy_In P s s' e :
  extendsBy P s s' -> In e (trace s) -> In e (trace s').
Proof. intros [evs [H _]] Hin. rewrite H. apply in_or_app. auto. Qed.

Lemma extendsBy_weaken (P Q : Event -> Prop) s s' :
  (forall e, P e -> Q e) -> extendsBy P s s' -> extendsBy Q s s'.
Proof.
  intros HPQ [evs [H F]]. exists evs. split; [exact H|].
  eapply Forall_impl; eauto.
Qed.

Lemma newEvents_spec {A} (m : M A) s evs :
  trace (after m s) = trace s ++ evs -> newEvents m s = evs.
Proof.
  intros H. unfold newEvents. rewrite H.
  rewrite skipn_app, skipn_all, Nat.sub_diag. reflexivity.
Qed.



(** *** Runs that never throw *)

Section NoThrow.
Variable E : Env.

Lemma noThrow_ret {A} (a : A) : noThrow (ret a).
Proof. intros s. exists a. reflexivity. Qed.

Lemma noThrow_reads {A} (f : Store -> A) : noThrow (reads f).
Proof. intros s. exists (f s). reflexivity. Qed.

Lemma noThrow_bind {A B} (m : M A) (k : A -> M B) :
  noThrow m -> (forall a, noThrow (k a)) -> noThrow (bind m k).
Proof.
  intros Hm Hk s. unfold bind. destruct (Hm s) as [a Ha].
  destruct (m s) as [[a'|e] s1]; simpl in Ha; [|discriminate].
  apply Hk.
Qed.

Lemma noThrow_tryCatch {A} (body : M A) handler :
  (forall e, noThrow (handler e)) -> noThrow (tryCatch body handler).
Proof.
  intros Hk s. unfold tryCatch.
  destruct (body s) as [[a|e] s1]; [exists a; reflexivity | apply Hk].
Qed.

Lemma noThrow_emit e : noThrow (emit e).
Proof. intros s. exists tt. reflexivity. Qed.

Lemma noThrow_reportInitProgress reports : noThrow (reportInitProgress reports).
Proof.
  induction reports as [|p rest IH]; simpl; [apply noThrow_ret|].
  apply noThrow_bind; [intros s; exists tt; reflexivity | intros _; apply IH].
Qed.

Lemma noThrow_reportLoadProgress reports :
  forall shown, noThrow (reportLoadProgress reports shown).
Proof.
  induction reports as [|p rest IH]; intros shown; simpl; [apply noThrow_ret|].
  destruct (negb (shown =? p)); [|apply IH].
  apply noThrow_bind; [intros s; exists tt; reflexivity | intros _; apply IH].
Qed.

Lemma noThrow_cutAtStopString stops :
  forall text, noThrow (cutAtStopString stops text).
Proof.
  induction stops as [|stop rest IH]; intros text; simpl; [apply noThrow_ret|].
  destruct (Js.includes _ _); [|apply IH].
  apply noThrow_bind; [apply noThrow_emit | intros _; apply noThrow_ret].
Qed.

End NoThrow.

Ltac noThrow_tac :=
  repeat first
    [ progress intros
    | lazymatch goal with
      | |- noThrow (ret _) => apply noThrow_ret
      | |- noThrow (reads _) => apply noThrow_reads
      | |- noThrow (emit _) => apply noThrow_emit
      | |- noThrow (bind _ _) => apply noThrow_bind
      | |- noThrow (tryCatch _ _) => apply noThrow_tryCatch
      | |- noThrow (reportInitProgress _) => apply noThrow_reportInitProgress
      | |- noThrow (reportLoadProgress _ _) => apply noThrow_reportLoadProgress
      | |- noThrow (cutAtStopString _ _) => apply noThrow_cutAtStopString
      | |- noThrow (match ?x with _ => _ end) => destruct x
      | |- noThrow (let _ := _ in _) => cbv zeta
      | |- noThrow (writeResponse _) => intros ?s; exists tt; reflexivity
      | |- noThrow (writeSearchResults _) => intros ?s; exists tt; reflexivity
      | |- noThrow (writeSearchState _) => intros ?s; exists tt; reflexivity
      | |- noThrow (writeTextGenerationState _) => intros ?s; exists tt; reflexivity
      | |- noThrow (writeSearchPromise _) => intros ?s; exists tt; reflexivity
      | |- noThrow (setDocumentTitle _) => intros ?s; exists tt; reflexivity
      | |- noThrow (updateModelLoadingProgress _) => intros ?s; exists tt; reflexivity
      | |- noThrow (addLogEntry _) => intros ?s; exists tt; reflexivity
      | |- noThrow (setLastUpdateTime _) => intros ?s; exists tt; reflexivity
      | |- noThrow (advanceClock _) => intros ?s; exists tt; reflexivity
      end
    | progress autounfold with prog ].

Section NoThrowFacts.
Variable E : Env.

Lemma suspend_noThrow : noThrow (suspend E).
Proof. noThrow_tac. Qed.

Lemma suspend_ok s : fst (suspend E s) = Ok tt.
Proof. destruct (suspend_noThrow s) as [[] H]. exact H. Qed.

Lemma updateResponseRateLimited_noThrow text : noThrow (updateResponseRateLimited text).
Proof. noThrow_tac. Qed.

Lemma receive_noThrow {T} (a : Arrival T) : noThrow (receive E a).
Proof. noThrow_tac. Qed.

Lemma openAiOnChunk_noThrow acc d : noThrow (openAiOnChunk acc d).
Proof. noThrow_tac. Qed.

Lemma webLlmOnChunk_noThrow acc d : noThrow (webLlmOnChunk E acc d).
Proof. noThrow_tac. Qed.

Lemma onNewToken_noThrow model acc t : noThrow (onNewToken model acc t).
Proof. noThrow_tac. Qed.

Lemma forAwait_noThrow {T A} (body : A -> T -> M A) items :
  (forall acc t, noThrow (body acc t)) ->
  forall acc, noThrow (forAwait E body items acc).
Proof.
  intros Hb. induction items as [|a rest IH]; intros acc; simpl.
  - apply noThrow_ret.
  - apply noThrow_bind; [apply receive_noThrow|]. intros _.
    apply noThrow_bind; [apply Hb | intros acc'; apply IH].
Qed.

End NoThrowFacts.

(* ================================================================== *)
(** ** The shape of a run of [prepareTextGeneration] *)
(* ================================================================== *)

Section Shape.
Variable E : Env.

Lemma bind_unit_ok {B} (m : M unit) (k : unit -> M B) s :
  noThrow m -> bind m k s = k tt (snd (m s)).
Proof.
  intros H. unfold bind. destruct (H s) as [[] Ha].
  destruct (m s) as [[[]|e] s1]; simpl in *; [reflexivity|discriminate].
Qed.

Lemma bind_reads {A B} (f : Store -> A) (k : A -> M B) s :
  bind (reads f) k s = k (f s) s.
Proof. reflexivity. Qed.

Lemma snd_tryFinally {A} (body : M A) fin s :
  snd (tryFinally body fin s) = snd (fin (snd (body s))).
Proof.
  unfold tryFinally. destruct (body s) as [r s1]. simpl.
  destruct (fin s1) as [[u|e] s2]; reflexivity.
Qed.

Lemma noThrow_tryFinally {A} (body : M A) fin :
  noThrow body -> noThrow fin -> noThrow (tryFinally body fin).
Proof.
  intros Hb Hf s. unfold tryFinally. destruct (Hb s) as [a Ha].
  destruct (body s) as [r s1]. simpl in Ha. subst r.
  destruct (Hf s1) as [u Hu]. destruct (fin s1) as [[u'|e] s2]; simpl in Hu;
    [exists a; reflexivity | discriminate].
Qed.

Lemma prepareTextGeneration_enabled s :
  getQuery E <> ""%string ->
  enableAiResponse (getSettings E) = true ->
  exists entry,
    prepareTextGeneration E s =
    (Ok tt,
     snd (addLogEntry entry
       (snd (suspend E
         (snd (tryCatch (generateText E) reportFailure
           (snd (enterGeneration E s)))))))).
Proof.
  intros Hq Hen. unfold prepareTextGeneration, enterGeneration.
  destruct (String.eqb_spec (getQuery E) ""); [contradiction|].
  rewrite Hen. simpl negb. cbv iota.
  repeat (rewrite bind_unit_ok by noThrow_tac).
  rewrite bind_reads.
  repeat (rewrite bind_unit_ok by noThrow_tac).
  rewrite bind_unit_ok
    by (apply noThrow_tryFinally; [apply noThrow_tryCatch|]; noThrow_tac).
  rewrite snd_tryFinally, bind_reads.
  eexists. reflexivity.
Qed.

End Shape.

(** *** What a run adds to a projection of the trace *)

Section Adds.

Context {X : Type}.
Variable proj : list Event -> list X.
Variable quiet : Event -> Prop.
Hypothesis proj_app : forall a b, proj (a ++ b) = proj a ++ proj b.
Hypothesis proj_quiet : forall evs, Forall quiet evs -> proj evs = [].

Lemma adds_quiet {A} (m : M A) s :
  respects (extendsBy quiet) m -> adds proj m s [].
Proof.
  intros H. destruct (H s) as [evs [Ht Hq]]. unfold adds.
  rewrite Ht, proj_app, (proj_quiet _ Hq). reflexivity.
Qed.

Lemma adds_then {A B} (m : M A) (k : A -> M B) s a l1 l2 :
  fst (m s) = Ok a -> adds proj m s l1 -> adds proj (k a) (snd (m s)) l2 ->
  adds proj (bind m k) s (l1 ++ l2).
Proof.
  unfold adds, bind. destruct (m s) as [[a'|e] s1]; simpl; intros Ha H1 H2;
    [|discriminate].
  injection Ha as ->. rewrite H2, H1, app_assoc. reflexivity.
Qed.



Lemma adds_head {B} (m : M unit) (k : unit -> M B) s l :
  noThrow m -> respects (extendsBy quiet) m ->
  adds proj (k tt) (snd (m s)) l -> adds proj (bind m k) s l.
Proof.
  intros Hn Hq Hk. destruct (Hn s) as [[] Ha].
  change l with ([] ++ l). eapply adds_then; eauto. apply adds_quiet, Hq.
Qed.




Lemma adds_emit {B} e (k : M B) s :
  respects (extendsBy quiet) k -> adds proj (emit e ;; k) s (proj [e]).
Proof.
  intros Hk. rewrite <- (app_nil_r (proj [e])).
  eapply adds_then with (a := tt); [reflexivity | | apply adds_quiet, Hk].
  unfold adds. simpl. apply proj_app.
Qed.

End Adds.

Section Await.
Variable E : Env.

Lemma await_ok {A B} (a : A) (k : A -> M B) s :
  bind (await E (Ok a)) k s = k a (snd (suspend E s)).
Proof.
  unfold await. unfold bind at 1 2.
  generalize (suspend_ok E s). destruct (suspend E s) as [r s1]. simpl.
  intros ->. reflexivity.
Qed.

Lemma await_throw {A B} e (k : A -> M B) s :
  bind (await E (Throw e)) k s = (Throw e, snd (suspend E s)).
Proof.
  unfold await. unfold bind at 1 2.
  generalize (suspend_ok E s). destruct (suspend E s) as [r s1]. simpl.
  intros ->. reflexivity.
Qed.

End Await.

(* ================================================================== *)
(** ** C1: one fallback hop, from WebLLM to Wllama *)
(* ================================================================== *)

Section Fallback.
Variable E : Env.







End Fallback.




(* ================================================================== *)
(** ** C10: getFormattedSearchResults *)
(* ================================================================== *)

Section Formatting.

Lemma slice_from_start {A} (n : Z) (xs : list A) :
  0 <= n -> Js.slice 0 (Some n) xs = firstn (Z.to_nat n) xs.
Proof.
  intros Hn. unfold Js.slice, Js.clampIndex.
  replace (0 <? 0) with false by reflexivity.
  destruct (Z.ltb_spec n 0) as [H|_]; [lia|].
  rewrite (Z.min_l 0) by lia. simpl skipn. rewrite Z.sub_0_r.
  destruct (Z.le_ge_cases n (Z.of_nat (List.length xs))) as [H|H].
  - rewrite Z.min_l by lia. reflexivity.
  - rewrite Z.min_r by lia. rewrite Nat2Z.id.
    rewrite firstn_all. symmetry. apply firstn_all2. lia.
Qed.

(** A negative end index drops that many results from the end. *)
Lemma slice_negative_end {A} (n : Z) (xs : list A) :
  n < 0 ->
  Js.slice 0 (Some n) xs = firstn (List.length xs - Z.to_nat (- n)) xs.
Proof.
  intros Hn. unfold Js.slice, Js.clampIndex.
  replace (0 <? 0) with false by reflexivity.
  destruct (Z.ltb_spec n 0) as [_|H]; [|lia].
  rewrite (Z.min_l 0) by lia. simpl skipn. rewrite Z.sub_0_r.
  replace (Z.to_nat (Z.max (Z.of_nat (List.length xs) + n) 0))
    with (List.length xs - Z.to_nat (- n))%nat by lia.
  reflexivity.
Qed.

End Formatting.

(** C10, counterexample.  With one text result in the store and
    [searchResultsToConsider = 0] the function answers "None.", which is
    not the joined lines of at most zero results (the empty string). *)
Lemma C10_counterexample :
  ~ formatsAtMostConsidered
      (Samples.env "openai" 0 true Samples.hello) true
      (mkStore "" Samples.results2 searchCompleted idle NoPromise "" 0 [] 0 0 []).
Proof.
  intros [_ H]. destruct H as [shown [rest [Hsplit [Hlen Hout]]]].
  - discriminate.
  - simpl in Hlen. destruct shown as [|x shown]; [|simpl in Hlen; lia].
    vm_compute in Hout. discriminate.
Qed.

(** C10, amended.  For a setting [searchResultsToConsider >= 0] the
    function looks at the first [searchResultsToConsider] text results
    only: it answers "None." when there are none of them (no text results,
    or a setting of zero), and otherwise joins with newlines exactly those
    results, numbered from 1 as markdown links when URLs are included and
    as bulleted title-and-snippet lines when they are not. *)
Theorem C10_formats_considered_results (E : Env) (includeUrl : bool) (s : Store) :
  0 <= searchResultsToConsider (getSettings E) ->
  let shown := firstn (Z.to_nat (searchResultsToConsider (getSettings E)))
                      (textResults (searchResults s)) in
  Z.of_nat (List.length shown) <= searchResultsToConsider (getSettings E) /\
  (shown = [] <->
   textResults (searchResults s) = [] \/
   searchResultsToConsider (getSettings E) = 0) /\
  getFormattedSearchResults E includeUrl s =
    match shown with
    | [] => "None."%string
    | _ :: _ => Js.join (String "010" "") (formattedLines includeUrl shown)
    end.
Proof.
  intros Hn shown. split; [|split].
  - subst shown. rewrite List.length_firstn. lia.
  - subst shown. split.
    + intros H. destruct (textResults (searchResults s)) as [|x xs]; [auto|].
      right. destruct (Z.to_nat (searchResultsToConsider (getSettings E))) eqn:Hz;
        [lia | discriminate].
    + intros [H|H]; [rewrite H; apply firstn_nil | rewrite H; reflexivity].
  - unfold getFormattedSearchResults. rewrite slice_from_start by assumption.
    fold shown. destruct shown; [reflexivity|]. destruct includeUrl; reflexivity.
Qed.

Lemma C10_formats_considered_results_witness :
  getFormattedSearchResults (Samples.env "openai" 1 true Samples.hello) true
    (mkStore "" Samples.results2 searchCompleted idle NoPromise "" 0 [] 0 0 [])
  = "1. [Cats](https://cats.example) | Cats purr."%string.
Proof.
  pose proof (C10_formats_considered_results
                (Samples.env "openai" 1 true Samples.hello) true
                (mkStore "" Samples.results2 searchCompleted idle NoPromise
                         "" 0 [] 0 0 [])) as H.
  destruct H as [_ [_ H]]; [simpl; lia|]. rewrite H. reflexivity.
Defined.

(* ================================================================== *)
(** ** C9: what a run leaves untouched *)
(* ================================================================== *)

Lemma settleSearch_keepsGenerationState E :
  respects keepsGenerationState (settleSearch E).
Proof. unfold keepsGenerationState. respects_with keeping_leaf. Qed.

Lemma suspend_keepsGenerationState E :
  respects keepsGenerationState (suspend E).
Proof. unfold keepsGenerationState. respects_with keeping_leaf. Qed.

(** C9.  With an empty query [prepareTextGeneration] returns at once and
    the store is the one it started from.  With a non-empty query and AI
    responses disabled it clears the response and the results and starts
    the search (search state "running", a pending promise), and the
    text-generation state is not written: not by the run, and not by the
    search when it settles later. *)
Theorem C9_empty_query_and_disabled_ai (E : Env) (s : Store) :
  (getQuery E = ""%string -> prepareTextGeneration E s = (Ok tt, s)) /\
  (getQuery E <> ""%string -> enableAiResponse (getSettings E) = false ->
   prepareTextGeneration E s =
     (Ok tt,
      mkStore "" emptySearchResults searchRunning (textGenerationState s)
              (Pending (getQuery E) (searchLatency E)) (getQuery E)
              (modelLoadingProgress s) (logEntries s) (lastUpdateTime s) (now s)
              (trace s ++ [EvResponse (now s) ""; EvSearchResults emptySearchResults;
                           EvSearchState searchRunning; EvSearchPromise])) /\
   keepsGenerationState s
     (after (settleSearch E) (after (prepareTextGeneration E) s))).
Proof.
  split.
  - intros Hq. unfold prepareTextGeneration. rewrite Hq. reflexivity.
  - intros Hq Hen.
    assert (Hrun : prepareTextGeneration E s =
     (Ok tt,
      mkStore "" emptySearchResults searchRunning (textGenerationState s)
              (Pending (getQuery E) (searchLatency E)) (getQuery E)
              (modelLoadingProgress s) (logEntries s) (lastUpdateTime s) (now s)
              (trace s ++ [EvResponse (now s) ""; EvSearchResults emptySearchResults;
                           EvSearchState searchRunning; EvSearchPromise]))).
    { unfold prepareTextGeneration.
      destruct (String.eqb_spec (getQuery E) ""); [contradiction|].
      rewrite Hen. simpl negb. cbv iota.
      unfold updateSearchPromise_startSearch, startSearch_begin, updateSearchState,
        updateSearchResults, updateResponse.
      cbv [bind reads ret emit setDocumentTitle writeResponse writeSearchResults
           writeSearchState writeSearchPromise
           response searchResults searchState textGenerationState searchPromise
           documentTitle modelLoadingProgress logEntries lastUpdateTime now trace].
      rewrite <- !app_assoc. reflexivity. }
    split; [exact Hrun|].
    unfold after at 2. rewrite Hrun. cbn [snd].
    unfold keepsGenerationState.
    etransitivity; [|apply settleSearch_keepsGenerationState].
    split; [reflexivity|]. eexists. split; [reflexivity|].
    repeat constructor.
Qed.

Lemma C9_empty_query_and_disabled_ai_witness :
  prepareTextGeneration (Samples.plain "" true) Samples.store0
  = (Ok tt, Samples.store0) /\
  textGenerationState
    (after (prepareTextGeneration (Samples.plain "cats" false)) Samples.store0)
  = idle.
Proof.
  split.
  - apply C9_empty_query_and_disabled_ai. reflexivity.
  - unfold after.
    rewrite (proj1 (proj2 (C9_empty_query_and_disabled_ai
                             (Samples.plain "cats" false) Samples.store0)
                      ltac:(discriminate) ltac:(reflexivity))).
    reflexivity.
Defined.

(* ================================================================== *)
(** ** C8: startSearch *)
(* ================================================================== *)

Lemma searchCalls_app a b : searchCalls (a ++ b) = searchCalls a ++ searchCalls b.
Proof.
  induction a as [|e a IH]; simpl; [reflexivity|].
  destruct e; simpl; rewrite ?IH; reflexivity.
Qed.

Lemma getKeywords_limit E text (n : Z) :
  0 <= n ->
  getKeywords E text (Some n) = firstn (Z.to_nat n) (extractKeywords E text) /\
  Z.of_nat (List.length (getKeywords E text (Some n))) <= n.
Proof.
  intros Hn. unfold getKeywords. rewrite slice_from_start by assumption.
  split; [reflexivity|]. rewrite List.length_firstn. lia.
Qed.

Ltac run_prims :=
  cbn
    [bind ret throw reads emit liftResult tryCatch
     writeResponse writeSearchResults writeSearchState
     writeTextGenerationState writeSearchPromise setDocumentTitle
     updateModelLoadingProgress addLogEntry setLastUpdateTime advanceClock
     updateResponse updateSearchResults updateSearchState
     updateTextGenerationState getTextGenerationState userInterrupts
     response searchResults searchState textGenerationState searchPromise
     documentTitle modelLoadingProgress logEntries lastUpdateTime now trace
     fst snd after outcome].

(** C8.  [startSearch] asks the search service for the raw query when it
    has at most 2000 characters and for the first (at most) 20 extracted
    keywords otherwise, always with limit 30.  When that answer has no
    text results it asks exactly once more, for the first (at most) 10
    extracted keywords; otherwise it asks once.  When it returns, the
    answer it returns is stored, and the search state is "failed" exactly
    when that answer has no text results and "completed" exactly when it
    has some. *)
Theorem C8_startSearch (E : Env) (q : string) (s : Store) :
  let first20 := getKeywords E q (Some 20) in
  let first10 := getKeywords E q (Some 10) in
  let q1 := if 2000 <? Z.of_nat (String.length q)
            then Js.join " " first20 else q in
  let q2 := Js.join " " first10 in
  let s' := after (startSearch E q) s in
  (first20 = firstn 20 (extractKeywords E q) /\ (List.length first20 <= 20)%nat) /\
  (first10 = firstn 10 (extractKeywords E q) /\ (List.length first10 <= 10)%nat) /\
  (exists calls,
     searchCalls (trace s') = searchCalls (trace s) ++ (q1, 30) :: calls /\
     match search E 0 q1 30 with
     | Ok first =>
         match textResults first with
         | [] => calls = [(q2, 30)] /\
                 outcome (startSearch E q) s = search E 1 q2 30
         | _ :: _ => calls = [] /\ outcome (startSearch E q) s = Ok first
         end
     | Throw e => calls = [] /\ outcome (startSearch E q) s = Throw e
     end) /\
  (forall found, outcome (startSearch E q) s = Ok found ->
     searchResults s' = found /\
     (searchState s' = searchFailed <-> textResults found = []) /\
     (searchState s' = searchCompleted <-> textResults found <> [])).
Proof.
  intros first20 first10 q1 q2 s'.
  destruct (getKeywords_limit E q 20 ltac:(lia)) as [H20 L20].
  destruct (getKeywords_limit E q 10 ltac:(lia)) as [H10 L10].
  split; [split; [exact H20 | fold first20 in L20; lia]|].
  split; [split; [exact H10 | fold first10 in L10; lia]|].
  subst s'. unfold startSearch, startSearch_begin, startSearch_resume, searchCall.
  fold first20 first10. fold q1. fold q2. unfold after, outcome.
  destruct (search E 0 q1 30) as [first|e] eqn:H1; run_prims.
  - destruct (textResults first) as [|r rs] eqn:Hf; run_prims.
    + destruct (search E 1 q2 30) as [second|e] eqn:H2; run_prims.
      * destruct (textResults second) as [|r2 rs2] eqn:Hs; run_prims;
          (split;
           [ eexists; split;
             [ rewrite !searchCalls_app; cbn [searchCalls];
               rewrite <- ?app_assoc, ?app_nil_r; reflexivity
             | split; reflexivity ]
           | intros found Hfound; injection Hfound as <-; rewrite Hs;
             split; [reflexivity|]; split; split; congruence ]).
      * split.
        -- eexists. split;
             [ rewrite !searchCalls_app; cbn [searchCalls];
               rewrite <- ?app_assoc, ?app_nil_r; reflexivity
             | split; reflexivity ].
        -- intros found Hfound. discriminate.
    + rewrite Hf. split.
      * eexists. split;
          [ rewrite !searchCalls_app; cbn [searchCalls];
            rewrite <- ?app_assoc, ?app_nil_r; reflexivity
          | split; reflexivity ].
      * intros found Hfound. injection Hfound as <-. rewrite Hf.
        split; [reflexivity|]. split; split; congruence.
  - split.
    + eexists. split;
        [ rewrite !searchCalls_app; cbn [searchCalls];
          rewrite <- ?app_assoc, ?app_nil_r; reflexivity
        | split; reflexivity ].
    + intros found Hfound. discriminate.
Qed.

Lemma C8_startSearch_witness :
  searchState (after (startSearch (Samples.env "openai" 3 true Samples.hello) "cats")
                     Samples.store0) = searchCompleted.
Proof.
  destruct (C8_startSearch (Samples.env "openai" 3 true Samples.hello) "cats"
              Samples.store0) as [_ [_ [_ H]]].
  destruct (H Samples.results2 ltac:(reflexivity)) as [_ [_ H3]].
  apply H3. discriminate.
Defined.

(* ================================================================== *)
(** ** C3: the rate limit of the streamed response *)
(* ================================================================== *)

Lemma updateInterval_le (d : Z) :
  (updateInterval <= inject_Z d)%Q <-> 1000 <= 12 * d.
Proof. unfold updateInterval, Qle, inject_Z. cbn [Qnum Qden]. lia. Qed.

Lemma spaced_app a evs1 b evs2 c :
  spaced a evs1 b -> spaced b evs2 c -> spaced a (evs1 ++ evs2) c.
Proof.
  induction 1; intros H2; simpl; [assumption | |].
  - apply spaced_response; auto.
  - apply spaced_other; auto.
Qed.

#[global] Instance rateLimited_PreOrder : PreOrder rateLimited.
Proof.
  split.
  - intros s. exists []. rewrite app_nil_r. split; [reflexivity | constructor].
  - intros a b c [e1 [H1 S1]] [e2 [H2 S2]]. exists (e1 ++ e2).
    rewrite H2, H1, app_assoc. split; [reflexivity|].
    eapply spaced_app; eauto.
Qed.

Lemma updateResponseRateLimited_rateLimited text :
  respects rateLimited (updateResponseRateLimited text).
Proof.
  intros s. unfold updateResponseRateLimited. rewrite !bind_reads.
  destruct (Qle_bool updateInterval (inject_Z (now s - lastUpdateTime s))) eqn:Hq.
  - apply Qle_bool_iff in Hq. unfold updateResponse. run_prims.
    exists [EvResponse (now s) text]. split; [reflexivity|].
    apply spaced_response; [exact Hq | constructor].
  - reflexivity.
Qed.

Ltac rateLimited_leaf :=
  idtac; lazymatch goal with
  | |- respects _ (updateResponseRateLimited _) =>
      apply updateResponseRateLimited_rateLimited
  | |- _ =>
      on_primitive ltac:(idtac); intros ?s; first
        [ exists []; simpl; rewrite app_nil_r; split; [reflexivity | constructor]
        | eexists [_]; simpl; split;
          [reflexivity | apply spaced_other; [discriminate | constructor]] ]
  end.

Lemma spaced_first last evs last' :
  spaced last evs last' ->
  forall pre t text post,
    evs = pre ++ EvResponse t text :: post -> 1000 <= 12 * (t - last).
Proof.
  induction 1 as [last|last t0 text0 evs last' H0 H IH|last e evs last' He H IH];
    intros pre t text post Heq.
  - destruct pre; discriminate.
  - apply updateInterval_le in H0. destruct pre as [|p pre]; simpl in Heq.
    + injection Heq as -> _ _. exact H0.
    + injection Heq as _ Heq. specialize (IH _ _ _ _ Heq). lia.
  - destruct pre as [|p pre]; simpl in Heq.
    + injection Heq as -> _. exfalso. eapply He. reflexivity.
    + injection Heq as _ Heq. eauto.
Qed.

Lemma spaced_separated last evs last' :
  spaced last evs last' -> separated last evs.
Proof.
  intros H. split.
  - intros pre t text post Heq. apply updateInterval_le.
    eapply spaced_first; eauto.
  - induction H as [last|last t0 text0 evs last' H0 H IH|last e evs last' He H IH];
      intros pre t1 text1 mid t2 text2 post Heq.
    + destruct pre; discriminate.
    + destruct pre as [|p pre]; simpl in Heq.
      * injection Heq as -> _ Heq. apply updateInterval_le.
        eapply (spaced_first _ _ _ H mid). exact Heq.
      * injection Heq as _ Heq. eauto.
    + destruct pre as [|p pre]; simpl in Heq.
      * injection Heq as -> _. exfalso. eapply He. reflexivity.
      * injection Heq as _ Heq. eauto.
Qed.

Lemma spaced_chained last evs last' :
  spaced last evs last' -> chained last (responseTimes evs).
Proof.
  induction 1 as [last|last t text evs last' H0 H IH|last e evs last' He H IH];
    simpl.
  - exact I.
  - split; [apply updateInterval_le; exact H0 | exact IH].
  - destruct e; try exact IH. exfalso. eapply He. reflexivity.
Qed.

Lemma chained_updatesInSecond w times :
  forall prev,
    chained prev times ->
    Z.of_nat (updatesInSecond w times)
    <= if prev <? w then 12 else Z.max 0 ((w + 999 - prev) / 84).
Proof.
  unfold updatesInSecond.
  induction times as [|t rest IH]; intros prev Hc.
  - simpl. destruct (prev <? w); lia.
  - destruct Hc as [Hgap Hrest]. specialize (IH t Hrest). cbn [filter].
    assert (Hstep : t - prev >= 84) by lia.
    destruct (Z.leb_spec w t) as [Hwt|Hwt];
      destruct (Z.ltb_spec t (w + 1000)) as [Htw|Htw]; cbn [andb];
      destruct (Z.ltb_spec t w) as [Htw'|Htw']; try lia;
      destruct (Z.ltb_spec prev w) as [Hpw|Hpw]; try lia;
      cbn [List.length]; try rewrite Nat2Z.inj_succ;
      Z.div_mod_to_equations; lia.
Qed.

(** C3.  While a stream is consumed, whichever the backend, any two
    updates of the response forwarded to the UI are at least 1000/12
    milliseconds apart (by the clock the limiter reads), the first of them
    that far from the last update the limiter let through before; so no
    more than 12 of them fall into any one second. *)
Theorem C3_rate_limited_updates (E : Env) (s : Store) :
  (forall stream acc, exists evs,
     trace (after (streamOpenAI E stream acc) s) = trace s ++ evs /\
     separated (lastUpdateTime s) evs /\
     forall w, (updatesInSecond w (responseTimes evs) <= 12)%nat) /\
  (forall stream acc, exists evs,
     trace (after (streamWebLlm E stream acc) s) = trace s ++ evs /\
     separated (lastUpdateTime s) evs /\
     forall w, (updatesInSecond w (responseTimes evs) <= 12)%nat) /\
  (forall model stream acc, exists evs,
     trace (after (streamWllama E model stream acc) s) = trace s ++ evs /\
     separated (lastUpdateTime s) evs /\
     forall w, (updatesInSecond w (responseTimes evs) <= 12)%nat).
Proof.
  assert (Hfinish : forall (s' : Store),
            rateLimited s s' ->
            exists evs, trace s' = trace s ++ evs /\
              separated (lastUpdateTime s) evs /\
              forall w, (updatesInSecond w (responseTimes evs) <= 12)%nat).
  { intros s' [evs [Ht Hs]]. exists evs. split; [exact Ht|]. split.
    - eapply spaced_separated; eauto.
    - intros w.
      pose proof (chained_updatesInSecond w _ _ (spaced_chained _ _ _ Hs)) as H.
      destruct (Z.ltb_spec (lastUpdateTime s) w) as [Hlt|Hge]; [lia|].
      assert ((w + 999 - lastUpdateTime s) / 84 <= 11)
        by (Z.div_mod_to_equations; lia).
      lia. }
  split; [|split]; intros.
  - apply Hfinish.
    assert (H : respects rateLimited (streamOpenAI E stream acc))
      by (unfold streamOpenAI; respects_with rateLimited_leaf).
    apply H.
  - apply Hfinish.
    assert (H : respects rateLimited (streamWebLlm E stream acc))
      by (unfold streamWebLlm; respects_with rateLimited_leaf).
    apply H.
  - apply Hfinish.
    assert (H : respects rateLimited (streamWllama E model stream acc))
      by (unfold streamWllama; respects_with rateLimited_leaf).
    apply H.
Qed.

(* ================================================================== *)
(** ** Following a run step by step *)
(* ================================================================== *)

Section Inversion.
Variable E : Env.

Lemma bind_Ok {A B} (m : M A) (k : A -> M B) s b s' :
  bind m k s = (Ok b, s') ->
  exists a s1, m s = (Ok a, s1) /\ k a s1 = (Ok b, s').
Proof.
  unfold bind. destruct (m s) as [[a|e] s1]; intros H; [eauto | discriminate].
Qed.

Lemma bind_Throw {A B} (m : M A) (k : A -> M B) s e s' :
  bind m k s = (Throw e, s') ->
  m s = (Throw e, s') \/ exists a s1, m s = (Ok a, s1) /\ k a s1 = (Throw e, s').
Proof.
  unfold bind. destruct (m s) as [[a|e0] s1]; intros H; [right; eauto | left].
  injection H as -> ->. reflexivity.
Qed.

Lemma await_Ok {A} (r : Result A) s a s' :
  await E r s = (Ok a, s') -> r = Ok a /\ s' = snd (suspend E s).
Proof.
  unfold await. intros H. apply bind_Ok in H. destruct H as [[] [s1 [H1 H2]]].
  unfold liftResult in H2. injection H2 as -> ->. rewrite H1. auto.
Qed.

Lemma run_eta {A} (m : M A) s : m s = (fst (m s), snd (m s)).
Proof. destruct (m s); reflexivity. Qed.

Lemma noThrow_run (m : M unit) s : noThrow m -> m s = (Ok tt, snd (m s)).
Proof.
  intros H. destruct (H s) as [[] Ha]. rewrite (run_eta m s), Ha. reflexivity.
Qed.

(** The value a streaming loop returns is the fold of what its handler
    returns. *)
Lemma forAwait_value {T} (body : string -> T -> M string)
      (f : string -> T -> string) :
  (forall acc t s, fst (body acc t s) = Ok (f acc t)) ->
  forall items acc s,
    fst (forAwait E body items acc s)
    = Ok (fold_left f (map payload items) acc).
Proof.
  intros Hb. induction items as [|a rest IH]; intros acc s; simpl; [reflexivity|].
  rewrite bind_unit_ok by apply receive_noThrow.
  unfold bind at 1. specialize (Hb acc (payload a) (snd (receive E a s))).
  destruct (body acc (payload a) (snd (receive E a s))) as [r s1].
  simpl in Hb. subst r. apply IH.
Qed.

Lemma openAiOnChunk_value acc d s :
  fst (openAiOnChunk acc d s) = Ok (appendDelta acc d).
Proof.
  unfold openAiOnChunk. cbv zeta.
  rewrite bind_unit_ok by noThrow_tac.
  unfold getTextGenerationState at 1. rewrite bind_reads.
  rewrite bind_unit_ok by noThrow_tac.
  rewrite bind_unit_ok by noThrow_tac.
  reflexivity.
Qed.

Lemma webLlmOnChunk_value acc d s :
  fst (webLlmOnChunk E acc d s) = Ok (appendDelta acc d).
Proof.
  unfold webLlmOnChunk. cbv zeta.
  rewrite bind_unit_ok by noThrow_tac.
  unfold getTextGenerationState at 1. rewrite bind_reads.
  rewrite bind_unit_ok by noThrow_tac.
  rewrite bind_unit_ok by noThrow_tac.
  reflexivity.
Qed.

Lemma consume_Ok {T} (body : string -> T -> M string) f stream acc s v s' :
  (forall acc t s, fst (body acc t s) = Ok (f acc t)) ->
  consume E body stream acc s = (Ok v, s') ->
  v = fold_left f (map payload (arrivals stream)) acc /\ failure stream = None.
Proof.
  intros Hb H. unfold consume in H.
  apply bind_Ok in H. destruct H as [v' [s1 [H1 H2]]].
  pose proof (forAwait_value body f Hb (arrivals stream) acc s) as Hv.
  rewrite H1 in Hv. simpl in Hv. injection Hv as ->.
  rewrite bind_unit_ok in H2 by apply suspend_noThrow.
  destruct (failure stream); [discriminate|].
  injection H2 as <- _. auto.
Qed.

End Inversion.

(* ================================================================== *)
(** ** C7: the final response is the concatenation of the deltas *)
(* ================================================================== *)

Lemma append_empty_r (a : string) : (a ++ "")%string = a.
Proof. induction a as [|c a IH]; simpl; [reflexivity | rewrite IH; reflexivity]. Qed.

Lemma append_assoc_string (a b c : string) :
  ((a ++ b) ++ c)%string = (a ++ (b ++ c))%string.
Proof. induction a as [|x a IH]; simpl; [reflexivity | rewrite IH; reflexivity]. Qed.

Lemma concat_empty_cons (x : string) (xs : list string) :
  String.concat "" (x :: xs) = (x ++ String.concat "" xs)%string.
Proof.
  destruct xs as [|y ys]; simpl; [rewrite append_empty_r; reflexivity | reflexivity].
Qed.

Lemma fold_appendDelta (chunks : list (option string)) (acc : string) :
  fold_left appendDelta chunks acc = (acc ++ concatNonEmptyDeltas chunks)%string.
Proof.
  revert acc. induction chunks as [|d rest IH]; intros acc.
  - simpl. unfold concatNonEmptyDeltas. simpl. rewrite append_empty_r. reflexivity.
  - simpl fold_left. rewrite IH. unfold concatNonEmptyDeltas.
    destruct d as [[|c r]|]; simpl nonEmptyDeltas; simpl appendDelta;
      try reflexivity.
    change ([String c r] ++ nonEmptyDeltas rest)
      with (String c r :: nonEmptyDeltas rest).
    rewrite concat_empty_cons, append_assoc_string. reflexivity.
Qed.

(** C7.  When [generateTextWithOpenAI] returns normally, the completion
    call was answered with a stream, and the response it leaves in the
    store, which is also the last response update it published, is the
    concatenation in stream order of the non-empty delta contents of the
    chunks of that stream.  The same holds of [generateTextWithWebLlm]
    (with AI responses enabled). *)
Theorem C7_final_response_is_concatenation (E : Env) (s s' : Store) :
  (generateTextWithOpenAI E s = (Ok tt, s') ->
   exists messages stream,
     openAiCreate E messages = Ok stream /\
     In (EvCompletion OpenAI (ChatRequest messages)) (trace s') /\
     response s' = concatNonEmptyDeltas (map payload (arrivals stream)) /\
     finalResponse (trace s') (response s')) /\
  (enableAiResponse (getSettings E) = true ->
   generateTextWithWebLlm E s = (Ok tt, s') ->
   exists messages stream,
     webLlmCreate E messages = Ok stream /\
     In (EvCompletion WebLlm (ChatRequest messages)) (trace s') /\
     response s' = concatNonEmptyDeltas (map payload (arrivals stream)) /\
     finalResponse (trace s') (response s')).
Proof.
  assert (Hgrow_suspend : respects (keeping response notResponse) (suspend E))
    by respects_with keeping_leaf.
  split.
  - intros H. unfold generateTextWithOpenAI in H.
    rewrite bind_unit_ok in H by noThrow_tac.
    apply bind_Ok in H. destruct H as [[] [s1 [_ H]]].
    rewrite bind_unit_ok in H by noThrow_tac.
    rewrite bind_unit_ok in H by noThrow_tac.
    rewrite bind_reads in H.
    set (s2 := snd (untilUiIsUpdated E _)) in H.
    set (messages := chatMessages E s2) in H.
    rewrite bind_unit_ok in H by noThrow_tac.
    apply bind_Ok in H. destruct H as [stream [s3 [Hc H]]].
    pose proof Hc as Hc'. apply await_Ok in Hc'. destruct Hc' as [Hc' _].
    apply bind_Ok in H. destruct H as [text [s4 [Hl H]]].
    pose proof Hl as Hl'.
    apply (consume_Ok E _ appendDelta) in Hl'; [|apply openAiOnChunk_value].
    destruct Hl' as [Htext _]. rewrite fold_appendDelta in Htext. simpl in Htext.
    exists messages, stream. split; [exact Hc'|].
    assert (Hin : In (EvCompletion OpenAI (ChatRequest messages)) (trace s4)).
    { eapply (extendsBy_In (fun _ => True)).
      - eapply respects_run; [|exact Hl]. respects_with extendsBy_leaf.
      - eapply (extendsBy_In (fun _ => True)).
        + eapply respects_run; [|exact Hc]. respects_with extendsBy_leaf.
        + simpl. apply in_or_app. right. left. reflexivity. }
    unfold updateResponse in H. injection H as <-. cbn [trace response].
    split; [|split].
    + apply in_or_app. left. exact Hin.
    + exact Htext.
    + exists (trace s4), (now s4), []. split; [reflexivity | constructor].
  - intros Hen H. unfold generateTextWithWebLlm in H. cbv zeta in H.
    rewrite Hen in H.
    rewrite bind_unit_ok in H by noThrow_tac.
    rewrite bind_unit_ok in H by noThrow_tac.
    apply bind_Ok in H. destruct H as [cached [s1 [_ H]]].
    rewrite bind_unit_ok in H by (destruct cached; noThrow_tac).
    rewrite bind_unit_ok in H by noThrow_tac.
    rewrite bind_unit_ok in H by (destruct cached; noThrow_tac).
    apply bind_Ok in H. destruct H as [[] [s2 [_ H]]].
    apply bind_Ok in H. destruct H as [[] [s6 [Hblock H]]].
    apply bind_Ok in H. destruct H as [stats [s7 [Hstats H]]].
    (* the response block *)
    apply bind_Ok in Hblock. destruct Hblock as [[] [s3 [_ Hblock]]].
    rewrite bind_unit_ok in Hblock by noThrow_tac.
    rewrite bind_unit_ok in Hblock by noThrow_tac.
    rewrite bind_reads in Hblock.
    set (s4 := snd (untilUiIsUpdated E _)) in Hblock.
    set (messages := chatMessages E s4) in Hblock.
    rewrite bind_unit_ok in Hblock by noThrow_tac.
    apply bind_Ok in Hblock. destruct Hblock as [stream [s5 [Hc Hblock]]].
    pose proof Hc as Hc'. apply await_Ok in Hc'. destruct Hc' as [Hc' _].
    apply bind_Ok in Hblock. destruct Hblock as [text [s5' [Hl Hblock]]].
    pose proof Hl as Hl'.
    apply (consume_Ok E _ appendDelta) in Hl'; [|apply webLlmOnChunk_value].
    destruct Hl' as [Htext _]. rewrite fold_appendDelta in Htext. simpl in Htext.
    exists messages, stream. split; [exact Hc'|].
    assert (Hin : In (EvCompletion WebLlm (ChatRequest messages)) (trace s5')).
    { eapply (extendsBy_In (fun _ => True)).
      - eapply respects_run; [|exact Hl]. respects_with extendsBy_leaf.
      - eapply (extendsBy_In (fun _ => True)).
        + eapply respects_run; [|exact Hc]. respects_with extendsBy_leaf.
        + simpl. apply in_or_app. right. left. reflexivity. }
    unfold updateResponse in Hblock. injection Hblock as Hs6.
    (* what follows the last update *)
    apply await_Ok in Hstats. destruct Hstats as [_ Hs7].
    destruct (Hgrow_suspend s6) as [Hr [post [Hpost Fpost]]].
    rewrite <- Hs7 in Hr, Hpost.
    unfold addLogEntry in H. injection H as <-. cbn [trace response].
    rewrite Hr, Hpost, <- Hs6. cbn [trace response].
    split; [|split].
    + apply in_or_app. left. apply in_or_app. left. exact Hin.
    + exact Htext.
    + exists (trace s5'), (now s5'), post. rewrite <- app_assoc.
      split; [reflexivity | exact Fpost].
Qed.


Lemma C7_final_response_is_concatenation_witness :
  response (after (generateTextWithOpenAI
                     (Samples.env "openai" 3 true Samples.hello)) Samples.store0)
  = "Hello"%string /\
  response (after (generateTextWithWebLlm
                     (Samples.env "browser" 3 true Samples.hello)) Samples.store0)
  = "Hello"%string.
Proof.
  split.
  - destruct (proj1 (C7_final_response_is_concatenation
                (Samples.env "openai" 3 true Samples.hello) Samples.store0
                (after (generateTextWithOpenAI
                          (Samples.env "openai" 3 true Samples.hello))
                       Samples.store0)) ltac:(vm_compute; reflexivity))
      as [messages [stream [Hc [_ [Hr _]]]]].
    injection Hc as <-. rewrite Hr. vm_compute. reflexivity.
  - destruct (proj2 (C7_final_response_is_concatenation
                (Samples.env "browser" 3 true Samples.hello) Samples.store0
                (after (generateTextWithWebLlm
                          (Samples.env "browser" 3 true Samples.hello))
                       Samples.store0))
                ltac:(vm_compute; reflexivity) ltac:(vm_compute; reflexivity))
      as [messages [stream [Hc [_ [Hr _]]]]].
    injection Hc as <-. rewrite Hr. vm_compute. reflexivity.
Defined.

(* ================================================================== *)
(** ** C2: cooperative cancellation at the token poll points *)
(* ================================================================== *)

Lemma pollRun_app st a b :
  pollRun st (a ++ b) =
  match pollRun st a with Some st' => pollRun st' b | None => None end.
Proof.
  revert st. induction a as [|e a IH]; intros st; simpl; [reflexivity|].
  destruct (pollStep st e); [apply IH | reflexivity].
Qed.

Lemma pollsTo_trans m0 m1 m2 a b c :
  pollsTo m0 m1 a b -> pollsTo m1 m2 b c -> pollsTo m0 m2 a c.
Proof.
  intros [e1 [H1 R1]] [e2 [H2 R2]].
  exists (e1 ++ e2). rewrite H2, H1, app_assoc. split; [reflexivity|].
  rewrite pollRun_app, R1. exact R2.
Qed.

Lemma pollsTo_refl m s : pollsTo m m s s.
Proof. exists []. rewrite app_nil_r. split; reflexivity. Qed.

Lemma pollsTo_polled m0 m1 a b c :
  pollsTo m0 m1 a b -> settled m1 -> polled b c -> polledFrom m0 a c.
Proof.
  intros H01 S1 Hbc. destruct (Hbc m1 S1) as [m2 [H12 S2]].
  exists m2. split; [eapply pollsTo_trans; eauto | exact S2].
Qed.

Lemma polledFrom_trans m0 a b c :
  polledFrom m0 a b -> polled b c -> polledFrom m0 a c.
Proof. intros [m1 [H S]] Hbc. eapply pollsTo_polled; eauto. Qed.

#[global] Instance polled_PreOrder : PreOrder polled.
Proof.
  split.
  - intros s m0 Hm0. exists m0. split; [apply pollsTo_refl | exact Hm0].
  - intros a b c Hab Hbc m0 Hm0. eapply polledFrom_trans; eauto.
Qed.

Lemma updateTextGenerationState_polled st :
  respects polled (updateTextGenerationState st).
Proof.
  intros s m0 Hm0. exists m0. split; [|exact Hm0].
  exists [EvTextGenerationState st]. split; [reflexivity|].
  destruct m0; simpl in *; tauto.
Qed.

Lemma userInterrupts_polled : respects polled userInterrupts.
Proof.
  intros s m0 Hm0. exists Outside. split; [|exact I].
  exists [EvInterrupt]. split; [reflexivity|].
  destruct m0; simpl in *; tauto.
Qed.

Ltac polled_primitive :=
  on_primitive ltac:(idtac); intros ?s ?m0 ?Hm0; first
    [ exists m0; split; [|assumption];
      exists []; simpl; rewrite app_nil_r; split; reflexivity
    | exists Outside; split; [|exact I];
      eexists [_]; split; [reflexivity|];
      destruct m0; simpl in *; solve [tauto] ].

Ltac polled_basic :=
  idtac; lazymatch goal with
  | |- respects _ (updateTextGenerationState _) =>
      apply updateTextGenerationState_polled
  | |- respects _ userInterrupts => apply userInterrupts_polled
  | |- _ => polled_primitive
  end.

Lemma updateResponseRateLimited_polled text :
  respects polled (updateResponseRateLimited text).
Proof. respects_with polled_basic. Qed.

Lemma suspend_polled E : respects polled (suspend E).
Proof. respects_with polled_basic. Qed.

Lemma snd_bind_ret {A} (m : M unit) (a : A) s :
  snd ((m ;; ret a) s) = snd (m s).
Proof. unfold bind. destruct (m s) as [[[]|e] s1]; reflexivity. Qed.

Lemma pollCheck_pollsTo b m0 s :
  settled m0 ->
  pollsTo m0 (Handling b) s (snd (pollCheck b (emit (EvAbort b)) s)).
Proof.
  intros Hm0. unfold pollCheck.
  rewrite bind_unit_ok by noThrow_tac.
  unfold getTextGenerationState. rewrite bind_reads.
  cbn [emit snd textGenerationState].
  destruct (tgs_eqb_spec (textGenerationState s) interrupted) as [Hi|Hi].
  - exists [EvToken b; EvAbort b]. cbn. rewrite <- app_assoc.
    split; [reflexivity|]. rewrite Hi.
    destruct m0, b; simpl in *; tauto.
  - rewrite bind_reads. cbn [textGenerationState].
    destruct (tgs_eqb_spec (textGenerationState s) generating) as [Hg|Hg];
      cbn [negb].
    + exists [EvToken b]. cbn. split; [reflexivity|].
      rewrite Hg. destruct m0; simpl in *; tauto.
    + exists [EvToken b; EvTextGenerationState generating]. cbn.
      rewrite <- app_assoc. split; [reflexivity|].
      destruct m0; cbn in *; try tauto;
        destruct (tgs_eqb_spec (textGenerationState s) interrupted);
        try contradiction; auto.
Qed.

Lemma openAiOnChunk_polled acc d : respects polled (openAiOnChunk acc d).
Proof.
  intros s m0 Hm0.
  change (openAiOnChunk acc d)
    with (pollCheck OpenAI (emit (EvAbort OpenAI)) ;;
          updateResponseRateLimited (appendDelta acc d) ;;
          ret (appendDelta acc d)).
  rewrite bind_unit_ok by (unfold pollCheck; noThrow_tac).
  rewrite snd_bind_ret.
  eapply pollsTo_polled;
    [apply pollCheck_pollsTo; exact Hm0 | exact I
    | apply updateResponseRateLimited_polled].
Qed.

Lemma bind_noThrow {A B} (m : M A) (k : A -> M B) s :
  noThrow m -> exists a, fst (m s) = Ok a /\ bind m k s = k a (snd (m s)).
Proof.
  intros H. destruct (H s) as [a Ha]. exists a. split; [exact Ha|].
  unfold bind. destruct (m s) as [[a'|e] s1]; simpl in *; [|discriminate].
  injection Ha as ->. reflexivity.
Qed.

Lemma webLlmOnChunk_polled E acc d : respects polled (webLlmOnChunk E acc d).
Proof.
  intros s m0 Hm0.
  change (webLlmOnChunk E acc d)
    with (pollCheck WebLlm (emit (EvAbort WebLlm) ;; suspend E) ;;
          updateResponseRateLimited (appendDelta acc d) ;;
          ret (appendDelta acc d)).
  rewrite bind_unit_ok by (unfold pollCheck; noThrow_tac).
  rewrite snd_bind_ret.
  eapply polledFrom_trans; [|apply updateResponseRateLimited_polled].
  unfold pollCheck.
  rewrite bind_unit_ok by noThrow_tac.
  unfold getTextGenerationState. rewrite bind_reads.
  cbn [emit snd textGenerationState].
  destruct (tgs_eqb_spec (textGenerationState s) interrupted) as [Hi|Hi].
  - rewrite bind_unit_ok by noThrow_tac.
    eapply pollsTo_polled with (m1 := Handling WebLlm);
      [|exact I|apply suspend_polled].
    exists [EvToken WebLlm; EvAbort WebLlm]. cbn. rewrite <- app_assoc.
    split; [reflexivity|]. rewrite Hi. destruct m0; simpl in *; tauto.
  - rewrite bind_reads. cbn [textGenerationState].
    exists (Handling WebLlm). split; [|exact I].
    destruct (tgs_eqb_spec (textGenerationState s) generating) as [Hg|Hg];
      cbn [negb].
    + exists [EvToken WebLlm]. cbn. split; [reflexivity|].
      rewrite Hg. destruct m0; simpl in *; tauto.
    + exists [EvToken WebLlm; EvTextGenerationState generating]. cbn.
      rewrite <- app_assoc. split; [reflexivity|].
      destruct m0; cbn in *; try tauto;
        destruct (tgs_eqb_spec (textGenerationState s) interrupted);
        try contradiction; auto.
Qed.

(** Inside the Wllama handler the stop-string cut may abort once more. *)
Lemma cutAtStopString_pollsTo stops text s :
  pollsTo (Handling Wllama) (Handling Wllama) s
          (snd (cutAtStopString stops text s)).
Proof.
  induction stops as [|stop rest IH]; simpl.
  - apply pollsTo_refl.
  - destruct (Js.includes _ _); [|exact IH].
    exists [EvAbort Wllama]. split; reflexivity.
Qed.

Lemma onNewToken_polled model acc t : respects polled (onNewToken model acc t).
Proof.
  intros s m0 Hm0.
  change (onNewToken model acc t)
    with (pollCheck Wllama (emit (EvAbort Wllama)) ;;
          currentText <-
            (match stopStrings model with
             | Some stops => cutAtStopString stops t
             | None => ret t
             end) ;;
          updateResponseRateLimited currentText ;;
          ret currentText).
  rewrite bind_unit_ok by (unfold pollCheck; noThrow_tac).
  pose proof (pollCheck_pollsTo Wllama m0 s Hm0) as H1.
  set (s1 := snd (pollCheck Wllama (emit (EvAbort Wllama)) s)) in *.
  destruct (bind_noThrow
              (match stopStrings model with
               | Some stops => cutAtStopString stops t
               | None => ret t
               end)
              (fun currentText =>
                 updateResponseRateLimited currentText ;; ret currentText) s1)
    as [text [_ Hrun]]; [destruct (stopStrings model); noThrow_tac|].
  rewrite Hrun. rewrite snd_bind_ret.
  eapply pollsTo_polled with (m1 := Handling Wllama);
    [|exact I|apply updateResponseRateLimited_polled].
  eapply pollsTo_trans; [exact H1|].
  destruct (stopStrings model) as [stops|].
  - apply cutAtStopString_pollsTo.
  - apply pollsTo_refl.
Qed.

Ltac polled_leaf :=
  idtac; lazymatch goal with
  | |- respects _ (openAiOnChunk _ _) => apply openAiOnChunk_polled
  | |- respects _ (webLlmOnChunk _ _ _) => apply webLlmOnChunk_polled
  | |- respects _ (onNewToken _ _ _) => apply onNewToken_polled
  | |- _ => polled_basic
  end.

Lemma prepareTextGeneration_polled E : respects polled (prepareTextGeneration E).
Proof. respects_with polled_leaf. Qed.

Lemma tokensOf_app a b : tokensOf (a ++ b) = tokensOf a ++ tokensOf b.
Proof.
  induction a as [|e a IH]; simpl; [reflexivity|].
  destruct e; simpl; rewrite ?IH; reflexivity.
Qed.

Lemma tokensOf_none evs : Forall notToken evs -> tokensOf evs = [].
Proof.
  induction 1 as [|e evs He _ IH]; simpl; [reflexivity|].
  destruct e; simpl in *; tauto.
Qed.

(** A loop hands every delivered item to its handler: one token event
    for each. *)
Lemma forAwait_tokens E {T} (body : string -> T -> M string) b :
  (forall acc t, noThrow (body acc t)) ->
  (forall acc t s, adds tokensOf (body acc t) s [b]) ->
  forall items acc s,
    adds tokensOf (forAwait E body items acc) s (repeat b (List.length items)).
Proof.
  intros Hn Hb. induction items as [|a rest IH]; intros acc s; simpl.
  - unfold adds. simpl. rewrite app_nil_r. reflexivity.
  - apply (adds_head tokensOf notToken tokensOf_app tokensOf_none);
      [apply receive_noThrow | respects_with extendsBy_leaf |].
    destruct (bind_noThrow (body acc (payload a))
                (fun acc' => forAwait E body rest acc')
                (snd (receive E a s)) (Hn _ _)) as [acc' [Hv _]].
    change (b :: repeat b (List.length rest))
      with ([b] ++ repeat b (List.length rest)).
    eapply (adds_then tokensOf); [exact Hv | apply Hb | apply IH].
Qed.

Section PollPoints.
Variable E : Env.

Lemma pollCheck_interrupted b abort s :
  textGenerationState s = interrupted ->
  pollCheck b abort s = abort (snd (emit (EvToken b) s)).
Proof.
  intros Hi. unfold pollCheck. rewrite bind_unit_ok by noThrow_tac.
  unfold getTextGenerationState. rewrite bind_reads.
  cbn [emit snd textGenerationState]. rewrite Hi. reflexivity.
Qed.

Lemma grows_after {A} (m : M A) s :
  respects (extendsBy (fun _ => True)) m ->
  exists evs, trace (snd (m s)) = trace s ++ evs.
Proof. intros H. destruct (H s) as [evs [Ht _]]. eauto. Qed.

Lemma openAiOnChunk_aborts acc d s :
  textGenerationState s = interrupted ->
  exists evs, trace (after (openAiOnChunk acc d) s)
              = trace s ++ EvToken OpenAI :: EvAbort OpenAI :: evs.
Proof.
  intros Hi. unfold after.
  change (openAiOnChunk acc d)
    with (pollCheck OpenAI (emit (EvAbort OpenAI)) ;;
          updateResponseRateLimited (appendDelta acc d) ;;
          ret (appendDelta acc d)).
  rewrite bind_unit_ok by (unfold pollCheck; noThrow_tac).
  rewrite snd_bind_ret, pollCheck_interrupted by exact Hi.
  destruct (grows_after (updateResponseRateLimited (appendDelta acc d))
              (snd (emit (EvAbort OpenAI) (snd (emit (EvToken OpenAI) s)))))
    as [evs Hevs]; [respects_with extendsBy_leaf|].
  exists evs. rewrite Hevs. cbn [emit snd trace]. rewrite <- !app_assoc.
  reflexivity.
Qed.

Lemma webLlmOnChunk_aborts acc d s :
  textGenerationState s = interrupted ->
  exists evs, trace (after (webLlmOnChunk E acc d) s)
              = trace s ++ EvToken WebLlm :: EvAbort WebLlm :: evs.
Proof.
  intros Hi. unfold after.
  change (webLlmOnChunk E acc d)
    with (pollCheck WebLlm (emit (EvAbort WebLlm) ;; suspend E) ;;
          updateResponseRateLimited (appendDelta acc d) ;;
          ret (appendDelta acc d)).
  rewrite bind_unit_ok by (unfold pollCheck; noThrow_tac).
  rewrite snd_bind_ret, pollCheck_interrupted by exact Hi.
  rewrite bind_unit_ok by noThrow_tac.
  destruct (grows_after (suspend E)
              (snd (emit (EvAbort WebLlm) (snd (emit (EvToken WebLlm) s)))))
    as [evs1 Hevs1]; [respects_with extendsBy_leaf|].
  destruct (grows_after (updateResponseRateLimited (appendDelta acc d))
              (snd (suspend E
                 (snd (emit (EvAbort WebLlm) (snd (emit (EvToken WebLlm) s)))))))
    as [evs2 Hevs2]; [respects_with extendsBy_leaf|].
  exists (evs1 ++ evs2). rewrite Hevs2, Hevs1. cbn [emit snd trace].
  rewrite <- !app_assoc. reflexivity.
Qed.

Lemma onNewToken_aborts model acc t s :
  textGenerationState s = interrupted ->
  exists evs, trace (after (onNewToken model acc t) s)
              = trace s ++ EvToken Wllama :: EvAbort Wllama :: evs.
Proof.
  intros Hi. unfold after.
  change (onNewToken model acc t)
    with (pollCheck Wllama (emit (EvAbort Wllama)) ;;
          (currentText <-
            (match stopStrings model with
             | Some stops => cutAtStopString stops t
             | None => ret t
             end) ;;
          updateResponseRateLimited currentText ;;
          ret currentText)).
  rewrite bind_unit_ok by (unfold pollCheck; noThrow_tac).
  rewrite pollCheck_interrupted by exact Hi.
  match goal with |- context [bind ?m ?k ?st] =>
    destruct (grows_after (bind m k) st) as [evs Hevs];
      [respects_with extendsBy_leaf|]
  end.
  exists evs. rewrite Hevs. cbn [emit snd trace]. rewrite <- !app_assoc.
  reflexivity.
Qed.

Lemma polled_discipline {A} (m : M A) s :
  respects polled m ->
  exists evs, trace (after m s) = trace s ++ evs /\
              pollDiscipline (textGenerationState s) evs.
Proof.
  intros H. destruct (H s Outside I) as [m1 [[evs [Ht Hr]] Hs]].
  exists evs. split; [exact Ht|]. exists (textGenerationState (snd (m s))), m1.
  auto.
Qed.

End PollPoints.

(** C2.  (1) The handler of a streamed token, of whichever backend,
    finds the state "interrupted" and at once calls that backend's abort:
    the abort event follows the token event.  (2) Each streaming loop runs
    its handler, and with it the check, once for every item the stream
    delivers.  (3) In every run of [prepareTextGeneration] and of the
    three backends the trace keeps the poll discipline: an abort occurs
    only inside the handler of a token of the same backend, and a token
    that arrives while the state is "interrupted" is followed by the
    abort. *)
Theorem C2_cancellation_at_poll_points (E : Env) (s : Store) :
  (textGenerationState s = interrupted ->
   (forall acc d, exists evs,
      trace (after (openAiOnChunk acc d) s)
      = trace s ++ EvToken OpenAI :: EvAbort OpenAI :: evs) /\
   (forall acc d, exists evs,
      trace (after (webLlmOnChunk E acc d) s)
      = trace s ++ EvToken WebLlm :: EvAbort WebLlm :: evs) /\
   (forall model acc t, exists evs,
      trace (after (onNewToken model acc t) s)
      = trace s ++ EvToken Wllama :: EvAbort Wllama :: evs)) /\
  ((forall items acc,
      tokensOf (trace (after (forAwait E openAiOnChunk items acc) s))
      = tokensOf (trace s) ++ repeat OpenAI (List.length items)) /\
   (forall items acc,
      tokensOf (trace (after (forAwait E (webLlmOnChunk E) items acc) s))
      = tokensOf (trace s) ++ repeat WebLlm (List.length items)) /\
   (forall model items acc,
      tokensOf (trace (after (forAwait E (onNewToken model) items acc) s))
      = tokensOf (trace s) ++ repeat Wllama (List.length items))) /\
  ((exists evs, trace (after (prepareTextGeneration E) s) = trace s ++ evs /\
                pollDiscipline (textGenerationState s) evs) /\
   (exists evs, trace (after (generateTextWithOpenAI E) s) = trace s ++ evs /\
                pollDiscipline (textGenerationState s) evs) /\
   (exists evs, trace (after (generateTextWithWebLlm E) s) = trace s ++ evs /\
                pollDiscipline (textGenerationState s) evs) /\
   (exists evs, trace (after (generateTextWithWllama E) s) = trace s ++ evs /\
                pollDiscipline (textGenerationState s) evs)).
Proof.
  split; [|split].
  - intros Hi. split; [|split]; intros.
    + apply openAiOnChunk_aborts; assumption.
    + apply webLlmOnChunk_aborts; assumption.
    + apply onNewToken_aborts; assumption.
  - pose proof tokensOf_app as Happ. pose proof tokensOf_none as Hnone.
    split; [|split]; intros.
    + apply forAwait_tokens; [apply openAiOnChunk_noThrow|].
      intros acc0 t0 s0. unfold openAiOnChunk.
      apply (adds_emit tokensOf notToken Happ Hnone (EvToken OpenAI)).
      respects_with extendsBy_leaf.
    + apply forAwait_tokens; [apply webLlmOnChunk_noThrow|].
      intros acc0 t0 s0. unfold webLlmOnChunk.
      apply (adds_emit tokensOf notToken Happ Hnone (EvToken WebLlm)).
      respects_with extendsBy_leaf.
    + apply forAwait_tokens; [apply onNewToken_noThrow|].
      intros acc0 t0 s0. unfold onNewToken.
      apply (adds_emit tokensOf notToken Happ Hnone (EvToken Wllama)).
      respects_with extendsBy_leaf.
  - split; [|split; [|split]]; apply polled_discipline;
      respects_with polled_leaf.
Qed.

Lemma C2_cancellation_at_poll_points_witness :
  exists evs,
    trace (after (openAiOnChunk "Hel" (Some "lo"%string))
                 (mkStore "" emptySearchResults searchIdle interrupted NoPromise
                          "" 0 [] 0 500 []))
    = [] ++ EvToken OpenAI :: EvAbort OpenAI :: evs.
Proof.
  apply (proj1 (proj1 (C2_cancellation_at_poll_points
                         (Samples.plain "cats" true)
                         (mkStore "" emptySearchResults searchIdle interrupted
                                  NoPromise "" 0 [] 0 500 []))
                 ltac:(reflexivity))).
Defined.

(* ================================================================== *)
(** ** C6: generation is sequenced after the search *)
(* ================================================================== *)

Lemma completionsOf_app a b :
  completionsOf (a ++ b) = completionsOf a ++ completionsOf b.
Proof.
  induction a as [|e a IH]; simpl; [reflexivity|].
  destruct e; simpl; rewrite ?IH; reflexivity.
Qed.

Lemma completionsOf_none evs : Forall notCompletion evs -> completionsOf evs = [].
Proof.
  induction 1 as [|e evs He _ IH]; simpl; [reflexivity|].
  destruct e; simpl in *; tauto.
Qed.

Section Sequencing.
Variable E : Env.

Lemma bind_run_ok {A B} (m : M A) (k : A -> M B) s a s1 :
  m s = (Ok a, s1) -> bind m k s = k a s1.
Proof. intros H. unfold bind. rewrite H. reflexivity. Qed.

Lemma bind_run_throw {A B} (m : M A) (k : A -> M B) s e s1 :
  m s = (Throw e, s1) -> bind m k s = (Throw e, s1).
Proof. intros H. unfold bind. rewrite H. reflexivity. Qed.

Lemma settleSearch_settles s :
  ~ isPending (searchPromise (snd (settleSearch E s))).
Proof.
  unfold settleSearch. rewrite bind_reads.
  destruct (searchPromise s) as [|q n|r|e] eqn:Hp;
    try (cbn [ret snd]; rewrite Hp; simpl; tauto).
  unfold tryCatch, bind.
  destruct (startSearch_resume E q s) as [[r|e] s1]; simpl; tauto.
Qed.

Lemma suspend_settled s :
  ~ isPending (searchPromise s) -> suspend E s = (Ok tt, s).
Proof.
  intros H. unfold suspend. rewrite bind_reads.
  destruct (searchPromise s); simpl in H; try reflexivity. tauto.
Qed.

(** A pending search that still has time is not settled by one more
    suspension of the routine. *)
Lemma suspend_pending s q n :
  searchPromise s = Pending q (S n) ->
  suspend E s = writeSearchPromise (Pending q n) s.
Proof. intros H. unfold suspend. rewrite bind_reads, H. reflexivity. Qed.

Lemma canStartResponding_waits s r s1 :
  0 < searchResultsToConsider (getSettings E) ->
  canStartResponding E s = (r, s1) ->
  (exists evs,
     trace s1 = trace s ++ EvTextGenerationState awaitingSearchResults :: evs) /\
  match r with
  | Ok _ => ~ isPending (searchPromise s1) /\
            exists evs, trace s1 = evs ++ [EvSearchAwaited]
  | Throw e => searchPromise s1 = Rejected e
  end.
Proof.
  intros HN H. unfold canStartResponding in H.
  destruct (Z.ltb_spec 0 (searchResultsToConsider (getSettings E))) as [_|Hle];
    [|lia].
  rewrite bind_unit_ok in H by noThrow_tac.
  rewrite bind_unit_ok in H by noThrow_tac.
  set (s0 := snd (untilUiIsUpdated E _)) in H.
  assert (Hg : exists evs,
             trace s0 = trace s ++ EvTextGenerationState awaitingSearchResults :: evs).
  { subst s0. unfold untilUiIsUpdated.
    match goal with |- context [suspend E ?st] =>
      destruct (grows_after (suspend E) st) as [evs Hevs];
        [respects_with extendsBy_leaf|]
    end.
    exists evs. rewrite Hevs. cbn [updateTextGenerationState bind
      writeTextGenerationState emit snd trace]. rewrite <- app_assoc. reflexivity. }
  unfold awaitSearchPromise in H.
  rewrite bind_unit_ok in H by noThrow_tac.
  pose proof (settleSearch_settles s0) as Hsettled.
  destruct (grows_after (settleSearch E) s0) as [evs2 Hevs2];
    [respects_with extendsBy_leaf|].
  set (s2 := snd (settleSearch E s0)) in *.
  rewrite bind_reads in H. destruct Hg as [evs Hevs].
  destruct (searchPromise s2) as [|q n|found|e] eqn:Hp;
    try (injection H as <- <-; cbn [emit snd trace searchPromise]; rewrite Hp;
         split;
         [ rewrite Hevs2, Hevs, <- !app_assoc; eexists; reflexivity
         | split; [exact Hsettled | eexists; reflexivity] ]).
  injection H as <- <-. split; [|exact Hp].
  rewrite Hevs2, Hevs, <- !app_assoc. eexists. reflexivity.
Qed.

Lemma canStartResponding_skips s :
  searchResultsToConsider (getSettings E) <= 0 ->
  canStartResponding E s = (Ok tt, s).
Proof.
  intros HN. unfold canStartResponding.
  destruct (Z.ltb_spec 0 (searchResultsToConsider (getSettings E))) as [H|_];
    [lia | reflexivity].
Qed.

End Sequencing.

Ltac run_search :=
  cbn
    [bind ret throw reads emit liftResult tryCatch
     writeResponse writeSearchResults writeSearchState
     writeTextGenerationState writeSearchPromise
     updateSearchResults updateSearchState textResults
     response searchResults searchState textGenerationState searchPromise
     documentTitle modelLoadingProgress logEntries lastUpdateTime now trace
     fst snd].

#[global] Instance preserves_PreOrder I : PreOrder (preserves I).
Proof. split; [intros s H; exact H | intros a b c H1 H2 H; auto]. Qed.

Section Tracking.
Variable E : Env.

(** What [startSearch] answers does not depend on the store, and the
    answer it returns is the one it stores. *)
Lemma startSearch_resume_answer q x :
  exists answer,
    (forall y, outcome (startSearch E q) y = answer) /\
    fst (startSearch_resume E q x) = answer /\
    searchPromise (snd (startSearch_resume E q x)) = searchPromise x /\
    (forall r, answer = Ok r -> searchResults (snd (startSearch_resume E q x)) = r).
Proof.
  unfold outcome, startSearch, startSearch_begin, startSearch_resume, searchCall.
  set (q1 := if 2000 <? Z.of_nat (String.length q) then _ else q).
  set (q2 := Js.join " " (getKeywords E q (Some 10))).
  destruct (search E 0 q1 30) as [[[|r1 rs1] imgs1]|e1].
  - destruct (search E 1 q2 30) as [[[|r2 rs2] imgs2]|e2];
      eexists; (split; [intros y; run_search; reflexivity|]);
      run_search; (split; [reflexivity|]); (split; [reflexivity|]);
      intros r Hr; try discriminate; injection Hr as <-; reflexivity.
  - eexists. (split; [intros y; run_search; reflexivity|]).
    run_search. (split; [reflexivity|]). (split; [reflexivity|]).
    intros r Hr. injection Hr as <-. reflexivity.
  - eexists. (split; [intros y; run_search; reflexivity|]).
    run_search. (split; [reflexivity|]). (split; [reflexivity|]).
    intros r Hr. discriminate.
Qed.

Lemma startSearch_outcome q x y :
  outcome (startSearch E q) x = outcome (startSearch E q) y.
Proof.
  destruct (startSearch_resume_answer q x) as [answer [H _]].
  rewrite (H x), (H y). reflexivity.
Qed.

(** A step that keeps the promise and the search results keeps the
    tracking. *)
Lemma keeps_searchTracked q s s' :
  searchPromise s' = searchPromise s -> searchResults s' = searchResults s ->
  searchTracked E q s -> searchTracked E q s'.
Proof.
  unfold searchTracked. intros -> ->.
  destruct (searchPromise s); auto.
  - rewrite (startSearch_outcome q s' s). auto.
  - rewrite (startSearch_outcome q s' s). auto.
Qed.

Lemma settleSearch_tracked q :
  respects (preserves (searchTracked E q)) (settleSearch E).
Proof.
  intros s Ht. unfold settleSearch. rewrite bind_reads.
  unfold searchTracked in Ht.
  destruct (searchPromise s) as [|q' n|r|e] eqn:Hp; try contradiction;
    try (cbn [ret snd]; unfold searchTracked; rewrite Hp; exact Ht).
  subst q'.
  destruct (startSearch_resume_answer q s) as [answer [Hany [Hfst [_ Hstored]]]].
  unfold tryCatch, bind.
  destruct (startSearch_resume E q s) as [[r|e] s1]; cbn [fst snd] in *.
  - unfold searchTracked. cbn [writeSearchPromise snd searchPromise searchResults].
    rewrite Hany. split; [symmetry; exact Hfst|]. apply Hstored. auto.
  - unfold searchTracked. cbn [writeSearchPromise snd searchPromise].
    rewrite Hany. symmetry. exact Hfst.
Qed.

Lemma suspend_tracked q :
  respects (preserves (searchTracked E q)) (suspend E).
Proof.
  intros s Ht. unfold suspend. rewrite bind_reads.
  destruct (searchPromise s) as [|q' [|n]|r|e] eqn:Hp;
    try (cbn [ret snd]; exact Ht).
  - apply settleSearch_tracked. exact Ht.
  - unfold searchTracked in *. rewrite Hp in Ht.
    cbn [writeSearchPromise snd searchPromise]. exact Ht.
Qed.

End Tracking.

Ltac tracked_leaf :=
  idtac;
  lazymatch goal with
  | |- respects _ (suspend _) => apply suspend_tracked
  | |- respects _ (settleSearch _) => apply settleSearch_tracked
  | |- respects _ (writeSearchPromise _) => fail
  | |- respects _ (writeSearchResults _) => fail
  | _ => on_primitive ltac:(idtac); intros ?s; unfold preserves;
         apply keeps_searchTracked; reflexivity
  end.

Section SequencedRuns.
Variable E : Env.

Lemma bind_assoc_run {A B C} (m : M A) (k1 : A -> M B) (k2 : B -> M C) s :
  bind (bind m k1) k2 s = bind m (fun a => bind (k1 a) k2) s.
Proof. unfold bind. destruct (m s) as [[a|e] s1]; reflexivity. Qed.

Lemma bind_ext {A B} (m : M A) (k k' : A -> M B) s :
  (forall a s1, k a s1 = k' a s1) -> bind m k s = bind m k' s.
Proof. intros H. unfold bind. destruct (m s) as [[a|e] s1]; auto. Qed.

(** [canStartResponding], step by step. *)
Lemma canStartResponding_run s :
  0 < searchResultsToConsider (getSettings E) ->
  let sC := snd (settleSearch E
              (snd (suspend E
                 (snd (updateTextGenerationState awaitingSearchResults s))))) in
  canStartResponding E s =
  match searchPromise sC with
  | Rejected e => (Throw e, sC)
  | _ => (Ok tt, snd (emit EvSearchAwaited sC))
  end.
Proof.
  intros HN sC. unfold canStartResponding.
  destruct (Z.ltb_spec 0 (searchResultsToConsider (getSettings E))) as [_|Hle];
    [|lia].
  rewrite bind_unit_ok by noThrow_tac.
  unfold untilUiIsUpdated. rewrite bind_unit_ok by noThrow_tac.
  unfold awaitSearchPromise. rewrite bind_unit_ok by noThrow_tac.
  rewrite bind_reads. fold sC.
  destruct (searchPromise sC); reflexivity.
Qed.

Lemma canStartResponding_returns s s1 :
  0 < searchResultsToConsider (getSettings E) ->
  canStartResponding E s = (Ok tt, s1) ->
  ~ isPending (searchPromise s1) /\
  (forall e, searchPromise s1 <> Rejected e) /\
  exists evs,
    trace s1 = trace s ++ EvTextGenerationState awaitingSearchResults
                       :: evs ++ [EvSearchAwaited].
Proof.
  intros HN Hc. rewrite (canStartResponding_run s HN) in Hc.
  set (sA := snd (updateTextGenerationState awaitingSearchResults s)) in *.
  set (sB := snd (suspend E sA)) in *.
  set (sC := snd (settleSearch E sB)) in *.
  pose proof (settleSearch_settles E sB) as Hsettled. fold sC in Hsettled.
  destruct (grows_after (suspend E) sA) as [evs1 Hevs1];
    [respects_with extendsBy_leaf|]. fold sB in Hevs1.
  destruct (grows_after (settleSearch E) sB) as [evs2 Hevs2];
    [respects_with extendsBy_leaf|]. fold sC in Hevs2.
  assert (HsA : trace sA = trace s ++ [EvTextGenerationState awaitingSearchResults])
    by reflexivity.
  assert (Hshape : trace (snd (emit EvSearchAwaited sC))
                   = trace s ++ EvTextGenerationState awaitingSearchResults
                              :: (evs1 ++ evs2) ++ [EvSearchAwaited]).
  { cbn [emit snd trace]. rewrite Hevs2, Hevs1, HsA, <- !app_assoc.
    reflexivity. }
  destruct (searchPromise sC) as [|q n|r|e] eqn:Hp;
    try discriminate; injection Hc as <-;
    cbn [emit snd searchPromise]; rewrite Hp;
    (split; [exact Hsettled|]); (split; [discriminate|]);
    exists (evs1 ++ evs2); exact Hshape.
Qed.

Lemma canStartResponding_throws s e s1 :
  0 < searchResultsToConsider (getSettings E) ->
  canStartResponding E s = (Throw e, s1) ->
  searchPromise s1 = Rejected e.
Proof.
  intros HN Hc. rewrite (canStartResponding_run s HN) in Hc.
  destruct (searchPromise (snd (settleSearch E _))) as [|q n|r|e'] eqn:Hp;
    try discriminate.
  injection Hc as <- <-. exact Hp.
Qed.

Lemma canStartResponding_tracked q :
  respects (preserves (searchTracked E q)) (canStartResponding E).
Proof. respects_with tracked_leaf. Qed.

Lemma beforeResponding_tracked q b :
  respects (preserves (searchTracked E q)) (beforeResponding E b).
Proof. destruct b; unfold beforeResponding; respects_with tracked_leaf. Qed.

Lemma beforeResponding_quiet b :
  respects (extendsBy notCompletion) (beforeResponding E b).
Proof. destruct b; unfold beforeResponding; respects_with extendsBy_leaf. Qed.

Lemma canStartResponding_quiet :
  respects (extendsBy notCompletion) (canStartResponding E).
Proof. respects_with extendsBy_leaf. Qed.

(** The store in which the completion call has just been issued. *)
Let issuedAt (b : Backend) (req : Request) (s1 : Store) : Store :=
  snd (emit (EvCompletion b req)
         (snd (updateTextGenerationState preparingToGenerate s1))).

(** The response phase of the two chat backends. *)
Let chatBlock (b : Backend) (tail : list Message -> M unit) : M unit :=
  canStartResponding E ;;
  updateTextGenerationState preparingToGenerate ;;
  untilUiIsUpdated E ;;
  messages <- reads (chatMessages E) ;;
  emit (EvCompletion b (ChatRequest messages)) ;;
  tail messages.

Lemma chatBlock_run b tail s0 :
  0 < searchResultsToConsider (getSettings E) ->
  chatBlock b tail s0 =
  match canStartResponding E s0 with
  | (Throw e, s1) => (Throw e, s1)
  | (Ok _, s1) =>
      tail (chatMessages E s1)
           (issuedAt b (ChatRequest (chatMessages E s1)) s1)
  end.
Proof.
  intros HN. unfold chatBlock.
  destruct (canStartResponding E s0) as [[[]|e] s1] eqn:Hc.
  - rewrite (bind_run_ok _ _ _ _ _ Hc).
    destruct (canStartResponding_returns s0 s1 HN Hc) as [Hp _].
    rewrite bind_unit_ok by noThrow_tac.
    set (sA := snd (updateTextGenerationState preparingToGenerate s1)).
    assert (HpA : ~ isPending (searchPromise sA)) by exact Hp.
    unfold untilUiIsUpdated. unfold bind at 1.
    rewrite (suspend_settled E sA HpA).
    rewrite bind_reads. rewrite bind_unit_ok by noThrow_tac.
    reflexivity.
  - rewrite (bind_run_throw _ _ _ _ _ Hc). reflexivity.
Qed.

(** The response phase of the Wllama backend. *)
Let wllamaBlock (model : WllamaModel) (tail : string -> M unit) : M unit :=
  canStartResponding E ;;
  updateTextGenerationState preparingToGenerate ;;
  untilUiIsUpdated E ;;
  formatted <- reads (getFormattedSearchResults E
                        (shouldIncludeUrlsOnPrompt model)) ;;
  prompt <- await E (buildPrompt model (getQuery E) formatted) ;;
  emit (EvCompletion Wllama (PromptRequest prompt)) ;;
  tail prompt.

Lemma wllamaBlock_run model tail s0 :
  0 < searchResultsToConsider (getSettings E) ->
  wllamaBlock model tail s0 =
  match canStartResponding E s0 with
  | (Throw e, s1) => (Throw e, s1)
  | (Ok _, s1) =>
      match buildPrompt model (getQuery E)
              (getFormattedSearchResults E (shouldIncludeUrlsOnPrompt model) s1)
      with
      | Ok prompt => tail prompt (issuedAt Wllama (PromptRequest prompt) s1)
      | Throw e =>
          (Throw e, snd (updateTextGenerationState preparingToGenerate s1))
      end
  end.
Proof.
  intros HN. unfold wllamaBlock.
  destruct (canStartResponding E s0) as [[[]|e] s1] eqn:Hc.
  - rewrite (bind_run_ok _ _ _ _ _ Hc).
    destruct (canStartResponding_returns s0 s1 HN Hc) as [Hp _].
    rewrite bind_unit_ok by noThrow_tac.
    set (sA := snd (updateTextGenerationState preparingToGenerate s1)).
    assert (HpA : ~ isPending (searchPromise sA)) by exact Hp.
    unfold untilUiIsUpdated. unfold bind at 1.
    rewrite (suspend_settled E sA HpA).
    rewrite bind_reads.
    change (getFormattedSearchResults E (shouldIncludeUrlsOnPrompt model) sA)
      with (getFormattedSearchResults E (shouldIncludeUrlsOnPrompt model) s1).
    destruct (buildPrompt model (getQuery E)
                (getFormattedSearchResults E (shouldIncludeUrlsOnPrompt model) s1))
      as [prompt|e].
    + rewrite await_ok. rewrite (suspend_settled E sA HpA). cbn [snd].
      rewrite bind_unit_ok by noThrow_tac. reflexivity.
    + rewrite await_throw. rewrite (suspend_settled E sA HpA). reflexivity.
  - rewrite (bind_run_throw _ _ _ _ _ Hc). reflexivity.
Qed.

Let openAiTail (messages : list Message) : M unit :=
  completion <- await E (openAiCreate E messages) ;;
  streamedMessage <- consume E openAiOnChunk completion "" ;;
  updateResponse streamedMessage.

Let webLlmTail (messages : list Message) : M unit :=
  completion <- await E (webLlmCreate E messages) ;;
  streamedMessage <- consume E (webLlmOnChunk E) completion "" ;;
  updateResponse streamedMessage.

Let webLlmEnd : M unit :=
  stats <- await E (runtimeStatsText E) ;;
  addLogEntry ("WebLLM finished generating the response. Stats: " ++ stats)%string.

Let wllamaTail (model : WllamaModel) (prompt : string) : M unit :=
  streamedMessage <-
    consume E (onNewToken model) (createCompletion E prompt) "" ;;
  updateResponse streamedMessage.

(** Each backend is what it does before responding, followed by the
    rest. *)
Lemma generateTextWithOpenAI_phases s :
  generateTextWithOpenAI E s
  = (beforeResponding E OpenAI ;; chatBlock OpenAI openAiTail) s.
Proof. reflexivity. Qed.

Lemma generateTextWithWebLlm_phases s :
  generateTextWithWebLlm E s
  = (beforeResponding E WebLlm ;;
     (if enableAiResponse (getSettings E) then chatBlock WebLlm webLlmTail
      else ret tt) ;;
     webLlmEnd) s.
Proof.
  unfold generateTextWithWebLlm, beforeResponding. cbv zeta.
  repeat (rewrite bind_assoc_run; apply bind_ext; intros ? ?).
  reflexivity.
Qed.

Lemma generateTextWithWllama_phases s :
  generateTextWithWllama E s
  = (beforeResponding E Wllama ;;
     match wllamaModels E (wllamaModelId (getSettings E)) with
     | Some model =>
         (if enableAiResponse (getSettings E)
          then wllamaBlock model (wllamaTail model) else ret tt) ;;
         await E (wllamaExit E)
     | None => ret tt
     end) s.
Proof.
  unfold generateTextWithWllama, beforeResponding.
  do 2 (rewrite bind_assoc_run; apply bind_ext; intros ? ?).
  destruct (wllamaModels E (wllamaModelId (getSettings E))) as [model|];
    [|reflexivity].
  repeat (rewrite bind_assoc_run; apply bind_ext; intros ? ?).
  reflexivity.
Qed.

Lemma issued_none {A} (run : M A) s :
  extendsBy notCompletion s (after run s) ->
  completionsOf (newEvents run s) = [].
Proof.
  intros [evs [Ht Hq]]. rewrite (newEvents_spec run s evs Ht).
  apply completionsOf_none, Hq.
Qed.

Lemma issued_one {A} (run : M A) s s1 b req post :
  extendsBy notCompletion s s1 ->
  trace (after run s)
  = trace s1 ++ EvTextGenerationState preparingToGenerate
             :: EvCompletion b req :: post ->
  Forall notCompletion post ->
  completionsOf (newEvents run s) = [(b, req)].
Proof.
  intros [evs [Ht Hq]] Hrun Hpost.
  rewrite (newEvents_spec run s
             (evs ++ EvTextGenerationState preparingToGenerate
                  :: EvCompletion b req :: post))
    by (rewrite Hrun, Ht, <- app_assoc; reflexivity).
  rewrite completionsOf_app, (completionsOf_none _ Hq). simpl.
  rewrite (completionsOf_none _ Hpost). reflexivity.
Qed.

Lemma bind_tail {A B} (P : Event -> Prop) (m : M A) (k : A -> M B) s :
  (forall a, respects (extendsBy P) (k a)) ->
  extendsBy P (snd (m s)) (snd (bind m k s)).
Proof.
  intros Hk. unfold bind. destruct (m s) as [[a|e] s1]; cbn [snd].
  - apply Hk.
  - reflexivity.
Qed.

Lemma tracked_settled q s s1 :
  searchTracked E q s ->
  preserves (searchTracked E q) s s1 ->
  ~ isPending (searchPromise s1) ->
  (forall e, searchPromise s1 <> Rejected e) ->
  exists r, outcome (startSearch E q) s = Ok r /\
            searchPromise s1 = Fulfilled r /\ searchResults s1 = r.
Proof.
  intros Hs Hpres Hp Hr. specialize (Hpres Hs). unfold searchTracked in Hpres.
  destruct (searchPromise s1) as [|q' n|r|e] eqn:Heq.
  - contradiction.
  - simpl in Hp. tauto.
  - destruct Hpres as [Hans Hres]. exists r.
    rewrite (startSearch_outcome E q s s1). auto.
  - exfalso. apply (Hr e). reflexivity.
Qed.

Lemma tracked_to_response q b s s0 s1 r :
  beforeResponding E b s = (Ok tt, s0) ->
  canStartResponding E s0 = (r, s1) ->
  preserves (searchTracked E q) s s1.
Proof.
  intros Hbefore Hc Hs. apply (beforeResponding_tracked q b s) in Hs.
  rewrite Hbefore in Hs.
  pose proof (canStartResponding_tracked q s0 Hs) as Hs1.
  rewrite Hc in Hs1. exact Hs1.
Qed.

(** The run of a backend whose response phase is that of a chat
    backend. *)
Lemma chat_sequenced b tail (fin : M unit) s :
  (b = OpenAI \/ b = WebLlm) ->
  0 < searchResultsToConsider (getSettings E) ->
  responds E b = true ->
  generateTextWith E b s
  = (beforeResponding E b ;; chatBlock b tail ;; fin) s ->
  (forall messages, respects (extendsBy notCompletion) (tail messages)) ->
  respects (extendsBy notCompletion) fin ->
  sequencedAfterSearch E b s.
Proof.
  intros Hb HN Hresponds Hphases Htail Hfin. unfold sequencedAfterSearch.
  cbv zeta. rewrite Hresponds.
  pose proof (beforeResponding_quiet b s) as Q0.
  destruct (beforeResponding E b s) as [[[]|e] s0] eqn:Hbefore; cbn [snd] in Q0.
  - rewrite (bind_run_ok _ _ _ _ _ Hbefore) in Hphases.
    pose proof (canStartResponding_quiet s0) as Q1.
    pose proof (chatBlock_run b tail s0 HN) as Hblock.
    destruct (canStartResponding E s0) as [[[]|e] s1] eqn:Hc; cbn [snd] in Q1.
    + destruct (canStartResponding_returns s0 s1 HN Hc) as [Hp [Hr Hshape]].
      split; [exact Hp|]. split; [|split; [exact Hshape|]].
      { intros q Hq. apply (tracked_settled q s s1 Hq); [|exact Hp|exact Hr].
        exact (tracked_to_response q b s s0 s1 (Ok tt) Hbefore Hc). }
      assert (Hreq : requestBuiltFrom E b s1 = Ok (ChatRequest (chatMessages E s1)))
        by (destruct Hb; subst b; reflexivity).
      rewrite Hreq.
      set (req := ChatRequest (chatMessages E s1)) in *.
      assert (Hrun : exists post,
                 trace (after (generateTextWith E b) s)
                 = trace s1 ++ EvTextGenerationState preparingToGenerate
                            :: EvCompletion b req :: post /\
                 Forall notCompletion post).
      { unfold after. rewrite Hphases.
        destruct (bind_tail notCompletion (chatBlock b tail) (fun _ => fin) s0
                    (fun _ => Hfin)) as [post2 [Ht2 Hq2]].
        rewrite Ht2, Hblock.
        destruct (Htail (chatMessages E s1) (issuedAt b req s1))
          as [post1 [Ht1 Hq1]].
        rewrite Ht1. exists (post1 ++ post2). split.
        - unfold issuedAt.
          cbn [emit snd trace updateTextGenerationState bind
               writeTextGenerationState].
          rewrite <- !app_assoc. reflexivity.
        - apply Forall_app. auto. }
      destruct Hrun as [post [Hrun Hpost]]. split; [|exists post; exact Hrun].
      apply (issued_one _ s s1 b req post); [|exact Hrun|exact Hpost].
      etransitivity; eassumption.
    + assert (Hrun : generateTextWith E b s = (Throw e, s1)).
      { rewrite Hphases. apply bind_run_throw. exact Hblock. }
      split; [exact Hrun|]. split; [exact (canStartResponding_throws s0 e s1 HN Hc)|].
      apply issued_none. unfold after. rewrite Hrun. cbn [snd].
      etransitivity; eassumption.
  - rewrite (bind_run_throw _ _ _ _ _ Hbefore) in Hphases.
    split; [exact Hphases|]. apply issued_none. unfold after.
    rewrite Hphases. exact Q0.
Qed.

Lemma bind_ret_tt (m : M unit) s : (m ;; ret tt) s = m s.
Proof. unfold bind. destruct (m s) as [[[]|e] s1]; reflexivity. Qed.

(** A backend that skips its response phase issues no completion call. *)
Lemma silent_sequenced b (rest : M unit) s :
  responds E b = false ->
  generateTextWith E b s = (beforeResponding E b ;; rest) s ->
  respects (extendsBy notCompletion) rest ->
  sequencedAfterSearch E b s.
Proof.
  intros Hresponds Hphases Hrest. unfold sequencedAfterSearch. cbv zeta.
  rewrite Hresponds.
  pose proof (beforeResponding_quiet b s) as Q0.
  destruct (beforeResponding E b s) as [[[]|e] s0] eqn:Hbefore; cbn [snd] in Q0.
  - rewrite (bind_run_ok _ _ _ _ _ Hbefore) in Hphases.
    apply issued_none. unfold after. rewrite Hphases.
    etransitivity; [exact Q0 | apply Hrest].
  - rewrite (bind_run_throw _ _ _ _ _ Hbefore) in Hphases.
    split; [exact Hphases|]. apply issued_none. unfold after.
    rewrite Hphases. exact Q0.
Qed.

Lemma generateTextWithOpenAI_sequenced s :
  0 < searchResultsToConsider (getSettings E) ->
  sequencedAfterSearch E OpenAI s.
Proof.
  intros HN.
  apply (chat_sequenced OpenAI openAiTail (ret tt));
    [auto | exact HN | reflexivity | | |].
  - cbn [generateTextWith]. rewrite generateTextWithOpenAI_phases.
    apply bind_ext. intros a s1. symmetry. apply bind_ret_tt.
  - intros messages. unfold openAiTail. respects_with extendsBy_leaf.
  - respects_with extendsBy_leaf.
Qed.

Lemma generateTextWithWebLlm_sequenced s :
  0 < searchResultsToConsider (getSettings E) ->
  sequencedAfterSearch E WebLlm s.
Proof.
  intros HN. pose proof (generateTextWithWebLlm_phases s) as Hphases.
  destruct (enableAiResponse (getSettings E)) eqn:Hen.
  - apply (chat_sequenced WebLlm webLlmTail webLlmEnd);
      [auto | exact HN | exact Hen | exact Hphases | |].
    + intros messages. unfold webLlmTail. respects_with extendsBy_leaf.
    + unfold webLlmEnd. respects_with extendsBy_leaf.
  - apply (silent_sequenced WebLlm (ret tt ;; webLlmEnd));
      [exact Hen | exact Hphases |].
    unfold webLlmEnd. respects_with extendsBy_leaf.
Qed.

Lemma beforeResponding_Wllama_model s s0 :
  beforeResponding E Wllama s = (Ok tt, s0) ->
  exists model, wllamaModels E (wllamaModelId (getSettings E)) = Some model.
Proof.
  unfold beforeResponding.
  destruct (wllamaModels E (wllamaModelId (getSettings E))) as [model|];
    [eauto|].
  rewrite bind_unit_ok by noThrow_tac. rewrite bind_unit_ok by noThrow_tac.
  discriminate.
Qed.

Lemma generateTextWithWllama_sequenced s :
  0 < searchResultsToConsider (getSettings E) ->
  sequencedAfterSearch E Wllama s.
Proof.
  intros HN. pose proof (generateTextWithWllama_phases s) as Hphases.
  destruct (enableAiResponse (getSettings E)) eqn:Hen.
  2:{ apply (silent_sequenced Wllama
               match wllamaModels E (wllamaModelId (getSettings E)) with
               | Some model => ret tt ;; await E (wllamaExit E)
               | None => ret tt
               end);
        [exact Hen | exact Hphases |].
      destruct (wllamaModels E (wllamaModelId (getSettings E)));
        respects_with extendsBy_leaf. }
  unfold sequencedAfterSearch. cbv zeta.
  change (responds E Wllama) with (enableAiResponse (getSettings E)).
  rewrite Hen. change (generateTextWith E Wllama) with (generateTextWithWllama E).
  pose proof (beforeResponding_quiet Wllama s) as Q0.
  destruct (beforeResponding E Wllama s) as [[[]|e] s0] eqn:Hbefore;
    cbn [snd] in Q0.
  - destruct (beforeResponding_Wllama_model s s0 Hbefore) as [model Hmodel].
    rewrite (bind_run_ok _ _ _ _ _ Hbefore) in Hphases.
    unfold requestBuiltFrom. rewrite Hmodel in *.
    pose proof (canStartResponding_quiet s0) as Q1.
    pose proof (wllamaBlock_run model (wllamaTail model) s0 HN) as Hblock.
    assert (Hexit : respects (extendsBy notCompletion) (await E (wllamaExit E)))
      by respects_with extendsBy_leaf.
    destruct (canStartResponding E s0) as [[[]|e] s1] eqn:Hc; cbn [snd] in Q1.
    + destruct (canStartResponding_returns s0 s1 HN Hc) as [Hp [Hr Hshape]].
      split; [exact Hp|]. split; [|split; [exact Hshape|]].
      { intros q Hq. apply (tracked_settled q s s1 Hq); [|exact Hp|exact Hr].
        exact (tracked_to_response q Wllama s s0 s1 (Ok tt) Hbefore Hc). }
      destruct (bind_tail notCompletion (wllamaBlock model (wllamaTail model))
                  (fun _ => await E (wllamaExit E)) s0 (fun _ => Hexit))
        as [post2 [Ht2 Hq2]].
      destruct (buildPrompt model (getQuery E)
                  (getFormattedSearchResults E
                     (shouldIncludeUrlsOnPrompt model) s1)) as [prompt|e].
      * set (req := PromptRequest prompt) in *.
        assert (Htail : respects (extendsBy notCompletion)
                          (wllamaTail model prompt))
          by (unfold wllamaTail; respects_with extendsBy_leaf).
        destruct (Htail (issuedAt Wllama req s1)) as [post1 [Ht1 Hq1]].
        assert (Hrun : trace (after (generateTextWithWllama E) s)
                       = trace s1 ++ EvTextGenerationState preparingToGenerate
                                  :: EvCompletion Wllama req :: post1 ++ post2).
        { unfold after. rewrite Hphases, Ht2, Hblock, Ht1. unfold issuedAt.
          cbn [emit snd trace updateTextGenerationState bind
               writeTextGenerationState].
          rewrite <- !app_assoc. reflexivity. }
        split; [|exists (post1 ++ post2); exact Hrun].
        apply (issued_one _ s s1 Wllama req (post1 ++ post2));
          [etransitivity; eassumption | exact Hrun | apply Forall_app; auto].
      * assert (Hrun : generateTextWithWllama E s
                       = (Throw e,
                          snd (updateTextGenerationState preparingToGenerate s1))).
        { rewrite Hphases. apply bind_run_throw. exact Hblock. }
        split; [unfold outcome; rewrite Hrun; reflexivity|].
        apply issued_none. unfold after. rewrite Hrun. cbn [snd].
        etransitivity; [exact Q0|]. etransitivity; [exact Q1|].
        apply (respects_run (extendsBy notCompletion)
                 (updateTextGenerationState preparingToGenerate) s1 (Ok tt));
          [respects_with extendsBy_leaf | reflexivity].
    + assert (Hrun : generateTextWithWllama E s = (Throw e, s1)).
      { rewrite Hphases. apply bind_run_throw. exact Hblock. }
      split; [exact Hrun|].
      split; [exact (canStartResponding_throws s0 e s1 HN Hc)|].
      apply issued_none. unfold after. rewrite Hrun. cbn [snd].
      etransitivity; eassumption.
  - rewrite (bind_run_throw _ _ _ _ _ Hbefore) in Hphases.
    split; [exact Hphases|]. apply issued_none. unfold after.
    rewrite Hphases. exact Q0.
Qed.

(** With nothing to consider the OpenAI backend reaches its completion
    call while a search that still has time is pending: the run is what
    remains of it after the call, started at a store [s1] with the promise
    still pending and only the backend entry, the state write and the call
    added to the trace. *)
Lemma generateTextWithOpenAI_does_not_wait s q n :
  searchResultsToConsider (getSettings E) <= 0 ->
  searchPromise s = Pending q (S n) ->
  exists s1,
    searchPromise s1 = Pending q n /\
    searchResults s1 = searchResults s /\
    trace s1 = trace s ++ [EvBackend OpenAI;
                           EvTextGenerationState preparingToGenerate;
                           EvCompletion OpenAI (ChatRequest (chatMessages E s))] /\
    generateTextWithOpenAI E s = openAiStreaming E (chatMessages E s) s1.
Proof.
  intros HN Hp. unfold generateTextWithOpenAI.
  rewrite bind_unit_ok by noThrow_tac.
  rewrite (bind_run_ok _ _ _ _ _ (canStartResponding_skips E _ HN)).
  rewrite bind_unit_ok by noThrow_tac.
  unfold untilUiIsUpdated.
  match goal with |- context [bind (suspend E) _ ?st] =>
    rewrite (bind_run_ok (suspend E) _ st tt
               (snd (writeSearchPromise (Pending q n) st)))
      by (rewrite (suspend_pending E st q n) by exact Hp; reflexivity)
  end.
  rewrite bind_reads. rewrite bind_unit_ok by noThrow_tac.
  eexists. split; [|split; [|split; [|reflexivity]]].
  - reflexivity.
  - reflexivity.
  - cbn [emit snd trace writeSearchPromise updateTextGenerationState bind
         writeTextGenerationState].
    rewrite <- !app_assoc. reflexivity.
Qed.

End SequencedRuns.

(** The search that [prepareTextGeneration] starts is tracked when the
    backends are entered, and each backend keeps it tracked. *)
Lemma enterGeneration_tracked E s :
  searchTracked E (getQuery E) (after (enterGeneration E) s).
Proof.
  unfold after, enterGeneration.
  repeat (rewrite bind_unit_ok by noThrow_tac).
  set (s0 := snd (updateSearchPromise_startSearch E (getQuery E) _)).
  assert (H0 : searchTracked E (getQuery E) s0) by reflexivity.
  assert (H : respects (preserves (searchTracked E (getQuery E)))
                (updateTextGenerationState loadingModel ;; untilUiIsUpdated E))
    by respects_with tracked_leaf.
  specialize (H s0 H0). rewrite bind_unit_ok in H by noThrow_tac. exact H.
Qed.

Lemma generateTextWith_tracked E q b :
  respects (preserves (searchTracked E q)) (generateTextWith E b).
Proof. destruct b; cbn [generateTextWith]; respects_with tracked_leaf. Qed.

(** C6.  When the number of search results to consider is positive,
    [canStartResponding] writes the state "awaitingSearchResults" and
    returns only with the search promise settled (it throws when the
    search was rejected); and the run of each backend is sequenced after
    the search: when the backend reaches its response phase and
    [canStartResponding] returns there, the promise is settled, the answer
    of the awaited search is in the store, and the one completion call of
    the run carries the request built from that store and follows the
    write of "preparingToGenerate"; in every other case the run issues no
    completion call.  When the number is zero or negative,
    [canStartResponding] does nothing, and the OpenAI backend reaches its
    completion call with the search still pending.  In a run of
    [prepareTextGeneration] the store in which the backends are entered
    holds the search for the query of the run, and every backend leaves
    it so for a backend that follows. *)
Theorem C6_generation_after_search (E : Env) (s : Store) :
  (0 < searchResultsToConsider (getSettings E) ->
   (forall r s1,
      canStartResponding E s = (r, s1) ->
      (exists evs,
         trace s1
         = trace s ++ EvTextGenerationState awaitingSearchResults :: evs) /\
      match r with
      | Ok _ => ~ isPending (searchPromise s1) /\
                exists evs, trace s1 = evs ++ [EvSearchAwaited]
      | Throw e => searchPromise s1 = Rejected e
      end) /\
   sequencedAfterSearch E OpenAI s /\
   sequencedAfterSearch E WebLlm s /\
   sequencedAfterSearch E Wllama s) /\
  (searchResultsToConsider (getSettings E) <= 0 ->
   canStartResponding E s = (Ok tt, s) /\
   forall q n,
     searchPromise s = Pending q (S n) ->
     exists s1,
       searchPromise s1 = Pending q n /\
       searchResults s1 = searchResults s /\
       trace s1 = trace s ++ [EvBackend OpenAI;
                              EvTextGenerationState preparingToGenerate;
                              EvCompletion OpenAI
                                (ChatRequest (chatMessages E s))] /\
       generateTextWithOpenAI E s = openAiStreaming E (chatMessages E s) s1) /\
  (searchTracked E (getQuery E) (after (enterGeneration E) s) /\
   forall q b,
     searchTracked E q s -> searchTracked E q (after (generateTextWith E b) s)).
Proof.
  split; [|split].
  - intros HN. split; [|split; [|split]].
    + intros r s1. apply canStartResponding_waits. exact HN.
    + apply generateTextWithOpenAI_sequenced. exact HN.
    + apply generateTextWithWebLlm_sequenced. exact HN.
    + apply generateTextWithWllama_sequenced. exact HN.
  - intros HN. split.
    + apply canStartResponding_skips. exact HN.
    + intros q n. apply generateTextWithOpenAI_does_not_wait. exact HN.
  - split; [apply enterGeneration_tracked|].
    intros q b. apply generateTextWith_tracked.
Qed.

(** The completion call of a run whose backend responds. *)
Lemma sequencedAfterSearch_issued E b s s0 s1 req :
  sequencedAfterSearch E b s ->
  beforeResponding E b s = (Ok tt, s0) ->
  responds E b = true ->
  canStartResponding E s0 = (Ok tt, s1) ->
  requestBuiltFrom E b s1 = Ok req ->
  completionsOf (newEvents (generateTextWith E b) s) = [(b, req)].
Proof.
  intros H Hb Hr Hc Hreq. unfold sequencedAfterSearch in H.
  rewrite Hb, Hr, Hc, Hreq in H. tauto.
Qed.

Lemma C6_generation_after_search_witness :
  completionsOf
    (newEvents (generateTextWith (Samples.env "openai" 3 true Samples.hello)
                                 OpenAI)
               Samples.searching)
  = [(OpenAI,
      ChatRequest
        [("system",
          ("Search results: 1. [Cats](https://cats.example) | Cats purr." ++
           String "010" "2. [Dogs](https://dogs.example) | Dogs bark.")%string);
         ("user", "cats")])] /\
  canStartResponding (Samples.env "openai" 0 true Samples.hello) Samples.store0
  = (Ok tt, Samples.store0).
Proof.
  split.
  - eapply (sequencedAfterSearch_issued _ _ _ _ _ _
              (proj1 (proj2 (proj1 (C6_generation_after_search
                 (Samples.env "openai" 3 true Samples.hello)
                 Samples.searching) ltac:(simpl; lia))))).
    + vm_compute. reflexivity.
    + reflexivity.
    + vm_compute. reflexivity.
    + vm_compute. reflexivity.
  - apply (proj1 (proj2 (C6_generation_after_search
                    (Samples.env "openai" 0 true Samples.hello) Samples.store0))
             ltac:(simpl; lia)).
Defined.

(* ================================================================== *)
(** ** C5: how a run ends *)
(* ================================================================== *)

Section Endings.
Variable E : Env.

Lemma markCompleted_run s :
  markCompleted s = (Ok tt, snd (markCompleted s)) /\
  textGenerationState (snd (markCompleted s)) = endState s /\
  logEntries (snd (markCompleted s)) = logEntries s.
Proof.
  unfold markCompleted, endState, getTextGenerationState. rewrite bind_reads.
  destruct (tgs_eqb (textGenerationState s) interrupted) eqn:Hi; simpl.
  - destruct (tgs_eqb_spec (textGenerationState s) interrupted);
      [auto | discriminate].
  - auto.
Qed.

Lemma reportFailure_run e s :
  textGenerationState (snd (reportFailure e s)) = failed /\
  logEntries (snd (reportFailure e s))
  = logEntries s ++ [("Error generating text: " ++ e)%string].
Proof. split; reflexivity. Qed.

(** What is left of the run after the [try] statement keeps the state
    and the log entries written so far. *)
Lemma prepareTextGeneration_ending s :
  getQuery E <> ""%string ->
  enableAiResponse (getSettings E) = true ->
  let s3 := snd (tryCatch (generateText E) reportFailure
                   (snd (enterGeneration E s))) in
  let s' := after (prepareTextGeneration E) s in
  textGenerationState s' = textGenerationState s3 /\
  (forall entry, In entry (logEntries s3) -> In entry (logEntries s')).
Proof.
  intros Hq Hen s3 s'.
  destruct (prepareTextGeneration_enabled E s Hq Hen) as [entry Hrun].
  subst s'. unfold after. rewrite Hrun. cbn [snd]. fold s3.
  assert (H : respects (fun a b => textGenerationState b = textGenerationState a /\
                                   logEntries b = logEntries a) (suspend E)).
  { assert (HP : PreOrder (fun a b : Store =>
                   textGenerationState b = textGenerationState a /\
                   logEntries b = logEntries a)).
    { split.
      - intros a. auto.
      - intros a b c [H1 H2] [H3 H4]. split; congruence. }
    respects_with ltac:(on_primitive ltac:(idtac); intros ?s; split; reflexivity). }
  destruct (H s3) as [Ht Hl]. cbn [addLogEntry snd textGenerationState logEntries].
  split; [exact Ht|]. intros x Hx. rewrite Hl. apply in_or_app. auto.
Qed.

End Endings.

(** C5, counterexample.  WebGPU is available and enabled, the model
    initializes, and the WebLLM stream breaks after its first chunk: the
    error is caught by the inner [catch], Wllama answers, and the run ends
    in "completed". *)
Lemma C5_counterexample :
  ~ otherErrorsEndFailed (Samples.env "browser" 3 true Samples.broken)
                         Samples.store0.
Proof.
  intros H.
  destruct (H "Error: device lost"%string) as [Hfailed _].
  - vm_compute. reflexivity.
  - intros [[e He]|[e He]]; discriminate.
  - vm_compute in Hfailed. discriminate.
Qed.

(** C5, amended.  In a run with a non-empty query and AI responses
    enabled: with inference type "openai", an error of
    [generateTextWithOpenAI] is logged and ends the run in "failed";
    otherwise any error of the WebGPU guard or of [generateTextWithWebLlm]
    (model initialization or not) starts the Wllama fallback, and an error
    of that fallback is logged and ends the run in "failed".  A run whose
    last backend returns normally ends in "interrupted" when that is the
    state the backend left, and in "completed" otherwise. *)
Theorem C5_errors_and_endings (E : Env) (s : Store) :
  getQuery E <> ""%string ->
  enableAiResponse (getSettings E) = true ->
  let s1 := after (enterGeneration E) s in
  let s' := after (prepareTextGeneration E) s in
  let logged e := In ("Error generating text: " ++ e)%string (logEntries s') in
  (inferenceType (getSettings E) = "openai"%string ->
   match generateTextWithOpenAI E s1 with
   | (Throw e, _) => textGenerationState s' = failed /\ logged e
   | (Ok _, s2) => textGenerationState s' = endState s2
   end) /\
  (inferenceType (getSettings E) <> "openai"%string ->
   match (webGpuGuard E ;; generateTextWithWebLlm E) s1 with
   | (Ok _, s2) => textGenerationState s' = endState s2
   | (Throw e0, s2) =>
       match fallBack E e0 s2 with
       | (Throw e, _) => textGenerationState s' = failed /\ logged e
       | (Ok _, s4) => textGenerationState s' = endState s4
       end
   end).
Proof.
  intros Hq Hen s1 s' logged.
  destruct (prepareTextGeneration_ending E s Hq Hen) as [Ht Hl].
  fold s' in Ht, Hl. unfold after in s1. fold s1 in Ht, Hl.
  change (generateText E)
    with ((if String.eqb (inferenceType (getSettings E)) "openai"
           then generateTextWithOpenAI E
           else tryCatch (webGpuGuard E ;; generateTextWithWebLlm E) (fallBack E)) ;;
          markCompleted) in Ht, Hl.
  assert (Hok : forall s2,
            textGenerationState (snd (markCompleted s2)) = endState s2)
    by (intros s2; apply markCompleted_run).
  assert (Hfail : forall e s2,
            textGenerationState (snd (reportFailure e s2)) = failed /\
            In ("Error generating text: " ++ e)%string
               (logEntries (snd (reportFailure e s2)))).
  { intros e s2. destruct (reportFailure_run e s2) as [H1 H2].
    split; [exact H1|]. rewrite H2. apply in_or_app. right. left. reflexivity. }
  split; intros Hkind.
  - destruct (String.eqb_spec (inferenceType (getSettings E)) "openai")
      as [_|Hne]; [|contradiction].
    unfold tryCatch, bind in Ht, Hl.
    destruct (generateTextWithOpenAI E s1) as [[[]|e] s2].
    + destruct (markCompleted_run s2) as [Hm _]. rewrite Hm in Ht, Hl.
      rewrite Ht. apply Hok.
    + destruct (Hfail e s2) as [H1 H2]. split; [congruence|].
      apply Hl. exact H2.
  - destruct (String.eqb_spec (inferenceType (getSettings E)) "openai")
      as [Heq|_]; [contradiction|].
    unfold tryCatch at 1 in Ht. unfold tryCatch at 1 in Hl.
    unfold bind at 1 in Ht. unfold bind at 1 in Hl.
    unfold tryCatch at 1 in Ht. unfold tryCatch at 1 in Hl.
    destruct ((webGpuGuard E ;; generateTextWithWebLlm E) s1) as [[[]|e0] s2].
    + destruct (markCompleted_run s2) as [Hm _]. rewrite Hm in Ht, Hl.
      rewrite Ht. apply Hok.
    + destruct (fallBack E e0 s2) as [[[]|e] s4].
      * destruct (markCompleted_run s4) as [Hm _]. rewrite Hm in Ht, Hl.
        rewrite Ht. apply Hok.
      * destruct (Hfail e s4) as [H1 H2]. split; [congruence|].
        apply Hl. exact H2.
Qed.

Lemma C5_errors_and_endings_witness :
  textGenerationState
    (after (prepareTextGeneration (Samples.env "openai" 3 true Samples.hello))
           Samples.store0)
  = completed.
Proof.
  pose proof (proj1 (C5_errors_and_endings
                       (Samples.env "openai" 3 true Samples.hello) Samples.store0
                       ltac:(discriminate) ltac:(reflexivity))
                ltac:(reflexivity)) as H.
  vm_compute in H. exact H.
Defined.

(* ================================================================== *)
(** ** C4: the order of the generation states *)
(* ================================================================== *)

Lemma stateHistory_app a b :
  stateHistory (a ++ b) = stateHistory a ++ stateHistory b.
Proof.
  induction a as [|e a IH]; simpl; [reflexivity|].
  destruct e; simpl; rewrite ?IH; reflexivity.
Qed.

Lemma stateHistory_none evs : Forall notStateChange evs -> stateHistory evs = [].
Proof.
  induction 1 as [|e evs He _ IH]; simpl; [reflexivity|].
  destruct e; simpl in *; tauto.
Qed.

Lemma climbs_weaken lo lo' hi hi' l :
  (lo' <= lo)%nat -> (hi <= hi')%nat -> climbs lo hi l -> climbs lo' hi' l.
Proof.
  revert lo lo'. induction l as [|x l IH]; intros lo lo' Hlo Hhi H; simpl in *;
    [exact I|].
  destruct H as [Hx Hr]. split; [lia|]. eapply IH; eauto.
Qed.

Lemma climbs_app a b b' c l1 l2 :
  (a <= b)%nat -> (b <= b')%nat -> (b' <= c)%nat ->
  climbs a b l1 -> climbs b' c l2 -> climbs a c (l1 ++ l2).
Proof.
  intros Hab Hbb Hbc. revert a Hab.
  induction l1 as [|x l1 IH]; intros a Hab H1 H2; simpl in *.
  - eapply climbs_weaken; [| |exact H2]; lia.
  - destruct H1 as [Hx Hr]. split; [lia|]. apply IH; [lia | exact Hr | exact H2].
Qed.

Lemma climbs_movesForward lo hi l :
  climbs lo hi l -> movesForward (fun st => Some (codeOrder st)) l.
Proof.
  revert lo. induction l as [|x l IH]; intros lo H pre a b post Heq.
  - destruct pre; discriminate.
  - destruct H as [Hx Hr]. destruct pre as [|p pre]; simpl in Heq.
    + injection Heq as -> ->. destruct Hr as [Hb _].
      exists (codeOrder a), (codeOrder b). repeat split. lia.
    + injection Heq as _ Heq. eapply IH; eauto.
Qed.

Lemma phaseAt_quiet {A} lo hi (m : M A) s :
  respects (extendsBy notStateChange) m -> phaseAt lo hi m s.
Proof.
  intros H. destruct (H s) as [evs [Ht Hq]]. exists evs. split; [exact Ht|].
  rewrite (stateHistory_none _ Hq). exact I.
Qed.

Lemma phaseAt_weaken {A} lo lo' hi hi' (m : M A) s :
  (lo' <= lo)%nat -> (hi <= hi')%nat -> phaseAt lo hi m s -> phaseAt lo' hi' m s.
Proof.
  intros Hlo Hhi [evs [Ht Hc]]. exists evs. split; [exact Ht|].
  eapply climbs_weaken; eauto.
Qed.

Lemma phaseAt_bind {A B} a b b' c (m : M A) (k : A -> M B) s :
  (a <= b)%nat -> (b <= b')%nat -> (b' <= c)%nat ->
  phaseAt a b m s ->
  (forall x, fst (m s) = Ok x -> phaseAt b' c (k x) (snd (m s))) ->
  phaseAt a c (bind m k) s.
Proof.
  intros Hab Hbb Hbc [e1 [H1 C1]] Hk. unfold phaseAt in *. unfold bind.
  destruct (m s) as [[x|e] s1]; simpl in *.
  - destruct (Hk x eq_refl) as [e2 [H2 C2]]. exists (e1 ++ e2).
    rewrite H2, H1, app_assoc. split; [reflexivity|].
    rewrite stateHistory_app. eapply climbs_app; eauto.
  - exists e1. split; [exact H1|]. eapply climbs_weaken; [| |exact C1]; lia.
Qed.

Lemma phaseAt_tryCatch {A} a b b' c (body : M A) handler s :
  (a <= b)%nat -> (b <= b')%nat -> (b' <= c)%nat ->
  phaseAt a b body s ->
  (forall e, fst (body s) = Throw e -> phaseAt b' c (handler e) (snd (body s))) ->
  phaseAt a c (tryCatch body handler) s.
Proof.
  intros Hab Hbb Hbc [e1 [H1 C1]] Hk. unfold phaseAt in *. unfold tryCatch.
  destruct (body s) as [[x|e] s1]; simpl in *.
  - exists e1. split; [exact H1|]. eapply climbs_weaken; [| |exact C1]; lia.
  - destruct (Hk e eq_refl) as [e2 [H2 C2]]. exists (e1 ++ e2).
    rewrite H2, H1, app_assoc. split; [reflexivity|].
    rewrite stateHistory_app. eapply climbs_app; eauto.
Qed.

Lemma phaseAt_write st s :
  phaseAt (codeOrder st) (codeOrder st) (updateTextGenerationState st) s.
Proof.
  exists [EvTextGenerationState st]. split; [reflexivity|]. simpl. lia.
Qed.

#[global] Instance inStream_PreOrder : PreOrder inStream.
Proof.
  split.
  - intros s. exists []. rewrite app_nil_r. simpl. repeat split; auto.
    intros H. contradiction.
  - intros a b c [e1 [H1 [C1 [S1 N1]]]] [e2 [H2 [C2 [S2 N2]]]].
    exists (e1 ++ e2). rewrite H2, H1, app_assoc. split; [reflexivity|].
    rewrite stateHistory_app.
    destruct (stateHistory e1) as [|x h1] eqn:Hh1.
    + simpl. split; [exact C2|]. split.
      * intros Ha. destruct (S1 Ha) as [_ Sb]. apply S2. exact Sb.
      * exact N2.
    + assert (Sb : streaming (textGenerationState b))
        by (apply N1; discriminate).
      destruct (S2 Sb) as [C2' Sc]. split; [|split].
      * eapply (climbs_app 4 5 5 5); try lia; assumption.
      * intros Ha. destruct (S1 Ha) as [C1' _]. split; [|exact Sc].
        eapply (climbs_app 5 5 5 5); try lia; assumption.
      * intros _. exact Sc.
Qed.

Lemma keeps_inStream s s' : keepsGenerationState s s' -> inStream s s'.
Proof.
  intros [Hk [evs [Ht Hq]]]. exists evs. split; [exact Ht|].
  rewrite (stateHistory_none _ Hq). simpl. rewrite Hk.
  repeat split; auto. intros H. contradiction.
Qed.

Lemma userInterrupts_inStream : respects inStream userInterrupts.
Proof.
  intros s. exists [EvInterrupt]. split; [reflexivity|]. simpl.
  repeat split; try lia; left; reflexivity.
Qed.

Ltac inStream_basic :=
  idtac; lazymatch goal with
  | |- respects _ userInterrupts => apply userInterrupts_inStream
  | |- _ =>
      on_primitive ltac:(idtac); intros ?s; apply keeps_inStream;
      split; [reflexivity | extendsBy_step]
  end.

Section Loops.
Variable E : Env.

Lemma pollCheck_inStream b abort s :
  noThrow abort -> respects inStream abort ->
  inStream s (snd (pollCheck b abort s)).
Proof.
  intros Hn Hk. unfold pollCheck.
  rewrite bind_unit_ok by noThrow_tac.
  unfold getTextGenerationState. rewrite bind_reads.
  cbn [emit snd textGenerationState].
  assert (Htoken : inStream s (snd (emit (EvToken b) s)))
    by (apply keeps_inStream; split; [reflexivity|]; extendsBy_step).
  destruct (tgs_eqb_spec (textGenerationState s) interrupted) as [Hi|Hi].
  - etransitivity; [exact Htoken | apply Hk].
  - rewrite bind_reads. cbn [textGenerationState].
    destruct (tgs_eqb_spec (textGenerationState s) generating) as [Hg|Hg];
      cbn [negb].
    + exact Htoken.
    + exists [EvToken b; EvTextGenerationState generating].
      split; [cbn; rewrite <- app_assoc; reflexivity|]. simpl.
      split; [lia|]. split.
      * intros [H|H]; contradiction.
      * intros _. right. reflexivity.
Qed.

Lemma updateResponseRateLimited_inStream text :
  respects inStream (updateResponseRateLimited text).
Proof. respects_with inStream_basic. Qed.

Lemma suspend_inStream : respects inStream (suspend E).
Proof. respects_with inStream_basic. Qed.

Lemma openAiOnChunk_inStream acc d : respects inStream (openAiOnChunk acc d).
Proof.
  intros s.
  change (openAiOnChunk acc d)
    with (pollCheck OpenAI (emit (EvAbort OpenAI)) ;;
          updateResponseRateLimited (appendDelta acc d) ;;
          ret (appendDelta acc d)).
  rewrite bind_unit_ok by (unfold pollCheck; noThrow_tac).
  rewrite snd_bind_ret.
  etransitivity; [|apply updateResponseRateLimited_inStream].
  apply pollCheck_inStream; [noThrow_tac | respects_with inStream_basic].
Qed.

Lemma webLlmOnChunk_inStream acc d : respects inStream (webLlmOnChunk E acc d).
Proof.
  intros s.
  change (webLlmOnChunk E acc d)
    with (pollCheck WebLlm (emit (EvAbort WebLlm) ;; suspend E) ;;
          updateResponseRateLimited (appendDelta acc d) ;;
          ret (appendDelta acc d)).
  rewrite bind_unit_ok by (unfold pollCheck; noThrow_tac).
  rewrite snd_bind_ret.
  etransitivity; [|apply updateResponseRateLimited_inStream].
  apply pollCheck_inStream; [noThrow_tac | respects_with inStream_basic].
Qed.

Lemma onNewToken_inStream model acc t : respects inStream (onNewToken model acc t).
Proof.
  intros s.
  change (onNewToken model acc t)
    with (pollCheck Wllama (emit (EvAbort Wllama)) ;;
          (currentText <-
            (match stopStrings model with
             | Some stops => cutAtStopString stops t
             | None => ret t
             end) ;;
          updateResponseRateLimited currentText ;;
          ret currentText)).
  rewrite bind_unit_ok by (unfold pollCheck; noThrow_tac).
  transitivity (snd (pollCheck Wllama (emit (EvAbort Wllama)) s));
    [apply pollCheck_inStream; [noThrow_tac | respects_with inStream_basic]|].
  match goal with |- inStream ?st (snd (?m ?st)) =>
    assert (H : respects inStream m) by respects_with inStream_basic; apply H
  end.
Qed.

End Loops.

Ltac inStream_leaf :=
  idtac; lazymatch goal with
  | |- respects _ (openAiOnChunk _ _) => apply openAiOnChunk_inStream
  | |- respects _ (webLlmOnChunk _ _ _) => apply webLlmOnChunk_inStream
  | |- respects _ (onNewToken _ _ _) => apply onNewToken_inStream
  | |- _ => inStream_basic
  end.

(** A streaming loop is a phase between "generating" and the terminal
    states. *)
Lemma consume_phase E {T} (body : string -> T -> M string) stream acc s :
  respects inStream (consume E body stream acc) ->
  phaseAt 4 5 (consume E body stream acc) s.
Proof.
  intros H. destruct (H s) as [evs [Ht [Hc _]]]. exists evs. auto.
Qed.

Section Phases.
Variable E : Env.

Lemma phaseAt_skip {A B} lo hi (m : M A) (k : A -> M B) s :
  (lo <= hi)%nat ->
  respects (extendsBy notStateChange) m ->
  (forall x, phaseAt lo hi (k x) (snd (m s))) ->
  phaseAt lo hi (bind m k) s.
Proof.
  intros Hle Hq Hk.
  apply (phaseAt_bind lo lo lo hi); try lia; [apply phaseAt_quiet; exact Hq|].
  intros x _. apply Hk.
Qed.

Lemma phaseAt_tail {A B} lo hi (m : M A) (k : A -> M B) s :
  (lo <= hi)%nat ->
  phaseAt lo hi m s ->
  (forall x, respects (extendsBy notStateChange) (k x)) ->
  phaseAt lo hi (bind m k) s.
Proof.
  intros Hle Hm Hk.
  apply (phaseAt_bind lo hi hi hi); try lia; [exact Hm|].
  intros x _. apply phaseAt_quiet. apply Hk.
Qed.

Lemma phaseAt_write_then {B} lo hi st (k : unit -> M B) s :
  (lo <= codeOrder st <= hi)%nat ->
  (forall x, phaseAt (codeOrder st) hi (k x)
               (snd (updateTextGenerationState st s))) ->
  phaseAt lo hi (bind (updateTextGenerationState st) k) s.
Proof.
  intros Hle Hk.
  apply (phaseAt_bind lo (codeOrder st) (codeOrder st) hi); try lia.
  - eapply phaseAt_weaken; [| |apply phaseAt_write]; lia.
  - intros x _. apply Hk.
Qed.

Ltac quiet := solve [respects_with extendsBy_leaf].

Lemma canStartResponding_phase s : phaseAt 2 2 (canStartResponding E) s.
Proof.
  unfold canStartResponding.
  destruct (0 <? searchResultsToConsider (getSettings E)).
  - apply (phaseAt_write_then 2 2 awaitingSearchResults); [simpl; lia|].
    intros _. apply phaseAt_quiet. quiet.
  - apply phaseAt_quiet. quiet.
Qed.

(** The response phase of a backend: await the search, prepare, then
    stream. *)
Lemma respond_phase {A} (request : M A) (stream : A -> M unit) s :
  respects (extendsBy notStateChange) request ->
  (forall x s1, phaseAt 4 5 (stream x) s1) ->
  phaseAt 2 5
    (canStartResponding E ;;
     updateTextGenerationState preparingToGenerate ;;
     untilUiIsUpdated E ;;
     x <- request ;;
     stream x) s.
Proof.
  intros Hreq Hstream.
  apply (phaseAt_bind 2 2 2 5); try lia; [apply canStartResponding_phase|].
  intros _ _.
  apply (phaseAt_write_then 2 5 preparingToGenerate); [simpl; lia|].
  intros _. simpl codeOrder.
  apply phaseAt_skip; [lia | quiet |]. intros _.
  apply phaseAt_skip; [lia | exact Hreq |]. intros x.
  eapply phaseAt_weaken; [| |apply Hstream]; lia.
Qed.

Lemma streaming_phase {T} (body : string -> T -> M string) stream s :
  (forall acc, respects inStream (consume E body stream acc)) ->
  phaseAt 4 5
    (streamedMessage <- consume E body stream "" ;;
     updateResponse streamedMessage) s.
Proof.
  intros H. apply phaseAt_tail; [lia | apply consume_phase; apply H |].
  intros x. quiet.
Qed.

Lemma generateTextWithOpenAI_phase s : phaseAt 2 5 (generateTextWithOpenAI E) s.
Proof.
  unfold generateTextWithOpenAI.
  apply phaseAt_skip; [lia | quiet |]. intros _.
  apply (respond_phase
           (messages <- reads (chatMessages E) ;;
            emit (EvCompletion OpenAI (ChatRequest messages)) ;;
            await E (openAiCreate E messages))
           (fun completion =>
              streamedMessage <- consume E openAiOnChunk completion "" ;;
              updateResponse streamedMessage)).
  - quiet.
  - intros completion s1. apply streaming_phase.
    intros acc. respects_with inStream_leaf.
Qed.

Lemma respond_phase_from {A} (rest : M A) s :
  (forall s1, phaseAt 3 5 rest s1) ->
  phaseAt 2 5
    (canStartResponding E ;;
     updateTextGenerationState preparingToGenerate ;;
     rest) s.
Proof.
  intros Hrest.
  apply (phaseAt_bind 2 2 2 5); try lia; [apply canStartResponding_phase|].
  intros _ _.
  apply (phaseAt_write_then 2 5 preparingToGenerate); [simpl; lia|].
  intros _. apply Hrest.
Qed.

Lemma generateTextWithWllama_phase s : phaseAt 2 5 (generateTextWithWllama E) s.
Proof.
  unfold generateTextWithWllama.
  apply phaseAt_skip; [lia | quiet |]. intros _.
  apply phaseAt_skip; [lia | quiet |]. intros _.
  destruct (wllamaModels E (wllamaModelId (getSettings E))) as [model|];
    [|apply phaseAt_quiet; quiet].
  apply phaseAt_skip; [lia | quiet |]. intros _.
  apply phaseAt_skip; [lia | quiet |]. intros _.
  apply phaseAt_skip; [lia | quiet |]. intros _.
  apply phaseAt_tail; [lia | | intros _; quiet].
  destruct (enableAiResponse (getSettings E)); [|apply phaseAt_quiet; quiet].
  apply respond_phase_from. intros s1.
  apply phaseAt_skip; [lia | quiet |]. intros _.
  apply phaseAt_skip; [lia | quiet |]. intros formatted.
  apply phaseAt_skip; [lia | quiet |]. intros prompt.
  apply phaseAt_skip; [lia | quiet |]. intros _.
  eapply phaseAt_weaken; [| |apply streaming_phase]; try lia.
  intros acc. respects_with inStream_leaf.
Qed.

Lemma await_ok_phase {A B} lo hi (v : A) (k : A -> M B) s :
  (lo <= hi)%nat ->
  (forall s1, phaseAt lo hi (k v) s1) ->
  phaseAt lo hi (bind (await E (Ok v)) k) s.
Proof.
  intros Hle Hk. unfold phaseAt. rewrite await_ok.
  destruct (Hk (snd (suspend E s))) as [e2 [H2 C2]].
  destruct (suspend_keepsGenerationState E s) as [_ [e1 [H1 Q1]]].
  exists (e1 ++ e2). rewrite H2, H1, app_assoc. split; [reflexivity|].
  rewrite stateHistory_app, (stateHistory_none _ Q1). exact C2.
Qed.

(** With the model not yet in the cache, WebLLM writes no state before
    its response phase. *)
Lemma generateTextWithWebLlm_phase s :
  hasModelInCache E (webLlmModelId (getSettings E)) = Ok false ->
  phaseAt 2 5 (generateTextWithWebLlm E) s.
Proof.
  intros Hcache. unfold generateTextWithWebLlm. cbv zeta.
  apply phaseAt_skip; [lia | quiet |]. intros _.
  apply phaseAt_skip; [lia | quiet |]. intros _.
  rewrite Hcache. apply await_ok_phase; [lia|]. intros s1. cbv iota.
  apply phaseAt_skip; [lia | quiet |]. intros _.
  apply phaseAt_skip; [lia | quiet |]. intros _.
  apply phaseAt_skip; [lia | quiet |]. intros _.
  apply phaseAt_skip; [lia | quiet |]. intros _.
  apply phaseAt_tail; [lia | | intros _; quiet].
  destruct (enableAiResponse (getSettings E)); [|apply phaseAt_quiet; quiet].
  apply respond_phase_from. intros s2.
  apply phaseAt_skip; [lia | quiet |]. intros _.
  apply phaseAt_skip; [lia | quiet |]. intros messages.
  apply phaseAt_skip; [lia | quiet |]. intros _.
  apply phaseAt_skip; [lia | quiet |]. intros completion.
  eapply phaseAt_weaken; [| |apply streaming_phase]; try lia.
  intros acc. respects_with inStream_leaf.
Qed.

Lemma markCompleted_phase s : phaseAt 5 5 markCompleted s.
Proof.
  unfold markCompleted, getTextGenerationState.
  unfold phaseAt. rewrite bind_reads.
  destruct (negb (tgs_eqb (textGenerationState s) interrupted)).
  - apply (phaseAt_write completed).
  - exists []. simpl. rewrite app_nil_r. auto.
Qed.

Lemma reportFailure_phase e s : phaseAt 5 5 (reportFailure e) s.
Proof.
  unfold reportFailure.
  apply phaseAt_skip; [lia | quiet |]. intros _. apply (phaseAt_write failed).
Qed.

Lemma fallBack_phase e s : phaseAt 2 5 (fallBack E e) s.
Proof.
  unfold fallBack.
  apply phaseAt_skip; [lia | quiet |]. intros _.
  apply phaseAt_skip; [lia | quiet |]. intros _.
  apply generateTextWithWllama_phase.
Qed.

Lemma generateText_phase s1 :
  singleAttempt E s1 -> phaseAt 2 5 (generateText E) s1.
Proof.
  intros Hsingle.
  change (generateText E)
    with ((if String.eqb (inferenceType (getSettings E)) "openai"
           then generateTextWithOpenAI E
           else tryCatch (webGpuGuard E ;; generateTextWithWebLlm E) (fallBack E)) ;;
          markCompleted).
  apply (phaseAt_bind 2 5 5 5); try lia; [|intros; apply markCompleted_phase].
  destruct (String.eqb_spec (inferenceType (getSettings E)) "openai") as [Ho|Ho];
    [apply generateTextWithOpenAI_phase|].
  assert (Hguard : forall msg : string,
            phaseAt 2 5 (tryCatch (@throw unit msg ;; generateTextWithWebLlm E)
                                  (fallBack E)) s1).
  { intros msg. apply (phaseAt_tryCatch 2 2 2 5); try lia.
    - exists []. simpl. rewrite app_nil_r. auto.
    - intros e _. apply fallBack_phase. }
  unfold webGpuGuard.
  destruct (isWebGPUAvailable E) eqn:Hgpu; simpl negb; cbv iota;
    [|apply Hguard].
  destruct (enableWebGpu (getSettings E)) eqn:Hen; simpl negb; cbv iota;
    [|apply Hguard].
  destruct Hsingle as [H|[H|[H|[Hc Hok]]]];
    [contradiction | congruence | congruence |].
  apply (phaseAt_tryCatch 2 5 5 5); try lia.
  - apply phaseAt_skip; [lia | quiet |]. intros _.
    apply generateTextWithWebLlm_phase. exact Hc.
  - intros e He. exfalso. unfold outcome in Hok.
    unfold bind at 1 in He. simpl in He. congruence.
Qed.

End Phases.

(** *** Where the stop is stored *)

Lemma stopsAtPollPoints_app a b :
  stopsSettled a -> stopsAtPollPoints b -> stopsAtPollPoints (a ++ b).
Proof.
  intros [Ha Hlast] Hb. induction a as [|e a IH]; [exact Hb|].
  assert (Htail : a <> [] -> last a EvSearchAwaited <> EvInterrupt).
  { intros Hne. destruct a; [contradiction | exact Hlast]. }
  destruct e; simpl in Ha |- *;
    try (destruct a as [|e' a'];
         [exact Hb | apply IH; [exact Ha | apply Htail; discriminate]]).
  destruct Ha as [Hnext Hrest].
  destruct a as [|e' a']; [contradiction|].
  split; [exact Hnext|]. apply IH; [exact Hrest | apply Htail; discriminate].
Qed.

Lemma last_app_nonempty {T} (a b : list T) (d : T) :
  b <> [] -> last (a ++ b) d = last b d.
Proof.
  intros Hb. induction a as [|x a IH]; [reflexivity|].
  simpl app. destruct (a ++ b) eqn:Hab.
  - destruct a; [simpl in Hab; contradiction | discriminate].
  - rewrite <- IH. reflexivity.
Qed.

Lemma stopsSettled_app a b : stopsSettled a -> stopsSettled b -> stopsSettled (a ++ b).
Proof.
  intros Ha Hb. split.
  - apply stopsAtPollPoints_app; [exact Ha | apply Hb].
  - destruct b as [|e b]; [rewrite app_nil_r; apply Ha|].
    rewrite last_app_nonempty by discriminate. apply Hb.
Qed.

#[global] Instance pollStops_PreOrder : PreOrder pollStops.
Proof.
  split.
  - intros s. exists []. rewrite app_nil_r. split; [reflexivity|].
    split; [exact I | discriminate].
  - intros a b c [e1 [H1 S1]] [e2 [H2 S2]]. exists (e1 ++ e2).
    rewrite H2, H1, app_assoc. split; [reflexivity|].
    apply stopsSettled_app; assumption.
Qed.

Lemma stopsSettled_quiet evs :
  Forall (fun e => e <> EvInterrupt) evs -> stopsSettled evs.
Proof.
  induction 1 as [|e evs He Hq IH]; [split; [exact I | discriminate]|].
  destruct IH as [IH1 IH2]. split.
  - destruct e; simpl; auto. contradiction.
  - destruct evs as [|e' evs']; [exact He | exact IH2].
Qed.

Lemma pollStops_quiet s s' :
  extendsBy (fun e => e <> EvInterrupt) s s' -> pollStops s s'.
Proof.
  intros [evs [Ht Hq]]. exists evs. split; [exact Ht|].
  apply stopsSettled_quiet, Hq.
Qed.

Section PollStops.
Variable E : Env.

Lemma suspend_pollStops : respects pollStops (suspend E).
Proof.
  intros s. apply pollStops_quiet.
  assert (H : respects (extendsBy (fun e => e <> EvInterrupt)) (suspend E))
    by respects_with extendsBy_leaf.
  apply H.
Qed.

(** A stop that arrives with an item is followed by the token event that
    opens the handler of the item. *)
Lemma forAwait_pollStops {T} (body : string -> T -> M string) b
      (rest : string -> T -> M string) :
  (forall acc t s, body acc t s = (emit (EvToken b) ;; rest acc t) s) ->
  (forall acc t, noThrow (rest acc t)) ->
  (forall acc t, respects pollStops (rest acc t)) ->
  forall items acc, respects pollStops (forAwait E body items acc).
Proof.
  intros Hbody Hn Hrest. induction items as [|a items IH]; intros acc s.
  - simpl. reflexivity.
  - simpl forAwait. rewrite bind_unit_ok by apply receive_noThrow.
    set (s1 := snd (receive E a s)).
    assert (Hstep : pollStops s (snd (body acc (payload a) s1))).
    { rewrite Hbody. rewrite bind_unit_ok by noThrow_tac.
      etransitivity; [|apply Hrest].
      subst s1. unfold receive.
      rewrite bind_unit_ok by noThrow_tac. rewrite bind_unit_ok by noThrow_tac.
      destruct (suspend_pollStops s) as [evs [Ht Hs]].
      destruct (stopPressed a).
      - exists (evs ++ [EvInterrupt; EvToken b]).
        cbn [userInterrupts bind writeTextGenerationState emit advanceClock
             snd trace].
        rewrite Ht, <- !app_assoc. split; [reflexivity|].
        apply stopsSettled_app; [exact Hs|].
        split; [simpl; auto | discriminate].
      - exists (evs ++ [EvToken b]).
        cbn [ret emit advanceClock snd trace].
        rewrite Ht, <- !app_assoc. split; [reflexivity|].
        apply stopsSettled_app; [exact Hs|].
        split; [simpl; auto | discriminate]. }
    assert (Hnb : noThrow (body acc (payload a))).
    { intros s0. rewrite Hbody. rewrite bind_unit_ok by noThrow_tac. apply Hn. }
    destruct (bind_noThrow (body acc (payload a))
                (fun acc' => forAwait E body items acc') s1 Hnb)
      as [acc' [_ ->]].
    etransitivity; [exact Hstep | apply IH].
Qed.

End PollStops.

Ltac pollStops_primitive :=
  on_primitive ltac:(idtac); intros ?s; apply pollStops_quiet; extendsBy_step.

Ltac pollStops_basic :=
  idtac;
  lazymatch goal with
  | |- respects _ (suspend _) => apply suspend_pollStops
  | |- respects _ (emit EvInterrupt) => fail
  | _ => pollStops_primitive
  end.

Ltac pollStops_leaf :=
  idtac;
  lazymatch goal with
  | |- respects _ (forAwait _ openAiOnChunk _ _) =>
      apply (forAwait_pollStops _ openAiOnChunk OpenAI
               (fun streamedMessage deltaContent =>
                  let streamedMessage := appendDelta streamedMessage deltaContent in
                  st <- getTextGenerationState ;;
                  (if tgs_eqb st interrupted then emit (EvAbort OpenAI)
                   else
                     st' <- getTextGenerationState ;;
                     if negb (tgs_eqb st' generating)
                     then updateTextGenerationState generating
                     else ret tt) ;;
                  updateResponseRateLimited streamedMessage ;;
                  ret streamedMessage));
      [ reflexivity | noThrow_tac | intros; respects_with pollStops_basic ]
  | |- respects _ (forAwait ?E (webLlmOnChunk _) _ _) =>
      apply (forAwait_pollStops _ (webLlmOnChunk E) WebLlm
               (fun streamedMessage deltaContent =>
                  let streamedMessage := appendDelta streamedMessage deltaContent in
                  st <- getTextGenerationState ;;
                  (if tgs_eqb st interrupted then emit (EvAbort WebLlm) ;; suspend E
                   else
                     st' <- getTextGenerationState ;;
                     if negb (tgs_eqb st' generating)
                     then updateTextGenerationState generating
                     else ret tt) ;;
                  updateResponseRateLimited streamedMessage ;;
                  ret streamedMessage));
      [ reflexivity | noThrow_tac | intros; respects_with pollStops_basic ]
  | |- respects _ (forAwait _ (onNewToken ?model) _ _) =>
      apply (forAwait_pollStops _ (onNewToken model) Wllama
               (fun (streamedMessage currentText : string) =>
                  st <- getTextGenerationState ;;
                  (if tgs_eqb st interrupted then emit (EvAbort Wllama)
                   else
                     st' <- getTextGenerationState ;;
                     if negb (tgs_eqb st' generating)
                     then updateTextGenerationState generating
                     else ret tt) ;;
                  currentText <-
                    (match stopStrings model with
                     | Some stops => cutAtStopString stops currentText
                     | None => ret currentText
                     end) ;;
                  let streamedMessage := currentText in
                  updateResponseRateLimited streamedMessage ;;
                  ret streamedMessage));
      [ reflexivity | noThrow_tac | intros; respects_with pollStops_basic ]
  | _ => pollStops_basic
  end.

(** In the embedding the stop reaches the store in [receive] only, so
    every run stores every stop at a poll point. *)
Lemma prepareTextGeneration_pollStops E :
  respects pollStops (prepareTextGeneration E).
Proof. respects_with pollStops_leaf. Qed.

Lemma prepareTextGeneration_stopsAtPollPoints E s :
  stopsAtPollPoints (newEvents (prepareTextGeneration E) s).
Proof.
  destruct (prepareTextGeneration_pollStops E s) as [evs [Ht [Hs _]]].
  rewrite (newEvents_spec _ s evs Ht). exact Hs.
Qed.

(** C4, counterexample.  The WebLLM stream breaks after its first chunk,
    when the state is already "generating"; the Wllama fallback then
    starts over from "awaitingSearchResults". *)
Lemma C4_counterexample :
  ~ forwardInGlossaryOrder (Samples.env "browser" 3 true Samples.broken)
                           Samples.store0.
Proof.
  intros H.
  destruct (H [loadingModel; awaitingSearchResults; preparingToGenerate]
              generating awaitingSearchResults
              [preparingToGenerate; generating; completed])
    as [ra [rb [Ha [Hb Hle]]]].
  - vm_compute. reflexivity.
  - simpl in Ha, Hb. injection Ha as <-. injection Hb as <-. lia.
Qed.

Lemma stateHistory_notIdle evs :
  Forall notIdle evs -> ~ In idle (stateHistory evs).
Proof.
  induction 1 as [|e evs He _ IH]; simpl; [tauto|].
  destruct e; simpl; try exact IH.
  - intros [H|H]; [subst; apply He; reflexivity | tauto].
  - intros [H|H]; [discriminate | tauto].
Qed.

Lemma enterGeneration_history E s :
  exists evs, trace (snd (enterGeneration E s)) = trace s ++ evs /\
              stateHistory evs = [loadingModel].
Proof.
  unfold enterGeneration.
  repeat (rewrite bind_unit_ok by noThrow_tac).
  match goal with |- context [untilUiIsUpdated E ?st] =>
    destruct (suspend_keepsGenerationState E st) as [_ [e2 [H2 Q2]]];
    assert (H1 : exists e1, trace st = trace s ++ e1 /\
                            stateHistory e1 = [loadingModel])
  end.
  { eexists. split.
    - cbn [updateTextGenerationState updateSearchPromise_startSearch
           startSearch_begin updateSearchState updateSearchResults
           updateResponse setDocumentTitle bind reads emit writeResponse
           writeSearchResults writeSearchState writeSearchPromise
           writeTextGenerationState snd trace].
      rewrite <- !app_assoc. reflexivity.
    - reflexivity. }
  destruct H1 as [e1 [H1 Hh]].
  exists (e1 ++ e2). unfold untilUiIsUpdated. rewrite H2, H1, app_assoc.
  split; [reflexivity|].
  rewrite stateHistory_app, Hh, (stateHistory_none _ Q2). reflexivity.
Qed.

Lemma generateText_ending E s1 :
  let s3 := snd (tryCatch (generateText E) reportFailure s1) in
  textGenerationState s3 = completed \/
  textGenerationState s3 = failed \/
  textGenerationState s3 = interrupted.
Proof.
  intros s3. subst s3. unfold tryCatch.
  destruct (generateText E s1) as [[[]|e] s2] eqn:Hg.
  - change (generateText E)
      with ((if String.eqb (inferenceType (getSettings E)) "openai"
             then generateTextWithOpenAI E
             else tryCatch (webGpuGuard E ;; generateTextWithWebLlm E)
                           (fallBack E)) ;;
            markCompleted) in Hg.
    apply bind_Ok in Hg. destruct Hg as [[] [sx [_ Hm]]].
    destruct (markCompleted_run sx) as [_ [Ht _]].
    rewrite Hm in Ht. simpl in Ht. simpl. rewrite Ht. unfold endState.
    destruct (tgs_eqb (textGenerationState sx) interrupted); auto.
  - right. left. reflexivity.
Qed.

(** The events of a run, in its three parts: up to the [try], the [try]
    statement, and what follows. *)
Lemma prepareTextGeneration_events E s :
  getQuery E <> ""%string ->
  enableAiResponse (getSettings E) = true ->
  exists e1 e2 e3,
    trace (snd (enterGeneration E s)) = trace s ++ e1 /\
    stateHistory e1 = [loadingModel] /\
    trace (snd (tryCatch (generateText E) reportFailure
                  (snd (enterGeneration E s))))
    = trace (snd (enterGeneration E s)) ++ e2 /\
    Forall notStateChange e3 /\
    trace (after (prepareTextGeneration E) s) = trace s ++ e1 ++ e2 ++ e3.
Proof.
  intros Hq Hen.
  destruct (prepareTextGeneration_enabled E s Hq Hen) as [entry Hrun].
  destruct (enterGeneration_history E s) as [e1 [H1 Hh1]].
  destruct (grows_after (tryCatch (generateText E) reportFailure)
              (snd (enterGeneration E s)))
    as [e2 H2]; [unfold reportFailure; respects_with extendsBy_leaf|].
  destruct (suspend_keepsGenerationState E
              (snd (tryCatch (generateText E) reportFailure
                      (snd (enterGeneration E s)))))
    as [_ [e3 [H3 Q3]]].
  exists e1, e2, e3. repeat (split; [assumption|]).
  unfold after. rewrite Hrun.
  transitivity (trace (snd (suspend E
                  (snd (tryCatch (generateText E) reportFailure
                          (snd (enterGeneration E s))))))); [reflexivity|].
  rewrite H3, H2, H1, <- !app_assoc. reflexivity.
Qed.

Lemma prepareTextGeneration_notIdle E :
  respects (extendsBy notIdle) (prepareTextGeneration E).
Proof.
  respects_with ltac:(on_primitive ltac:(idtac); intros ?s; first
    [ exists []; simpl; rewrite app_nil_r; split; [reflexivity | constructor]
    | eexists [_]; simpl; split;
      [reflexivity | constructor; [discriminate | constructor]] ]).
Qed.

Lemma tryGenerateText_phase E s1 :
  singleAttempt E s1 ->
  phaseAt 2 5 (tryCatch (generateText E) reportFailure) s1.
Proof.
  intros Hsingle.
  apply (phaseAt_tryCatch 2 5 5 5); [lia | lia | lia | |].
  - apply generateText_phase. exact Hsingle.
  - intros e _. apply reportFailure_phase.
Qed.

(** C4, amended.  In a run with a non-empty query and AI responses
    enabled the state is first set to "loadingModel", is never set to
    "idle", and is "completed", "failed" or "interrupted" at the end.
    When the request is served by a single attempt that writes no state
    before its response phase (OpenAI; Wllama because WebGPU is unavailable
    or disabled; WebLLM with an uncached model, returning normally), and
    every stop of the user is stored while the routine waits for a
    streamed token, the state only moves forward along loadingModel,
    awaitingSearchResults, preparingToGenerate, generating, and then the
    terminal states.  (A stop stored at an earlier await is outside this
    statement: the next state the module writes replaces it.) *)
Theorem C4_generation_states (E : Env) (s : Store) :
  getQuery E <> ""%string ->
  enableAiResponse (getSettings E) = true ->
  let s' := after (prepareTextGeneration E) s in
  let history := stateHistory (newEvents (prepareTextGeneration E) s) in
  trace s' = trace s ++ newEvents (prepareTextGeneration E) s /\
  (exists rest, history = loadingModel :: rest) /\
  ~ In idle history /\
  (textGenerationState s' = completed \/
   textGenerationState s' = failed \/
   textGenerationState s' = interrupted) /\
  (singleAttempt E (snd (enterGeneration E s)) ->
   stopsAtPollPoints (newEvents (prepareTextGeneration E) s) ->
   movesForward (fun st => Some (codeOrder st)) history).
Proof.
  intros Hq Hen s' history.
  destruct (prepareTextGeneration_ending E s Hq Hen) as [Htgs _].
  destruct (prepareTextGeneration_events E s Hq Hen)
    as [e1 [e2 [e3 [H1 [Hh1 [H2 [Q3 Htrace]]]]]]].
  pose proof (newEvents_spec _ _ _ Htrace) as Hnew.
  assert (Hhist : history = loadingModel :: stateHistory e2).
  { unfold history. rewrite Hnew, !stateHistory_app, Hh1,
      (stateHistory_none _ Q3), app_nil_r. reflexivity. }
  split; [rewrite Hnew; exact Htrace|].
  split; [exists (stateHistory e2); exact Hhist|].
  split; [|split].
  - destruct (prepareTextGeneration_notIdle E s) as [evs [Ht Hf]].
    unfold history. rewrite (newEvents_spec _ _ _ Ht).
    apply stateHistory_notIdle. exact Hf.
  - unfold s'. rewrite Htgs. apply generateText_ending.
  - intros Hsingle _. rewrite Hhist.
    destruct (tryGenerateText_phase E _ Hsingle) as [e2' [H2' C2]].
    assert (e2' = e2) by (rewrite H2 in H2'; eapply app_inv_head; eauto).
    subst e2'.
    apply (climbs_movesForward 1 5). simpl. split; [lia|].
    eapply climbs_weaken; [| |exact C2]; lia.
Qed.

Lemma C4_generation_states_witness :
  movesForward (fun st => Some (codeOrder st))
    (stateHistory
       (newEvents (prepareTextGeneration
                     (Samples.env "browser" 3 true Samples.stopped))
                  Samples.store0)).
Proof.
  apply (C4_generation_states (Samples.env "browser" 3 true Samples.stopped)
           Samples.store0 ltac:(discriminate) ltac:(reflexivity)).
  - right. right. right. split; vm_compute; reflexivity.
  - vm_compute. tauto.
Defined.

(* ================================================================== *)
(** ** The stop strings of a Wllama model *)
(* ================================================================== *)

Lemma length_append_string (a b : string) :
  String.length (a ++ b)%string = (String.length a + String.length b)%nat.
Proof. induction a as [|c a IH]; simpl; [reflexivity | rewrite IH; reflexivity]. Qed.

Lemma substring_zero_append (a b : string) :
  String.substring 0 (String.length a) (a ++ b)%string = a.
Proof. induction a as [|c a IH]; simpl; [destruct b; reflexivity | rewrite IH; reflexivity]. Qed.

Lemma substring_skip_append (a b : string) (m : nat) :
  String.substring (String.length a) m (a ++ b)%string = String.substring 0 m b.
Proof. induction a as [|c a IH]; simpl; [reflexivity | exact IH]. Qed.

Lemma substring_zero_all (a : string) :
  String.substring 0 (String.length a) a = a.
Proof. induction a as [|c a IH]; simpl; [reflexivity | rewrite IH; reflexivity]. Qed.

Lemma substring_split (s : string) (k : nat) :
  (k <= String.length s)%nat ->
  s = (String.substring 0 k s ++ String.substring k (String.length s - k) s)%string.
Proof.
  revert k. induction s as [|c s IH]; intros k Hk; simpl in *.
  - destruct k; reflexivity.
  - destruct k as [|k]; simpl.
    + rewrite substring_zero_all. reflexivity.
    + rewrite <- IH by lia. reflexivity.
Qed.

Lemma length_substring (s : string) (n m : nat) :
  (n + m <= String.length s)%nat -> String.length (String.substring n m s) = m.
Proof.
  revert n m. induction s as [|c s IH]; intros n m H; simpl in *.
  - destruct n, m; simpl in *; try lia; reflexivity.
  - destruct n as [|n].
    + destruct m as [|m]; simpl; [reflexivity|]. rewrite IH by lia. reflexivity.
    + apply IH. lia.
Qed.

Lemma length_substring_le (s : string) (n m : nat) :
  (String.length (String.substring n m s) <= String.length s)%nat.
Proof.
  revert n m. induction s as [|c s IH]; intros n m; simpl.
  - destruct n, m; simpl; lia.
  - destruct n as [|n].
    + destruct m as [|m]; simpl; [lia|]. specialize (IH 0%nat m). lia.
    + specialize (IH n m). lia.
Qed.

Lemma prefix_length (a b : string) :
  String.prefix a b = true -> (String.length a <= String.length b)%nat.
Proof.
  revert b. induction a as [|c a IH]; intros b H; [simpl; lia|].
  destruct b as [|d b]; simpl in H; [discriminate|].
  destruct (ascii_dec c d); [|discriminate]. apply IH in H. simpl. lia.
Qed.

Lemma prefix_append (a b : string) : String.prefix a (a ++ b)%string = true.
Proof.
  induction a as [|c a IH]; simpl; [destruct b; reflexivity|].
  destruct (ascii_dec c c); [exact IH | contradiction].
Qed.

Lemma includes_length (needle hay : string) :
  Js.includes needle hay = true -> (String.length needle <= String.length hay)%nat.
Proof.
  induction hay as [|c hay IH]; cbn [Js.includes]; intros H.
  - destruct (String.prefix needle "") eqn:Hp; [|discriminate].
    apply prefix_length in Hp. exact Hp.
  - destruct (String.prefix needle (String c hay)) eqn:Hp.
    + apply prefix_length in Hp. exact Hp.
    + apply IH in H. cbn [String.length]. lia.
Qed.

Lemma includes_append (a needle b : string) :
  Js.includes needle (a ++ needle ++ b)%string = true.
Proof.
  induction a as [|c a IH]; cbn [append Js.includes].
  - pose proof (prefix_append needle b) as Hp.
    destruct (needle ++ b)%string; cbn [Js.includes]; rewrite Hp; reflexivity.
  - rewrite IH. destruct (String.prefix needle _); reflexivity.
Qed.

Lemma substring_append_left (a b : string) (f : nat) :
  (f <= String.length a)%nat ->
  String.substring f (String.length a - f + String.length b) (a ++ b)%string
  = (String.substring f (String.length a - f) a ++ b)%string.
Proof.
  revert f. induction a as [|c a IH]; intros f Hf; simpl in *.
  - assert (f = 0%nat) by lia. subst f. simpl. apply substring_zero_all.
  - destruct f as [|f].
    + simpl. f_equal. specialize (IH 0%nat ltac:(lia)).
      rewrite Nat.sub_0_r in IH. exact IH.
    + apply IH. lia.
Qed.

Lemma substring_nothing (s : string) (n : nat) : String.substring n 0 s = ""%string.
Proof.
  revert n. induction s as [|c s IH]; intros n; simpl.
  - destruct n; reflexivity.
  - destruct n; [reflexivity | apply IH].
Qed.

(** What [currentText.slice(0, -stopString.length)] keeps. *)
Lemma strSlice_drop_last (text : string) (n : nat) :
  (0 < n <= String.length text)%nat ->
  Js.strSlice 0 (Some (- Z.of_nat n)) text
  = String.substring 0 (String.length text - n) text.
Proof.
  intros Hn. unfold Js.strSlice, Js.clampIndex.
  destruct (Z.ltb_spec 0 0) as [H0|_]; [lia|].
  destruct (Z.ltb_spec (- Z.of_nat n) 0) as [_|H1]; [|lia].
  rewrite Z.min_l by lia. rewrite Z.max_l by lia. rewrite Z.sub_0_r.
  simpl Z.to_nat at 1.
  replace (Z.to_nat (Z.of_nat (String.length text) + - Z.of_nat n))
    with (String.length text - n)%nat by lia.
  reflexivity.
Qed.

Lemma strSlice_drop_nothing (text : string) :
  Js.strSlice 0 (Some (- Z.of_nat 0)) text = ""%string.
Proof.
  unfold Js.strSlice, Js.clampIndex. simpl Z.of_nat. simpl Z.opp.
  destruct (Z.ltb_spec 0 0) as [H0|_]; [lia|].
  rewrite Z.min_l by lia. simpl. apply substring_nothing.
Qed.

Lemma stopWindow_length (stop text : string) :
  (String.length (stopWindow stop text) <= String.length text)%nat.
Proof. unfold stopWindow, Js.strSlice. apply length_substring_le. Qed.

Lemma stopFound_length (stop text : string) :
  stopFound stop text = true -> (String.length stop <= String.length text)%nat.
Proof.
  unfold stopFound. intros H. apply includes_length in H.
  pose proof (stopWindow_length stop text). lia.
Qed.

Lemma stopFound_trailing (body stop : string) :
  stopFound stop (body ++ stop) = true.
Proof.
  unfold stopFound, stopWindow, Js.strSlice, Js.clampIndex.
  rewrite length_append_string.
  set (n := String.length stop). set (b := String.length body).
  destruct (Z.ltb_spec (- (Z.of_nat n * 2)) 0) as [Hneg|Hzero].
  - set (f := Z.to_nat (Z.max (Z.of_nat (b + n) + - (Z.of_nat n * 2)) 0)).
    assert (Hf : (f <= b)%nat) by (subst f; lia).
    replace (Z.to_nat (Z.of_nat (b + n)
               - Z.max (Z.of_nat (b + n) + - (Z.of_nat n * 2)) 0))
      with (b - f + n)%nat by (subst f; lia).
    subst b n. rewrite substring_append_left by exact Hf.
    rewrite <- (append_empty_r stop) at 2. apply includes_append.
  - assert (n = 0%nat) by lia. destruct stop; [|discriminate].
    destruct (String.substring _ _ _); reflexivity.
Qed.

Lemma cutAtStopString_none stops text s :
  noStopFound text stops -> cutAtStopString stops text s = (Ok text, s).
Proof.
  induction 1 as [|stop rest Hstop _ IH]; simpl; [reflexivity|].
  unfold stopFound, stopWindow in Hstop. rewrite Hstop. exact IH.
Qed.

Lemma cutAtStopString_first pre stop post text s :
  noStopFound text pre -> stopFound stop text = true ->
  cutAtStopString (pre ++ stop :: post) text s
  = (Ok (Js.strSlice 0 (Some (- Z.of_nat (String.length stop))) text),
     snd (emit (EvAbort Wllama) s)).
Proof.
  intros Hpre Hstop. induction Hpre as [|other rest Hother _ IH]; simpl.
  - unfold stopFound, stopWindow in Hstop. rewrite Hstop. reflexivity.
  - unfold stopFound, stopWindow in Hother. rewrite Hother. exact IH.
Qed.

Lemma stops_split text (stops : list string) :
  noStopFound text stops \/
  exists pre stop post,
    stops = pre ++ stop :: post /\ noStopFound text pre /\
    stopFound stop text = true.
Proof.
  induction stops as [|stop rest IH]; [left; constructor|].
  destruct (stopFound stop text) eqn:Hstop.
  - right. exists [], stop, rest. repeat split; [constructor | exact Hstop].
  - destruct IH as [Hnone|[pre [stop' [post [Heq [Hpre Hfound]]]]]].
    + left. constructor; assumption.
    + right. exists (stop :: pre), stop', post. rewrite Heq.
      repeat split; [constructor; assumption | exact Hfound].
Qed.

(** X1.  The stop-string loop of [onNewToken] splits the text it is
    given into the part it keeps and the part it cuts, and returns the
    part it keeps.  Either none of the stop strings occurs in its window
    at the end of the text: then nothing is cut and nothing else happens.
    Or the completion is aborted once, for the first stop string of the
    list that occurs there: then as many characters as this stop string
    has are cut from the end of the text; for an empty stop string the
    loop keeps nothing of the text. *)
Theorem X1_stop_string_cut (stops : list string) (currentText : string) (s : Store) :
  exists kept cut,
    currentText = (kept ++ cut)%string /\
    outcome (cutAtStopString stops currentText) s = Ok kept /\
    ((noStopFound currentText stops /\ cut = ""%string /\
      after (cutAtStopString stops currentText) s = s) \/
     (exists pre stop post,
        stops = pre ++ stop :: post /\
        noStopFound currentText pre /\
        stopFound stop currentText = true /\
        (stop <> ""%string -> String.length cut = String.length stop) /\
        (stop = ""%string -> kept = ""%string) /\
        trace (after (cutAtStopString stops currentText) s)
        = trace s ++ [EvAbort Wllama])).
Proof.
  destruct (stops_split currentText stops)
    as [Hnone|[pre [stop [post [Heq [Hpre Hfound]]]]]].
  - exists currentText, ""%string. unfold outcome, after.
    rewrite (cutAtStopString_none _ _ _ Hnone). cbn [fst snd].
    split; [symmetry; apply append_empty_r|]. split; [reflexivity|].
    left. auto.
  - pose proof (stopFound_length _ _ Hfound) as Hlen.
    unfold outcome, after. rewrite Heq.
    rewrite (cutAtStopString_first _ _ _ _ _ Hpre Hfound). cbn [fst snd].
    destruct stop as [|c stop].
    + exists ""%string, currentText. rewrite strSlice_drop_nothing.
      split; [reflexivity|]. split; [reflexivity|]. right.
      exists pre, ""%string, post. repeat split; auto. congruence.
    + set (n := String.length (String c stop)) in *.
      assert (Hn : (0 < n <= String.length currentText)%nat)
        by (subst n; cbn [String.length] in *; lia).
      rewrite strSlice_drop_last by exact Hn.
      exists (String.substring 0 (String.length currentText - n) currentText),
             (String.substring (String.length currentText - n)
                (String.length currentText - (String.length currentText - n))
                currentText).
      split; [apply substring_split; lia|]. split; [reflexivity|]. right.
      exists pre, (String c stop), post. repeat split; auto.
      * intros _. rewrite length_substring by lia. fold n. lia.
      * discriminate.
Qed.

(** X2.  When the text ends on a stop string that is not empty, and no
    stop string earlier in the list is found, the loop aborts the
    completion and returns the text without the stop string. *)
Theorem X2_trailing_stop_string_removed
        (pre post : list string) (stop body : string) (s : Store) :
  stop <> ""%string ->
  noStopFound (body ++ stop) pre ->
  cutAtStopString (pre ++ stop :: post) (body ++ stop) s
  = (Ok body, after (emit (EvAbort Wllama)) s).
Proof.
  intros Hstop Hpre.
  rewrite (cutAtStopString_first _ _ _ _ _ Hpre (stopFound_trailing body stop)).
  rewrite strSlice_drop_last.
  - rewrite length_append_string.
    replace (String.length body + String.length stop - String.length stop)%nat
      with (String.length body) by lia.
    rewrite substring_zero_append. reflexivity.
  - rewrite length_append_string. destruct stop; [contradiction|].
    cbn [String.length]. lia.
Qed.

Lemma X2_trailing_stop_string_removed_witness :
  cutAtStopString ["</s>"; "<|im_end|>"; "<|end|>"] "Hello<|im_end|>"
                  Samples.store0
  = (Ok "Hello"%string, after (emit (EvAbort Wllama)) Samples.store0).
Proof.
  apply (X2_trailing_stop_string_removed ["</s>"%string] ["<|end|>"%string]
           "<|im_end|>" "Hello" Samples.store0).
  - discriminate.
  - constructor; [reflexivity | constructor].
Defined.

Lemma substring_zero_append_more (a b : string) (k : nat) :
  String.substring 0 (String.length a + k) (a ++ b)%string
  = (a ++ String.substring 0 k b)%string.
Proof. induction a as [|c a IH]; simpl; [reflexivity | rewrite IH; reflexivity]. Qed.

Lemma substring_zero_within (a b : string) (k : nat) :
  (k <= String.length a)%nat ->
  String.substring 0 k (a ++ b)%string = String.substring 0 k a.
Proof.
  revert k. induction a as [|c a IH]; intros k Hk; simpl in *.
  - assert (k = 0%nat) by lia. subst k. destruct b; reflexivity.
  - destruct k as [|k]; [reflexivity|]. rewrite IH by lia. reflexivity.
Qed.

Lemma stopFound_near_end (body stop more : string) :
  (String.length more <= String.length stop)%nat ->
  stopFound stop (body ++ stop ++ more) = true.
Proof.
  intros Hmore.
  unfold stopFound, stopWindow, Js.strSlice, Js.clampIndex.
  rewrite length_append_string.
  set (n := String.length stop). set (b := String.length body).
  set (r := String.length (stop ++ more)).
  assert (Hr : (n <= r <= n + n)%nat)
    by (subst r n; rewrite length_append_string; lia).
  destruct (Z.ltb_spec (- (Z.of_nat n * 2)) 0) as [Hneg|Hzero].
  - set (f := Z.to_nat (Z.max (Z.of_nat (b + r) + - (Z.of_nat n * 2)) 0)).
    assert (Hf : (f <= b)%nat) by (subst f; lia).
    replace (Z.to_nat (Z.of_nat (b + r)
               - Z.max (Z.of_nat (b + r) + - (Z.of_nat n * 2)) 0))
      with (b - f + r)%nat by (subst f; lia).
    subst b r. rewrite substring_append_left by exact Hf.
    apply includes_append.
  - assert (n = 0%nat) by lia. destruct stop; [|discriminate].
    destruct (String.substring _ _ _); reflexivity.
Qed.

(** X3.  The loop cuts by length, not at the place of the stop string.
    When the stop string is followed by further characters, at most as
    many as it has itself, the completion is aborted and the returned
    text still holds the first characters of the stop string, as many as
    followed it. *)
Theorem X3_stop_string_before_the_end
        (pre post : list string) (stop body more : string) (s : Store) :
  stop <> ""%string ->
  (String.length more <= String.length stop)%nat ->
  noStopFound (body ++ stop ++ more) pre ->
  cutAtStopString (pre ++ stop :: post) (body ++ stop ++ more) s
  = (Ok (body ++ String.substring 0 (String.length more) stop)%string,
     after (emit (EvAbort Wllama)) s).
Proof.
  intros Hstop Hmore Hpre.
  rewrite (cutAtStopString_first _ _ _ _ _ Hpre
             (stopFound_near_end body stop more Hmore)).
  rewrite strSlice_drop_last.
  - rewrite !length_append_string.
    replace (String.length body + (String.length stop + String.length more)
             - String.length stop)%nat
      with (String.length body + String.length more)%nat by lia.
    rewrite substring_zero_append_more, substring_zero_within by exact Hmore.
    reflexivity.
  - rewrite !length_append_string. destruct stop; [contradiction|].
    cbn [String.length]. lia.
Qed.

Lemma X3_stop_string_before_the_end_witness :
  cutAtStopString ["<|im_end|>"%string] "Hello<|im_end|>!" Samples.store0
  = (Ok "Hello<"%string, after (emit (EvAbort Wllama)) Samples.store0).
Proof.
  apply (X3_stop_string_before_the_end [] [] "<|im_end|>" "Hello" "!"
           Samples.store0).
  - discriminate.
  - simpl. lia.
  - constructor.
Defined.

(* ================================================================== *)
(** ** What the response updates of a stream carry *)
(* ================================================================== *)

Lemma cutAtStopString_value stops text s :
  fst (cutAtStopString stops text s) = Ok (textAfterStops stops text).
Proof.
  induction stops as [|stop rest IH]; simpl; [reflexivity|].
  unfold stopFound, stopWindow.
  destruct (Js.includes _ _); [reflexivity | exact IH].
Qed.

Lemma respects_bind_value (R : Store -> Store -> Prop) {R_pre : PreOrder R}
      {A B} (m : M A) (k : A -> M B) a :
  (forall s, fst (m s) = Ok a) -> respects R m -> respects R (k a) ->
  respects R (bind m k).
Proof.
  intros Hv Hm Hk s. unfold bind. specialize (Hv s). specialize (Hm s).
  destruct (m s) as [[a'|e] s1]; simpl in *; [|discriminate].
  injection Hv as ->. etransitivity; [exact Hm | apply Hk].
Qed.

Lemma shown_value model text s :
  fst (match stopStrings model with
       | Some stops => cutAtStopString stops text
       | None => ret text
       end s) = Ok (shownText model text).
Proof.
  unfold shownText. destruct (stopStrings model); [apply cutAtStopString_value|].
  reflexivity.
Qed.

Lemma onNewToken_value model acc text s :
  fst (onNewToken model acc text s) = Ok (shownText model text).
Proof.
  unfold onNewToken.
  rewrite bind_unit_ok by noThrow_tac.
  unfold getTextGenerationState at 1. rewrite bind_reads.
  rewrite bind_unit_ok by noThrow_tac.
  match goal with |- fst (bind ?m ?k ?st) = _ =>
    pose proof (shown_value model text st) as Hv;
    unfold bind at 1; destruct (m st) as [[a|e] s1]
  end; simpl in Hv; [|discriminate].
  injection Hv as ->. cbv zeta.
  rewrite bind_unit_ok by noThrow_tac. reflexivity.
Qed.

Section Responses.
Variable E : Env.

Lemma openAiOnChunk_responds acc d :
  respects (extendsBy (respondsWith (eq (appendDelta acc d))))
           (openAiOnChunk acc d).
Proof. respects_with extendsBy_leaf. Qed.

Lemma webLlmOnChunk_responds acc d :
  respects (extendsBy (respondsWith (eq (appendDelta acc d))))
           (webLlmOnChunk E acc d).
Proof. respects_with extendsBy_leaf. Qed.

Lemma onNewToken_responds model acc text :
  respects (extendsBy (respondsWith (eq (shownText model text))))
           (onNewToken model acc text).
Proof.
  unfold onNewToken.
  apply respects_bind; [typeclasses eauto | respects_with extendsBy_leaf|].
  intros _.
  apply respects_bind; [typeclasses eauto | respects_with extendsBy_leaf|].
  intros st.
  apply respects_bind; [typeclasses eauto | respects_with extendsBy_leaf|].
  intros _.
  apply (respects_bind_value _ _ _ (shownText model text)).
  - intros s. apply shown_value.
  - respects_with extendsBy_leaf.
  - respects_with extendsBy_leaf.
Qed.

Lemma receive_quiet {T} (a : Arrival T) good :
  respects (extendsBy (respondsWith good)) (receive E a).
Proof. respects_with extendsBy_leaf. Qed.

Lemma suspend_quiet good : respects (extendsBy (respondsWith good)) (suspend E).
Proof. respects_with extendsBy_leaf. Qed.

(** Inside a streaming loop every response update carries the value the
    handler had returned for one of the items received so far. *)
Lemma forAwait_responds {T} (body : string -> T -> M string)
      (f : string -> T -> string) :
  (forall acc t s, fst (body acc t s) = Ok (f acc t)) ->
  (forall acc t, respects (extendsBy (respondsWith (eq (f acc t)))) (body acc t)) ->
  forall items acc,
    respects
      (extendsBy (respondsWith (fun text =>
         exists k, (0 < k <= List.length items)%nat /\
                   text = fold_left f (firstn k (map payload items)) acc)))
      (forAwait E body items acc).
Proof.
  intros Hv Hb. induction items as [|a rest IH]; intros acc; simpl forAwait.
  - apply respects_ret. typeclasses eauto.
  - apply respects_bind; [typeclasses eauto | apply receive_quiet|]. intros _.
    apply (respects_bind_value _ _ _ (f acc (payload a))).
    + intros s. apply Hv.
    + intros s. eapply extendsBy_weaken; [|apply Hb].
      intros [] He; simpl in *; auto.
      exists 1%nat. split; [simpl; lia|]. subst. reflexivity.
    + intros s. eapply extendsBy_weaken; [|apply IH].
      intros [] He; simpl in *; auto.
      destruct He as [k [Hk ->]]. exists (S k). split; [lia | reflexivity].
Qed.

Lemma consume_responds {T} (body : string -> T -> M string)
      (f : string -> T -> string) :
  (forall acc t s, fst (body acc t s) = Ok (f acc t)) ->
  (forall acc t, respects (extendsBy (respondsWith (eq (f acc t)))) (body acc t)) ->
  forall stream acc,
    respects
      (extendsBy (respondsWith (fun text =>
         exists k, (0 < k <= List.length (arrivals stream))%nat /\
           text = fold_left f (firstn k (map payload (arrivals stream))) acc)))
      (consume E body stream acc).
Proof.
  intros Hv Hb stream acc. unfold consume.
  apply respects_bind;
    [typeclasses eauto | apply forAwait_responds; assumption|]. intros acc'.
  apply respects_bind; [typeclasses eauto | apply suspend_quiet|]. intros _.
  destruct (failure stream); [apply respects_throw | apply respects_ret];
    typeclasses eauto.
Qed.

End Responses.

Lemma fold_left_last {T} (g : T -> string) (l : list T) (acc : string) :
  fold_left (fun _ t => g t) l acc = last (map g l) acc.
Proof.
  revert acc. induction l as [|t rest IH]; intros acc; [reflexivity|].
  simpl fold_left. rewrite IH. simpl map.
  destruct rest as [|t' rest']; [reflexivity|]. simpl. 
  clear IH. revert t t'. induction rest' as [|u r IH']; intros; simpl in *; auto.
Qed.

Lemma last_firstn_In {T} (g : T -> string) (l : list T) (k : nat) acc :
  (0 < k <= List.length l)%nat ->
  exists t, In t l /\ last (map g (firstn k l)) acc = g t.
Proof.
  revert k. induction l as [|t rest IH]; intros k Hk; simpl in Hk; [lia|].
  destruct k as [|k]; [lia|]. simpl firstn. simpl map.
  destruct k as [|k].
  - exists t. split; [left; reflexivity|]. simpl. reflexivity.
  - destruct (IH (S k) ltac:(lia)) as [u [Hu Hl]].
    exists u. split; [right; exact Hu|].
    destruct rest as [|r rest']; [simpl in Hk; lia|].
    simpl firstn in *. simpl map in *. simpl last in *.
    destruct (map g (firstn k rest')) eqn:Hm.
    + simpl in Hl. exact Hl.
    + exact Hl.
Qed.

Lemma In_newEvents {A} (m : M A) s P e :
  extendsBy P s (after m s) -> In e (newEvents m s) -> P e.
Proof.
  intros [evs [Ht HP]] Hin. rewrite (newEvents_spec m s evs Ht) in Hin.
  rewrite Forall_forall in HP. apply HP. exact Hin.
Qed.

(** X4.  What the response updates of a streaming loop carry.  For
    OpenAI and WebLLM every update made while the stream is consumed
    carries the text accumulated so far: the initial text followed by the
    non-empty deltas of the first [k] chunks, for some [k >= 1].  For
    Wllama every update carries the text of one of the tokens received,
    after the stop-string cut; the text accumulated before is not part
    of it. *)
Theorem X4_streamed_responses (E : Env) (s : Store) :
  (forall stream acc t text,
     In (EvResponse t text) (newEvents (streamOpenAI E stream acc) s) ->
     exists k, (0 < k <= List.length (arrivals stream))%nat /\
       text = (acc ++ concatNonEmptyDeltas
                        (firstn k (map payload (arrivals stream))))%string) /\
  (forall stream acc t text,
     In (EvResponse t text) (newEvents (streamWebLlm E stream acc) s) ->
     exists k, (0 < k <= List.length (arrivals stream))%nat /\
       text = (acc ++ concatNonEmptyDeltas
                        (firstn k (map payload (arrivals stream))))%string) /\
  (forall model stream acc t text,
     In (EvResponse t text) (newEvents (streamWllama E model stream acc) s) ->
     exists a, In a (arrivals stream) /\ text = shownText model (payload a)).
Proof.
  split; [|split].
  - intros stream acc t text Hin.
    apply (In_newEvents _ _ _ _
             (consume_responds E openAiOnChunk appendDelta
                openAiOnChunk_value openAiOnChunk_responds stream acc s)) in Hin.
    simpl in Hin. destruct Hin as [k [Hk ->]]. exists k. split; [exact Hk|].
    apply fold_appendDelta.
  - intros stream acc t text Hin.
    apply (In_newEvents _ _ _ _
             (consume_responds E (webLlmOnChunk E) appendDelta
                (webLlmOnChunk_value E) (webLlmOnChunk_responds E)
                stream acc s)) in Hin.
    simpl in Hin. destruct Hin as [k [Hk ->]]. exists k. split; [exact Hk|].
    apply fold_appendDelta.
  - intros model stream acc t text Hin.
    apply (In_newEvents _ _ _ _
             (consume_responds E (onNewToken model)
                (fun _ currentText => shownText model currentText)
                (onNewToken_value model) (onNewToken_responds model)
                stream acc s)) in Hin.
    simpl in Hin. destruct Hin as [k [Hk ->]].
    rewrite fold_left_last.
    assert (Hk' : (0 < k <= List.length (map payload (arrivals stream)))%nat)
      by (rewrite List.length_map; exact Hk).
    destruct (last_firstn_In (shownText model) _ k acc Hk') as [p [Hp Hl]].
    apply in_map_iff in Hp. destruct Hp as [a [<- Ha]].
    exists a. split; [exact Ha | exact Hl].
Qed.

(** X5.  A run of the Wllama backend that returns normally, with the AI
    response enabled, has found its model in the table of models, has
    issued a completion call with a prompt, and ends with a response
    update that is the last one of the trace and carries the text of the
    last token of that completion after the stop-string cut (the empty
    text when the completion delivers no token). *)
Theorem X5_wllama_final_response (E : Env) (s s' : Store) :
  enableAiResponse (getSettings E) = true ->
  generateTextWithWllama E s = (Ok tt, s') ->
  exists model prompt,
    wllamaModels E (wllamaModelId (getSettings E)) = Some model /\
    In (EvCompletion Wllama (PromptRequest prompt)) (trace s') /\
    response s'
    = last (map (fun a => shownText model (payload a))
                (arrivals (createCompletion E prompt))) ""%string /\
    finalResponse (trace s') (response s').
Proof.
  assert (Hgrow_suspend : respects (keeping response notResponse) (suspend E))
    by respects_with keeping_leaf.
  intros Hen H. unfold generateTextWithWllama in H. rewrite Hen in H.
  rewrite bind_unit_ok in H by noThrow_tac.
  rewrite bind_unit_ok in H by noThrow_tac.
  destruct (wllamaModels E (wllamaModelId (getSettings E))) as [model|];
    [|discriminate].
  rewrite bind_unit_ok in H by noThrow_tac.
  rewrite bind_unit_ok in H by noThrow_tac.
  apply bind_Ok in H. destruct H as [[] [s2 [_ H]]].
  apply bind_Ok in H. destruct H as [[] [s6 [Hblock Hexit]]].
  apply bind_Ok in Hblock. destruct Hblock as [[] [s3 [_ Hblock]]].
  rewrite bind_unit_ok in Hblock by noThrow_tac.
  rewrite bind_unit_ok in Hblock by noThrow_tac.
  rewrite bind_reads in Hblock.
  apply bind_Ok in Hblock. destruct Hblock as [prompt [s4 [_ Hblock]]].
  rewrite bind_unit_ok in Hblock by noThrow_tac.
  apply bind_Ok in Hblock. destruct Hblock as [text [s5 [Hl Hblock]]].
  pose proof Hl as Hl'.
  apply (consume_Ok E _ (fun _ currentText => shownText model currentText))
    in Hl'; [|apply onNewToken_value].
  destruct Hl' as [Htext _]. rewrite fold_left_last, map_map in Htext.
  exists model, prompt. split; [reflexivity|].
  assert (Hin : In (EvCompletion Wllama (PromptRequest prompt)) (trace s5)).
  { eapply (extendsBy_In (fun _ => True)).
    - eapply respects_run; [|exact Hl]. respects_with extendsBy_leaf.
    - simpl. apply in_or_app. right. left. reflexivity. }
  unfold updateResponse in Hblock. injection Hblock as Hs6.
  apply await_Ok in Hexit. destruct Hexit as [_ Hs'].
  destruct (Hgrow_suspend s6) as [Hr [post [Hpost Fpost]]].
  rewrite <- Hs' in Hr, Hpost.
  rewrite Hr, Hpost, <- Hs6. cbn [trace response].
  split; [|split].
  - apply in_or_app. left. apply in_or_app. left. exact Hin.
  - exact Htext.
  - exists (trace s5), (now s5), post. rewrite <- app_assoc.
    split; [reflexivity | exact Fpost].
Qed.

Lemma X5_wllama_final_response_witness :
  let E := Samples.env "browser" 3 true Samples.hello in
  let s' := after (generateTextWithWllama E) Samples.store0 in
  exists model prompt,
    wllamaModels E (wllamaModelId (getSettings E)) = Some model /\
    In (EvCompletion Wllama (PromptRequest prompt)) (trace s') /\
    response s'
    = last (map (fun a => shownText model (payload a))
                (arrivals (createCompletion E prompt))) ""%string /\
    finalResponse (trace s') (response s').
Proof.
  apply (X5_wllama_final_response (Samples.env "browser" 3 true Samples.hello)
           Samples.store0).
  - reflexivity.
  - vm_compute. reflexivity.
Defined.

(* ================================================================== *)
(** ** The loading progress, the log, and a search that throws *)
(* ================================================================== *)

Lemma last_cons_default {T} (p : T) (rest : list T) (d : T) :
  last (p :: rest) d = last rest p.
Proof.
  revert p d. induction rest as [|r rest IH]; intros p d; [reflexivity|].
  change (last (p :: r :: rest) d) with (last (r :: rest) d).
  rewrite !IH. reflexivity.
Qed.

Lemma last_all_equal (p : Z) (rest : list Z) :
  forallb (Z.eqb p) rest = true -> last rest p = p.
Proof.
  induction rest as [|r rest IH]; intros H; [reflexivity|].
  simpl in H. apply andb_prop in H. destruct H as [Hr Hrest].
  apply Z.eqb_eq in Hr. subst r. rewrite last_cons_default. apply IH, Hrest.
Qed.

(** X6.  The progress callback of the Wllama download never throws.  It
    leaves the store as it is when every report equals the percentage
    the callback starts from; otherwise the stored loading progress is
    the last report and nothing else of the store has changed. *)
Theorem X6_load_progress_ends_on_the_last_report
        (reports : list Z) (loadingPercentage : Z) (s : Store) :
  reportLoadProgress reports loadingPercentage s
  = (Ok tt,
     if forallb (Z.eqb loadingPercentage) reports then s
     else after (updateModelLoadingProgress (last reports loadingPercentage)) s).
Proof.
  revert loadingPercentage s.
  induction reports as [|p rest IH]; intros shown s; [reflexivity|].
  cbn [reportLoadProgress forallb]. rewrite last_cons_default.
  destruct (Z.eqb_spec shown p) as [->|Hne]; cbn [negb andb].
  - apply IH.
  - rewrite bind_unit_ok by noThrow_tac. rewrite IH.
    destruct (forallb (Z.eqb p) rest) eqn:Hall.
    + rewrite (last_all_equal _ _ Hall). reflexivity.
    + reflexivity.
Qed.

#[global] Instance logGrows_PreOrder : PreOrder logGrows.
Proof.
  split.
  - intros s. exists []. rewrite app_nil_r. reflexivity.
  - intros a b c [l1 H1] [l2 H2]. exists (l1 ++ l2).
    rewrite H2, H1, app_assoc. reflexivity.
Qed.

Ltac logGrows_leaf :=
  on_primitive ltac:(idtac); intros ?s;
  first [ exists []; simpl; rewrite app_nil_r; reflexivity
        | eexists [_]; simpl; reflexivity ].

Lemma prepareTextGeneration_logGrows E :
  respects logGrows (prepareTextGeneration E).
Proof. respects_with logGrows_leaf. Qed.

Lemma enterGeneration_steps E s :
  snd (enterGeneration E s)
  = snd (untilUiIsUpdated E
      (snd (updateTextGenerationState loadingModel
        (snd (updateSearchPromise_startSearch E (getQuery E)
          (snd (updateSearchResults emptySearchResults
            (snd (updateResponse ""
              (snd (setDocumentTitle (getQuery E) s))))))))))).
Proof.
  unfold enterGeneration.
  repeat (rewrite bind_unit_ok by noThrow_tac). reflexivity.
Qed.

(** The run of [prepareTextGeneration], with the entry it ends on. *)
Lemma prepareTextGeneration_elapsed E s :
  getQuery E <> ""%string ->
  enableAiResponse (getSettings E) = true ->
  let s3 := snd (suspend E
              (snd (tryCatch (generateText E) reportFailure
                 (snd (enterGeneration E s))))) in
  prepareTextGeneration E s =
  (Ok tt,
   snd (addLogEntry
          ("Response generation took " ++
           prettyMilliseconds E (now s3 - now s))%string s3)).
Proof.
  intros Hq Hen s3. subst s3. rewrite enterGeneration_steps.
  unfold prepareTextGeneration.
  destruct (String.eqb_spec (getQuery E) ""); [contradiction|].
  rewrite Hen. simpl negb. cbv iota.
  repeat (rewrite bind_unit_ok by noThrow_tac).
  rewrite bind_reads.
  repeat (rewrite bind_unit_ok by noThrow_tac).
  rewrite bind_unit_ok
    by (apply noThrow_tryFinally; [apply noThrow_tryCatch|]; noThrow_tac).
  rewrite snd_tryFinally, bind_reads.
  reflexivity.
Qed.

(** X7.  A run of [prepareTextGeneration] only appends to the log.  It
    appends nothing when the query is empty or the AI response is
    disabled; otherwise the last entry of the log is "Response generation
    took ..." with the time that passed between the start and the end of
    the run. *)
Theorem X7_log_grows_and_ends_on_the_elapsed_time (E : Env) (s : Store) :
  let s' := after (prepareTextGeneration E) s in
  (exists entries, logEntries s' = logEntries s ++ entries) /\
  (getQuery E = ""%string \/ enableAiResponse (getSettings E) = false ->
   logEntries s' = logEntries s) /\
  (getQuery E <> ""%string -> enableAiResponse (getSettings E) = true ->
   exists entries,
     logEntries s'
     = logEntries s ++ entries ++
       [("Response generation took " ++
         prettyMilliseconds E (now s' - now s))%string]).
Proof.
  intros s'. split; [|split].
  - apply prepareTextGeneration_logGrows.
  - intros Hcase. subst s'. unfold after, prepareTextGeneration.
    destruct (String.eqb_spec (getQuery E) "") as [Heq|Hne]; [reflexivity|].
    destruct Hcase as [Heq|Hdis]; [contradiction|].
    rewrite Hdis. simpl negb. cbv iota.
    repeat (rewrite bind_unit_ok by noThrow_tac). reflexivity.
  - intros Hq Hen. subst s'. unfold after.
    rewrite (prepareTextGeneration_elapsed E s Hq Hen).
    set (s3 := snd (suspend E _)).
    assert (Hs3 : logGrows s s3).
    { subst s3. etransitivity; [|etransitivity; [|etransitivity]].
      - assert (H : respects logGrows (enterGeneration E))
          by (unfold enterGeneration; respects_with logGrows_leaf).
        apply (H s).
      - assert (H : respects logGrows (tryCatch (generateText E) reportFailure))
          by (unfold reportFailure; respects_with logGrows_leaf).
        apply H.
      - assert (H : respects logGrows (suspend E))
          by respects_with logGrows_leaf.
        apply H.
      - reflexivity. }
    destruct Hs3 as [entries Hentries]. exists entries.
    cbn [addLogEntry snd logEntries now]. rewrite Hentries, app_assoc.
    reflexivity.
Qed.

(** X9.  When [startSearch] throws, the search state stays "running": it
    is neither completed nor failed, the search results of the store are
    those from before the call, and no search results were published. *)
Theorem X9_failed_search_stays_running (E : Env) (q : string) (s : Store)
        (e : string) :
  outcome (startSearch E q) s = Throw e ->
  searchState (after (startSearch E q) s) = searchRunning /\
  searchResults (after (startSearch E q) s) = searchResults s /\
  forall r, ~ In (EvSearchResults r) (newEvents (startSearch E q) s).
Proof.
  unfold startSearch, startSearch_begin, startSearch_resume, searchCall.
  unfold newEvents. unfold after, outcome.
  set (q1 := if 2000 <? Z.of_nat (String.length q) then _ else q).
  set (q2 := Js.join " " (getKeywords E q (Some 10))).
  destruct (search E 0 q1 30) as [first|e1] eqn:H1; run_prims.
  - destruct (textResults first) as [|r rs] eqn:Hf; run_prims.
    + destruct (search E 1 q2 30) as [second|e2] eqn:H2; run_prims.
      * destruct (textResults second); run_prims; discriminate.
      * intros _. split; [reflexivity|]. split; [reflexivity|].
        intros r. rewrite <- !app_assoc, skipn_app, skipn_all, Nat.sub_diag.
        simpl. intuition discriminate.
    + rewrite Hf. discriminate.
  - intros _. split; [reflexivity|]. split; [reflexivity|].
    intros r. rewrite <- !app_assoc, skipn_app, skipn_all, Nat.sub_diag.
    simpl. intuition discriminate.
Qed.

Lemma X9_failed_search_stays_running_witness :
  searchState (after (startSearch Failures.offline "cats") Samples.store0)
  = searchRunning /\
  searchResults (after (startSearch Failures.offline "cats") Samples.store0)
  = searchResults Samples.store0 /\
  forall r, ~ In (EvSearchResults r)
                 (newEvents (startSearch Failures.offline "cats") Samples.store0).
Proof.
  apply (X9_failed_search_stays_running Failures.offline "cats" Samples.store0
           "Error: network").
  vm_compute. reflexivity.
Defined.

(* ================================================================== *)
(** ** One search per run *)
(* ================================================================== *)

Lemma searchCalls_none evs : Forall notSearchCall evs -> searchCalls evs = [].
Proof.
  induction 1 as [|e evs He _ IH]; simpl; [reflexivity|].
  destruct e; simpl in *; tauto.
Qed.

#[global] Instance searchesOnce_PreOrder E : PreOrder (searchesOnce E).
Proof.
  split.
  - intros s. exists []. rewrite app_nil_r. split; [reflexivity|].
    destruct (searchPromise s) eqn:Hp; simpl; try tauto.
    left. split; [reflexivity|]. eauto.
  - intros a b c [e1 [H1 R1]] [e2 [H2 R2]]. exists (e1 ++ e2).
    rewrite H2, H1, app_assoc. split; [reflexivity|].
    rewrite searchCalls_app.
    destruct (searchPromise a) as [|q n|r|e] eqn:Ha.
    + destruct R1 as [C1 N1].
      destruct (searchPromise b); simpl in N1; try tauto;
        destruct R2 as [C2 N2]; rewrite C1, C2; auto.
    + destruct R1 as [[C1 [n1 N1]]|[C1 N1]].
      * rewrite N1 in R2. rewrite C1. simpl. exact R2.
      * right. destruct (searchPromise b); simpl in N1; try tauto;
          destruct R2 as [C2 N2]; rewrite C2, app_nil_r; auto.
    + destruct R1 as [C1 N1].
      destruct (searchPromise b); simpl in N1; try tauto;
        destruct R2 as [C2 N2]; rewrite C1, C2; auto.
    + destruct R1 as [C1 N1].
      destruct (searchPromise b); simpl in N1; try tauto;
        destruct R2 as [C2 N2]; rewrite C1, C2; auto.
Qed.

(** A step that keeps the promise and calls no search. *)
Lemma keeps_searchesOnce E s s' :
  searchPromise s' = searchPromise s -> extendsBy notSearchCall s s' ->
  searchesOnce E s s'.
Proof.
  intros Hp [evs [Ht Hq]]. exists evs. split; [exact Ht|].
  rewrite (searchCalls_none _ Hq), Hp.
  destruct (searchPromise s) eqn:Hs; simpl; auto.
  left. eauto.
Qed.

Lemma settleSearch_searchesOnce E : respects (searchesOnce E) (settleSearch E).
Proof.
  intros s. unfold settleSearch. rewrite bind_reads.
  destruct (searchPromise s) as [|q n|r|e] eqn:Hp;
    try (apply keeps_searchesOnce; [reflexivity|]; exists [];
         rewrite app_nil_r; split; [reflexivity | constructor]).
  unfold searchesOnce. rewrite Hp.
  unfold tryCatch, startSearch_resume, searchCall.
  fold (firstSearchQuery E q). fold (retrySearchQuery E q).
  destruct (search E 0 (firstSearchQuery E q) 30) as [[[|r rs] imgs]|e1].
  - destruct (search E 1 (retrySearchQuery E q) 30) as [[[|r2 rs2] imgs2]|e2];
      run_search;
      (eexists; split; [rewrite <- !app_assoc; reflexivity|]; right;
       split; [right; reflexivity | simpl; tauto]).
  - run_search.
    eexists. split; [rewrite <- !app_assoc; reflexivity|]. right.
    split; [left; reflexivity | simpl; tauto].
  - run_search. eexists. split; [reflexivity|]. right.
    split; [left; reflexivity | simpl; tauto].
Qed.

Lemma suspend_searchesOnce E : respects (searchesOnce E) (suspend E).
Proof.
  intros s. unfold suspend. rewrite bind_reads.
  destruct (searchPromise s) as [|q [|n]|r|e] eqn:Hp;
    try (apply keeps_searchesOnce; [reflexivity|]; exists [];
         rewrite app_nil_r; split; [reflexivity | constructor]).
  - apply settleSearch_searchesOnce.
  - exists []. rewrite app_nil_r. split; [reflexivity|]. rewrite Hp.
    left. split; [reflexivity|]. exists n. reflexivity.
Qed.

Ltac searchesOnce_leaf :=
  idtac;
  lazymatch goal with
  | |- respects _ (suspend _) => apply suspend_searchesOnce
  | |- respects _ (settleSearch _) => apply settleSearch_searchesOnce
  | |- respects _ (writeSearchPromise _) => fail
  | _ => on_primitive ltac:(idtac); intros ?s; apply keeps_searchesOnce;
         [reflexivity | extendsBy_step]
  end.

Section SearchBudget.
Variable E : Env.

Lemma generation_searchesOnce :
  respects (searchesOnce E) (tryCatch (generateText E) reportFailure).
Proof. unfold reportFailure. respects_with searchesOnce_leaf. Qed.

(** What [prepareTextGeneration] does up to the start of the search. *)
Lemma searchStart_run s :
  let s0 := snd (updateSearchPromise_startSearch E (getQuery E)
              (snd (updateSearchResults emptySearchResults
                (snd (updateResponse ""
                  (snd (setDocumentTitle (getQuery E) s))))))) in
  searchPromise s0 = Pending (getQuery E) (searchLatency E) /\
  extendsBy notSearchCall s s0.
Proof.
  intros s0. split; [reflexivity|].
  subst s0.
  etransitivity; [|etransitivity; [|etransitivity]].
  - assert (H : respects (extendsBy notSearchCall)
                  (setDocumentTitle (getQuery E)))
      by respects_with extendsBy_leaf.
    apply (H s).
  - assert (H : respects (extendsBy notSearchCall) (updateResponse ""))
      by respects_with extendsBy_leaf.
    apply H.
  - assert (H : respects (extendsBy notSearchCall)
                  (updateSearchResults emptySearchResults))
      by respects_with extendsBy_leaf.
    apply H.
  - assert (H : respects (extendsBy notSearchCall)
                  (updateSearchPromise_startSearch E (getQuery E)))
      by respects_with extendsBy_leaf.
    apply H.
Qed.

End SearchBudget.

Section Reaches.
Variable I : Store -> Prop.

Lemma reaches_bind_after {A B} (m : M A) (k : A -> M B) :
  noThrow m -> (forall a, reaches I (k a)) -> reaches I (bind m k).
Proof.
  intros Hn Hk s. destruct (bind_noThrow m k s Hn) as [a [_ ->]]. apply Hk.
Qed.

Lemma reaches_bind_keep {A B} (m : M A) (k : A -> M B) :
  reaches I m -> (forall a, respects (preserves I) (k a)) ->
  reaches I (bind m k).
Proof.
  intros Hm Hk s. specialize (Hm s). unfold bind.
  destruct (m s) as [[a|e] s1]; simpl in *; [apply Hk, Hm | exact Hm].
Qed.

Lemma reaches_tryCatch {A} (body : M A) handler :
  reaches I body -> (forall e, respects (preserves I) (handler e)) ->
  reaches I (tryCatch body handler).
Proof.
  intros Hb Hh s. specialize (Hb s). unfold tryCatch.
  destruct (body s) as [[a|e] s1]; simpl in *; [exact Hb | apply Hh, Hb].
Qed.

End Reaches.

Section SearchOver.
Variable E : Env.

Lemma searchesOnce_searchOver {A} (m : M A) :
  respects (searchesOnce E) m -> respects (preserves searchOver) m.
Proof.
  intros Hm s Hs. destruct (Hm s) as [evs [_ H]]. unfold searchOver in *.
  destruct (searchPromise s); simpl in Hs; try tauto; apply H.
Qed.

Lemma canStartResponding_reaches :
  0 < searchResultsToConsider (getSettings E) ->
  reaches searchOver (canStartResponding E).
Proof.
  intros HN s. destruct (canStartResponding E s) as [r s1] eqn:Hc.
  destruct (canStartResponding_waits E s r s1 HN Hc) as [_ H]. cbn [snd].
  unfold searchOver. destruct r as [[]|e].
  - apply H.
  - rewrite H. simpl. tauto.
Qed.

Lemma generateTextWithOpenAI_reaches :
  0 < searchResultsToConsider (getSettings E) ->
  reaches searchOver (generateTextWithOpenAI E).
Proof.
  intros HN. unfold generateTextWithOpenAI.
  apply reaches_bind_after; [noThrow_tac|]. intros _.
  apply reaches_bind_keep; [apply canStartResponding_reaches, HN|]. intros _.
  apply searchesOnce_searchOver. respects_with searchesOnce_leaf.
Qed.

Lemma openAiRun_reaches :
  0 < searchResultsToConsider (getSettings E) ->
  inferenceType (getSettings E) = "openai"%string ->
  reaches searchOver (tryCatch (generateText E) reportFailure).
Proof.
  intros HN Hkind. apply reaches_tryCatch.
  - unfold generateText. cbv zeta. rewrite Hkind.
    change (String.eqb "openai" "openai") with true. cbv iota.
    apply reaches_bind_keep; [apply generateTextWithOpenAI_reaches, HN|].
    intros _. apply searchesOnce_searchOver. respects_with searchesOnce_leaf.
  - intros e. apply searchesOnce_searchOver. unfold reportFailure.
    respects_with searchesOnce_leaf.
Qed.

End SearchOver.

(** X8.  A run of [prepareTextGeneration] calls the search service for
    one search at most: no call at all, or the call for its query (the
    first 20 keywords when the query is longer than 2000 characters) with
    limit 30, possibly followed by the one retry with the first 10
    keywords and limit 30; no backend and no fallback searches again.
    The run makes no call when the query is empty or the AI response is
    disabled: the search it has started is still under way when it
    returns.  A run served by the OpenAI backend with a positive number
    of search results to consider does not end before the calls of its
    search are made. *)
Theorem X8_one_search_per_run (E : Env) (s : Store) :
  let calls := searchCalls (newEvents (prepareTextGeneration E) s) in
  (calls = [] \/ oneSearch E (getQuery E) calls) /\
  (getQuery E = ""%string \/ enableAiResponse (getSettings E) = false ->
   calls = []) /\
  (getQuery E <> ""%string ->
   enableAiResponse (getSettings E) = true ->
   inferenceType (getSettings E) = "openai"%string ->
   0 < searchResultsToConsider (getSettings E) ->
   oneSearch E (getQuery E) calls).
Proof.
  intros calls. subst calls.
  destruct (String.eqb_spec (getQuery E) "") as [Hempty|Hq].
  { assert (Hnone : searchCalls (newEvents (prepareTextGeneration E) s) = []).
    { rewrite (newEvents_spec _ s []); [reflexivity|].
      unfold after, prepareTextGeneration. rewrite Hempty. simpl.
      symmetry. apply app_nil_r. }
    split; [left; exact Hnone|]. split; [intros _; exact Hnone|].
    intros Hq. contradiction. }
  destruct (searchStart_run E s) as [Hpending [evs0 [Ht0 Hquiet0]]].
  set (s0 := snd (updateSearchPromise_startSearch E (getQuery E) _)) in *.
  destruct (enableAiResponse (getSettings E)) eqn:Hen.
  - assert (Hrest : searchesOnce E s0 (after (prepareTextGeneration E) s)).
    { unfold after. rewrite (prepareTextGeneration_elapsed E s Hq Hen).
      cbn [snd]. rewrite enterGeneration_steps. fold s0.
      etransitivity; [|etransitivity; [|etransitivity; [|etransitivity]]].
      - assert (H : respects (searchesOnce E)
                      (updateTextGenerationState loadingModel))
          by respects_with searchesOnce_leaf.
        apply (H s0).
      - apply (suspend_searchesOnce E).
      - apply (generation_searchesOnce E).
      - apply (suspend_searchesOnce E).
      - assert (H : forall entry, respects (searchesOnce E) (addLogEntry entry))
          by (intros entry; respects_with searchesOnce_leaf).
        apply H. }
    destruct Hrest as [evs [Ht Hcalls]]. rewrite Hpending in Hcalls.
    rewrite (newEvents_spec _ s (evs0 ++ evs))
      by (rewrite Ht, Ht0, app_assoc; reflexivity).
    rewrite searchCalls_app, (searchCalls_none _ Hquiet0). simpl.
    split; [destruct Hcalls as [[Hnone _]|[Hone _]]; auto|].
    split; [intros [Hempty|Hdis]; [contradiction | discriminate]|].
    intros _ _ Hkind HN.
    destruct Hcalls as [[_ [n Hn]]|[Hone _]]; [exfalso | exact Hone].
    assert (Hover : searchOver (after (prepareTextGeneration E) s)).
    { unfold after. rewrite (prepareTextGeneration_elapsed E s Hq Hen).
      cbn [snd].
      assert (Hs : respects (preserves searchOver) (suspend E))
        by (apply (searchesOnce_searchOver E), suspend_searchesOnce).
      assert (Hl : forall entry, respects (preserves searchOver) (addLogEntry entry))
        by (intros entry; apply (searchesOnce_searchOver E);
            respects_with searchesOnce_leaf).
      apply Hl, Hs. apply (openAiRun_reaches E HN Hkind). }
    unfold searchOver in Hover. rewrite Hn in Hover. simpl in Hover. tauto.
  - assert (Hnone : searchCalls (newEvents (prepareTextGeneration E) s) = []).
    { rewrite (newEvents_spec _ s evs0).
      + apply searchCalls_none, Hquiet0.
      + rewrite <- Ht0. unfold after, prepareTextGeneration.
        destruct (String.eqb_spec (getQuery E) ""); [contradiction|].
        rewrite Hen. simpl negb. cbv iota.
        repeat (rewrite bind_unit_ok by noThrow_tac). reflexivity. }
    split; [left; exact Hnone|]. split; [intros _; exact Hnone|].
    intros _ Hen'. discriminate.
Qed.

(* ================================================================== *)
(** ** A failed search fails the generation *)
(* ================================================================== *)

Section Blocked.
Variable I : Store -> Prop.

Lemma blocked_throw {A} e : blocked I (@throw A e).
Proof. intros s H. split; [exact H | exists e; reflexivity]. Qed.

Lemma blocked_bind_l {A B} (m : M A) (k : A -> M B) :
  blocked I m -> blocked I (bind m k).
Proof.
  intros Hm s H. destruct (Hm s H) as [HI [e He]]. unfold bind.
  destruct (m s) as [[a|e'] s1]; simpl in *; [discriminate|].
  split; [exact HI | eauto].
Qed.

Lemma blocked_bind_r {A B} (m : M A) (k : A -> M B) :
  respects (preserves I) m -> (forall a, blocked I (k a)) ->
  blocked I (bind m k).
Proof.
  intros Hm Hk s H. specialize (Hm s H). unfold bind.
  destruct (m s) as [[a|e'] s1]; simpl in *; [apply Hk, Hm|].
  split; [exact Hm | eauto].
Qed.

Lemma blocked_tryCatch {A} (body : M A) handler :
  blocked I body -> (forall e, blocked I (handler e)) ->
  blocked I (tryCatch body handler).
Proof.
  intros Hb Hh s H. destruct (Hb s H) as [HI [e He]]. unfold tryCatch.
  destruct (body s) as [[a|e'] s1]; simpl in *; [discriminate|].
  apply Hh, HI.
Qed.

End Blocked.

Section Doomed.
Variable E : Env.
Variable e : string.

Lemma searchFails_throws q s :
  searchFails E q e ->
  exists s1, startSearch_resume E q s = (Throw e, s1) /\
             searchPromise s1 = searchPromise s.
Proof.
  unfold startSearch_resume, searchCall.
  fold (firstSearchQuery E q). fold (retrySearchQuery E q).
  intros [H1|[first [H1 [Hf H2]]]]; rewrite H1.
  - run_search. eexists. split; reflexivity.
  - destruct first as [texts imgs]. simpl in Hf. subst texts.
    rewrite H2. run_search. eexists. split; reflexivity.
Qed.

Lemma settleSearch_doomed s :
  searchDoomed E e s -> searchPromise (snd (settleSearch E s)) = Rejected e.
Proof.
  unfold searchDoomed, settleSearch. rewrite bind_reads.
  destruct (searchPromise s) as [|q n|r|e'] eqn:Hp; try contradiction.
  - intros Hf. destruct (searchFails_throws q s Hf) as [s1 [Hrun _]].
    unfold tryCatch. rewrite (bind_run_throw _ _ _ _ _ Hrun). reflexivity.
  - intros ->. simpl. exact Hp.
Qed.

Lemma suspend_doomed s :
  searchDoomed E e s -> searchDoomed E e (snd (suspend E s)).
Proof.
  intros Hd. unfold suspend. rewrite bind_reads.
  destruct (searchPromise s) as [|q [|n]|r|e'] eqn:Hp;
    try (simpl; exact Hd).
  - unfold searchDoomed. rewrite settleSearch_doomed by exact Hd. reflexivity.
  - unfold searchDoomed in *. rewrite Hp in Hd. simpl. exact Hd.
Qed.

Lemma quiet_completions {A} (m : M A) s :
  respects (extendsBy notCompletion) m ->
  completionsOf (trace (snd (m s))) = completionsOf (trace s).
Proof.
  intros H. destruct (H s) as [evs [Ht Hq]].
  rewrite Ht, completionsOf_app, (completionsOf_none _ Hq), app_nil_r.
  reflexivity.
Qed.

Variable made : list (Backend * Request).

Lemma suspend_doomedWith :
  respects (preserves (doomedWith E e made)) (suspend E).
Proof.
  intros s [Hd Hc]. split; [apply suspend_doomed, Hd|].
  rewrite quiet_completions; [exact Hc|]. respects_with extendsBy_leaf.
Qed.

Lemma settleSearch_doomedWith :
  respects (preserves (doomedWith E e made)) (settleSearch E).
Proof.
  intros s [Hd Hc]. split.
  - unfold searchDoomed. rewrite settleSearch_doomed by exact Hd. reflexivity.
  - rewrite quiet_completions; [exact Hc|]. respects_with extendsBy_leaf.
Qed.

End Doomed.

Ltac doomedWith_leaf :=
  idtac;
  lazymatch goal with
  | |- respects _ (suspend _) => apply suspend_doomedWith
  | |- respects _ (settleSearch _) => apply settleSearch_doomedWith
  | |- respects _ (writeSearchPromise _) => fail
  | |- respects _ (emit (EvCompletion _ _)) => fail
  | _ => on_primitive ltac:(idtac); intros ?s [?Hd ?Hc]; split;
         [ assumption
         | cbn [emit snd trace]; rewrite ?completionsOf_app, ?app_nil_r;
           assumption ]
  end.

Section DoomedRuns.
Variable E : Env.
Variable e : string.
Variable made : list (Backend * Request).
Hypothesis consider : 0 < searchResultsToConsider (getSettings E).
Hypothesis enabled : enableAiResponse (getSettings E) = true.

Let I := doomedWith E e made.

Lemma awaitSearchPromise_rejects s :
  I s ->
  exists s', awaitSearchPromise E s = (Throw e, s') /\ I s' /\
             searchPromise s' = Rejected e.
Proof.
  intros HI. pose proof (settleSearch_doomedWith E e made s HI) as HI'.
  destruct HI as [Hd Hc].
  pose proof (settleSearch_doomed E e s Hd) as Hp.
  unfold awaitSearchPromise. rewrite bind_unit_ok by noThrow_tac.
  rewrite bind_reads, Hp. eexists. split; [reflexivity|]. split; assumption.
Qed.

Lemma canStartResponding_rejects s :
  I s ->
  exists s', canStartResponding E s = (Throw e, s') /\ I s' /\
             searchPromise s' = Rejected e.
Proof.
  intros HI. unfold canStartResponding.
  destruct (Z.ltb_spec 0 (searchResultsToConsider (getSettings E))) as [_|Hle];
    [|lia].
  rewrite bind_unit_ok by noThrow_tac.
  rewrite bind_unit_ok by noThrow_tac.
  apply awaitSearchPromise_rejects.
  assert (H : respects (preserves I)
                (updateTextGenerationState awaitingSearchResults ;;
                 untilUiIsUpdated E))
    by (subst I; respects_with doomedWith_leaf).
  specialize (H s HI). rewrite bind_unit_ok in H by noThrow_tac. exact H.
Qed.

Lemma canStartResponding_blocked : blocked I (canStartResponding E).
Proof.
  intros s HI. destruct (canStartResponding_rejects s HI) as [s' [Hrun [HI' _]]].
  rewrite Hrun. split; [exact HI' | exists e; reflexivity].
Qed.

Lemma generateTextWithOpenAI_rejects s :
  I s ->
  exists s', generateTextWithOpenAI E s = (Throw e, s') /\ I s' /\
             searchPromise s' = Rejected e.
Proof.
  intros HI. unfold generateTextWithOpenAI.
  rewrite bind_unit_ok by noThrow_tac.
  assert (H : respects (preserves I) (emit (EvBackend OpenAI)))
    by (subst I; respects_with doomedWith_leaf).
  destruct (canStartResponding_rejects _ (H s HI)) as [s' [Hrun Hs']].
  exists s'. rewrite (bind_run_throw _ _ _ _ _ Hrun). auto.
Qed.

Lemma generateTextWithWebLlm_blocked : blocked I (generateTextWithWebLlm E).
Proof.
  unfold generateTextWithWebLlm. cbv zeta. rewrite enabled.
  repeat (apply blocked_bind_r;
          [subst I; solve [respects_with doomedWith_leaf] | intros ?a]).
  apply blocked_bind_l. apply blocked_bind_l. apply canStartResponding_blocked.
Qed.

Lemma generateTextWithWllama_blocked : blocked I (generateTextWithWllama E).
Proof.
  unfold generateTextWithWllama. rewrite enabled.
  repeat (apply blocked_bind_r;
          [subst I; solve [respects_with doomedWith_leaf] | intros ?a]).
  destruct (wllamaModels E (wllamaModelId (getSettings E))) as [model|];
    [|apply blocked_throw].
  repeat (apply blocked_bind_r;
          [subst I; solve [respects_with doomedWith_leaf] | intros ?a]).
  apply blocked_bind_l. apply blocked_bind_l. apply canStartResponding_blocked.
Qed.

Lemma generateText_blocked : blocked I (generateText E).
Proof.
  unfold generateText. cbv zeta. apply blocked_bind_l.
  destruct (String.eqb (inferenceType (getSettings E)) "openai").
  - intros s HI. destruct (generateTextWithOpenAI_rejects s HI) as [s' [Hrun [HI' _]]].
    rewrite Hrun. split; [exact HI' | exists e; reflexivity].
  - apply blocked_tryCatch.
    + apply blocked_bind_r; [subst I; respects_with doomedWith_leaf|].
      intros _. apply generateTextWithWebLlm_blocked.
    + intros e0.
      do 2 (apply blocked_bind_r;
            [subst I; solve [respects_with doomedWith_leaf] | intros _]).
      apply generateTextWithWllama_blocked.
Qed.

End DoomedRuns.

Lemma enterGeneration_doomedWith E e s :
  searchFails E (getQuery E) e ->
  doomedWith E e (completionsOf (trace s)) (snd (enterGeneration E s)).
Proof.
  intros Hf. rewrite enterGeneration_steps.
  set (s0 := snd (updateSearchPromise_startSearch E (getQuery E) _)).
  assert (H0 : doomedWith E e (completionsOf (trace s)) s0).
  { split; [exact Hf|]. subst s0.
    cbn [updateSearchPromise_startSearch startSearch_begin updateSearchState
         updateSearchResults updateResponse setDocumentTitle
         bind reads ret emit writeResponse writeSearchResults writeSearchState
         writeSearchPromise snd trace now].
    rewrite !completionsOf_app. simpl. rewrite !app_nil_r. reflexivity. }
  assert (H : respects (preserves (doomedWith E e (completionsOf (trace s))))
                (updateTextGenerationState loadingModel ;; untilUiIsUpdated E))
    by respects_with doomedWith_leaf.
  specialize (H s0 H0). rewrite bind_unit_ok in H by noThrow_tac. exact H.
Qed.

Lemma completions_unchanged {A} (m : M A) s :
  respects (extendsBy (fun _ => True)) m ->
  completionsOf (trace (after m s)) = completionsOf (trace s) ->
  completionsOf (newEvents m s) = [].
Proof.
  intros Hg Hc. destruct (Hg s) as [evs [Ht _]].
  rewrite (newEvents_spec m s evs Ht). unfold after in Hc.
  rewrite Ht, completionsOf_app in Hc.
  rewrite <- (app_nil_r (completionsOf (trace s))) in Hc at 2.
  apply app_inv_head in Hc. exact Hc.
Qed.

(** X10.  When the search of the run fails and a positive number of
    search results is to be considered, a run with a non-empty query and
    the AI response enabled ends in the state "failed" without a single
    completion call, whichever backend is selected.  With the OpenAI
    backend the search promise is rejected with the error of the search,
    and the log holds "Error generating text: " followed by that error. *)
Theorem X10_failed_search_fails_the_generation
        (E : Env) (s : Store) (e : string) :
  getQuery E <> ""%string ->
  enableAiResponse (getSettings E) = true ->
  0 < searchResultsToConsider (getSettings E) ->
  searchFails E (getQuery E) e ->
  let s' := after (prepareTextGeneration E) s in
  textGenerationState s' = failed /\
  completionsOf (newEvents (prepareTextGeneration E) s) = [] /\
  (inferenceType (getSettings E) = "openai"%string ->
   searchPromise s' = Rejected e /\
   In ("Error generating text: " ++ e)%string (logEntries s')).
Proof.
  intros Hq Hen Hconsider Hfails s'.
  set (made := completionsOf (trace s)).
  pose proof (enterGeneration_doomedWith E e s Hfails) as H1. fold made in H1.
  set (s1 := snd (enterGeneration E s)) in *.
  destruct (generateText_blocked E e made Hconsider Hen s1 H1) as [H2 [e' He']].
  assert (Hcatch : tryCatch (generateText E) reportFailure s1
                   = reportFailure e' (snd (generateText E s1))).
  { unfold tryCatch. destruct (generateText E s1) as [[[]|e0] s2];
      simpl in He'; [discriminate|]. injection He' as ->. reflexivity. }
  set (s2 := snd (generateText E s1)) in *.
  assert (Hs' : s' = snd (addLogEntry
                  ("Response generation took " ++
                   prettyMilliseconds E
                     (now (snd (suspend E (snd (reportFailure e' s2)))) - now s))%string
                  (snd (suspend E (snd (reportFailure e' s2)))))).
  { subst s'. unfold after. rewrite (prepareTextGeneration_elapsed E s Hq Hen).
    cbn [snd]. fold s1. rewrite Hcatch. reflexivity. }
  assert (Htail : respects (preserves (doomedWith E e made))
                    (reportFailure e' ;; suspend E))
    by (unfold reportFailure; respects_with doomedWith_leaf).
  specialize (Htail s2 H2). rewrite bind_unit_ok in Htail
    by (unfold reportFailure; noThrow_tac).
  set (s3 := snd (reportFailure e' s2)) in *.
  assert (Hstate : forall st, textGenerationState (snd (suspend E st))
                              = textGenerationState st).
  { intros st. destruct (suspend_keepsGenerationState E st) as [Hk _]. exact Hk. }
  split; [|split].
  - rewrite Hs'. cbn [addLogEntry snd textGenerationState].
    rewrite Hstate. reflexivity.
  - apply completions_unchanged; [respects_with extendsBy_leaf|].
    fold s'. rewrite Hs'. cbn [addLogEntry snd trace].
    destruct Htail as [_ Hc]. exact Hc.
  - intros Hkind.
    assert (He : e' = e /\ searchPromise s2 = Rejected e).
    { unfold generateText in He'. cbv zeta in He'. subst s2.
      unfold generateText. cbv zeta. rewrite Hkind in *.
      change (String.eqb "openai" "openai") with true in *. cbv iota in *.
      destruct (generateTextWithOpenAI_rejects E e made Hconsider s1 H1)
        as [s2' [Hrun [_ Hp]]].
      rewrite (bind_run_throw _ _ _ _ _ Hrun) in *. simpl in He'.
      injection He' as <-. auto. }
    destruct He as [-> Hp].
    assert (Hs3 : suspend E s3 = (Ok tt, s3)).
    { apply suspend_settled. subst s3. cbn [reportFailure bind addLogEntry
        updateTextGenerationState writeTextGenerationState emit snd searchPromise].
      rewrite Hp. simpl. tauto. }
    rewrite Hs'. rewrite Hs3. cbn [snd addLogEntry searchPromise logEntries].
    subst s3. cbn [reportFailure bind addLogEntry updateTextGenerationState
      writeTextGenerationState emit snd searchPromise logEntries].
    split; [exact Hp|]. apply in_or_app. left. apply in_or_app. right.
    left. reflexivity.
Qed.

Lemma X10_failed_search_fails_the_generation_witness :
  let s' := after (prepareTextGeneration Failures.offline) Samples.store0 in
  textGenerationState s' = failed /\
  completionsOf (newEvents (prepareTextGeneration Failures.offline)
                           Samples.store0) = [] /\
  (inferenceType (getSettings Failures.offline) = "openai"%string ->
   searchPromise s' = Rejected "Error: network" /\
   In "Error generating text: Error: network"%string (logEntries s')).
Proof.
  apply (X10_failed_search_fails_the_generation Failures.offline Samples.store0
           "Error: network").
  - discriminate.
  - reflexivity.
  - simpl. lia.
  - left. reflexivity.
Defined.

(* ================================================================== *)
(** ** The stop of the user while a stream is consumed *)
(* ================================================================== *)

Section Stop.
Variable E : Env.

Lemma suspend_keeps_state s :
  textGenerationState (snd (suspend E s)) = textGenerationState s.
Proof. destruct (suspend_keepsGenerationState E s) as [Hk _]. exact Hk. Qed.

Lemma receive_sticky {T} (a : Arrival T) :
  respects (preserves isInterrupted) (receive E a).
Proof.
  intros s Hi. unfold receive.
  rewrite bind_unit_ok by noThrow_tac. rewrite bind_unit_ok by noThrow_tac.
  destruct (stopPressed a); [reflexivity|].
  cbn [ret snd advanceClock textGenerationState].
  unfold isInterrupted in *. rewrite suspend_keeps_state. exact Hi.
Qed.

Lemma receive_stop {T} (a : Arrival T) s :
  stopPressed a = true -> isInterrupted (snd (receive E a s)).
Proof.
  intros Hs. unfold receive.
  rewrite bind_unit_ok by noThrow_tac. rewrite bind_unit_ok by noThrow_tac.
  rewrite Hs. reflexivity.
Qed.

Lemma limiter_keeps_state text s :
  textGenerationState (snd (updateResponseRateLimited text s))
  = textGenerationState s.
Proof.
  assert (H : respects keepsGenerationState (updateResponseRateLimited text))
    by (unfold keepsGenerationState; respects_with keeping_leaf).
  destruct (H s) as [Hk _]. exact Hk.
Qed.

Lemma pollCheck_sticky b abort :
  noThrow abort ->
  (forall s, textGenerationState (snd (abort s)) = textGenerationState s) ->
  respects (preserves isInterrupted) (pollCheck b abort).
Proof.
  intros Hn Ha s Hi. rewrite pollCheck_interrupted by exact Hi.
  unfold isInterrupted in *. rewrite Ha. exact Hi.
Qed.

Lemma openAiOnChunk_sticky acc d :
  respects (preserves isInterrupted) (openAiOnChunk acc d).
Proof.
  intros s Hi.
  change (openAiOnChunk acc d)
    with (pollCheck OpenAI (emit (EvAbort OpenAI)) ;;
          updateResponseRateLimited (appendDelta acc d) ;;
          ret (appendDelta acc d)).
  rewrite bind_unit_ok by (unfold pollCheck; noThrow_tac).
  rewrite snd_bind_ret. unfold isInterrupted. rewrite limiter_keeps_state.
  apply (pollCheck_sticky OpenAI (emit (EvAbort OpenAI)));
    [noThrow_tac | reflexivity | exact Hi].
Qed.

Lemma webLlmOnChunk_sticky acc d :
  respects (preserves isInterrupted) (webLlmOnChunk E acc d).
Proof.
  intros s Hi.
  change (webLlmOnChunk E acc d)
    with (pollCheck WebLlm (emit (EvAbort WebLlm) ;; suspend E) ;;
          updateResponseRateLimited (appendDelta acc d) ;;
          ret (appendDelta acc d)).
  rewrite bind_unit_ok by (unfold pollCheck; noThrow_tac).
  rewrite snd_bind_ret. unfold isInterrupted. rewrite limiter_keeps_state.
  apply (pollCheck_sticky WebLlm (emit (EvAbort WebLlm) ;; suspend E));
    [noThrow_tac | | exact Hi].
  intros s0. rewrite bind_unit_ok by noThrow_tac.
  rewrite suspend_keeps_state. reflexivity.
Qed.

Lemma onNewToken_sticky model acc t :
  respects (preserves isInterrupted) (onNewToken model acc t).
Proof.
  intros s Hi.
  change (onNewToken model acc t)
    with (pollCheck Wllama (emit (EvAbort Wllama)) ;;
          (currentText <-
            (match stopStrings model with
             | Some stops => cutAtStopString stops t
             | None => ret t
             end) ;;
          updateResponseRateLimited currentText ;;
          ret currentText)).
  rewrite bind_unit_ok by (unfold pollCheck; noThrow_tac).
  assert (Hrest : respects keepsGenerationState
            (currentText <-
              (match stopStrings model with
               | Some stops => cutAtStopString stops t
               | None => ret t
               end) ;;
             updateResponseRateLimited currentText ;;
             ret currentText))
    by (unfold keepsGenerationState; respects_with keeping_leaf).
  destruct (Hrest (snd (pollCheck Wllama (emit (EvAbort Wllama)) s))) as [Hk _].
  unfold isInterrupted. rewrite Hk.
  apply (pollCheck_sticky Wllama (emit (EvAbort Wllama)));
    [noThrow_tac | reflexivity | exact Hi].
Qed.

Lemma forAwait_stop {T} (body : string -> T -> M string) :
  (forall acc t, noThrow (body acc t)) ->
  (forall acc t, respects (preserves isInterrupted) (body acc t)) ->
  forall items acc s,
    isInterrupted s \/ stopPressedDuring items ->
    isInterrupted (snd (forAwait E body items acc s)).
Proof.
  intros Hn Hb. induction items as [|a rest IH]; intros acc s Hcase.
  - destruct Hcase as [Hi|Hex]; [exact Hi | inversion Hex].
  - simpl forAwait. rewrite bind_unit_ok by apply receive_noThrow.
    destruct (bind_noThrow (body acc (payload a))
                (fun acc' => forAwait E body rest acc')
                (snd (receive E a s)) (Hn _ _)) as [acc' [_ ->]].
    apply IH.
    destruct Hcase as [Hi|Hex].
    + left. apply Hb, receive_sticky, Hi.
    + inversion Hex as [x l Hs|x l Hl]; subst.
      * left. apply Hb, receive_stop, Hs.
      * right. exact Hl.
Qed.

Lemma consume_stop {T} (body : string -> T -> M string) :
  (forall acc t, noThrow (body acc t)) ->
  (forall acc t, respects (preserves isInterrupted) (body acc t)) ->
  forall stream acc s,
    isInterrupted s \/ stopPressedDuring (arrivals stream) ->
    isInterrupted (after (consume E body stream acc) s).
Proof.
  intros Hn Hb stream acc s Hcase. unfold after, consume.
  destruct (bind_noThrow (forAwait E body (arrivals stream) acc)
              (fun acc' => suspend E ;;
                 match failure stream with
                 | None => ret acc'
                 | Some e => throw e
                 end) s (forAwait_noThrow E body _ Hn acc)) as [acc' [_ ->]].
  rewrite bind_unit_ok by noThrow_tac.
  pose proof (forAwait_stop body Hn Hb (arrivals stream) acc s Hcase) as Hi.
  unfold isInterrupted in *.
  destruct (failure stream); cbn [throw ret snd];
    rewrite suspend_keeps_state; exact Hi.
Qed.

End Stop.

(** X12.  A stop of the user is never overwritten while a stream is
    consumed: when the state is "interrupted" before the loop, or the
    user presses "stop" while the routine waits for one of the items of
    the stream, the state is "interrupted" when the loop has ended, for
    each of the three backends. *)
Theorem X12_stop_is_kept_while_streaming (E : Env) (s : Store) :
  (forall stream acc,
     isInterrupted s \/ stopPressedDuring (arrivals stream) ->
     isInterrupted (after (streamOpenAI E stream acc) s)) /\
  (forall stream acc,
     isInterrupted s \/ stopPressedDuring (arrivals stream) ->
     isInterrupted (after (streamWebLlm E stream acc) s)) /\
  (forall model stream acc,
     isInterrupted s \/ stopPressedDuring (arrivals stream) ->
     isInterrupted (after (streamWllama E model stream acc) s)).
Proof.
  split; [|split].
  - intros stream acc H.
    exact (consume_stop E openAiOnChunk openAiOnChunk_noThrow
             openAiOnChunk_sticky stream acc s H).
  - intros stream acc H.
    exact (consume_stop E (webLlmOnChunk E) (webLlmOnChunk_noThrow E)
             (webLlmOnChunk_sticky E) stream acc s H).
  - intros model stream acc H.
    exact (consume_stop E (onNewToken model) (onNewToken_noThrow model)
             (onNewToken_sticky model) stream acc s H).
Qed.

(** X13.  With a negative [searchResultsToConsider] the slice drops
    that many text results from the end: the function answers "None."
    exactly when there are no more text results than are dropped, and
    otherwise formats the remaining ones. *)
Theorem X13_negative_results_to_consider
        (E : Env) (shouldIncludeUrl : bool) (s : Store) :
  searchResultsToConsider (getSettings E) < 0 ->
  let results := textResults (searchResults s) in
  let dropped := Z.to_nat (- searchResultsToConsider (getSettings E)) in
  let shown := firstn (List.length results - dropped) results in
  (shown = [] <-> (List.length results <= dropped)%nat) /\
  getFormattedSearchResults E shouldIncludeUrl s =
    match shown with
    | [] => "None."%string
    | _ :: _ => Js.join (String "010" "") (formattedLines shouldIncludeUrl shown)
    end.
Proof.
  intros Hn results dropped shown. split.
  - subst shown. split.
    + intros H. apply (f_equal (@List.length _)) in H.
      rewrite List.length_firstn in H. simpl in H. lia.
    + intros H. replace (List.length results - dropped)%nat with 0%nat by lia.
      reflexivity.
  - unfold getFormattedSearchResults. rewrite slice_negative_end by assumption.
    fold results. fold dropped. fold shown.
    destruct shown; [reflexivity|]. destruct shouldIncludeUrl; reflexivity.
Qed.

Lemma X13_negative_results_to_consider_witness :
  getFormattedSearchResults (Samples.env "openai" (-1) true Samples.hello) true
                            Failures.answered
  = "1. [Cats](https://cats.example) | Cats purr."%string.
Proof.
  apply (X13_negative_results_to_consider
           (Samples.env "openai" (-1) true Samples.hello) true
           Failures.answered).
  simpl. lia.
Defined.

(* ================================================================== *)
(** ** The fallback without a model, and the frame of a run *)
(* ================================================================== *)

Lemma tryCatch_run_throw {A} (body : M A) handler s e s1 :
  body s = (Throw e, s1) -> tryCatch body handler s = handler e s1.
Proof. intros H. unfold tryCatch. rewrite H. reflexivity. Qed.

Lemma tryCatch_run_ok {A} (body : M A) handler s a s1 :
  body s = (Ok a, s1) -> tryCatch body handler s = (Ok a, s1).
Proof. intros H. unfold tryCatch. rewrite H. reflexivity. Qed.

Lemma after_run {A} (m : M A) s : after m s = snd (m s).
Proof. reflexivity. Qed.

Lemma outcome_run_throw {A} (m : M A) s e :
  outcome m s = Throw e -> exists s', m s = (Throw e, s').
Proof.
  unfold outcome. destruct (m s) as [r s']. simpl. intros ->.
  exists s'. reflexivity.
Qed.

Lemma generateText_fallback E s1 e0 s2 :
  inferenceType (getSettings E) <> "openai"%string ->
  (webGpuGuard E ;; generateTextWithWebLlm E) s1 = (Throw e0, s2) ->
  generateText E s1
  = (generateTextWithWllama E ;; markCompleted)
      (snd (addLogEntry "Starting text generation with Wllama"
              (snd (addLogEntry
                      ("Skipping text generation with WebLLM: " ++ e0) s2)))).
Proof.
  intros Hkind Hbody. unfold generateText. cbv zeta.
  destruct (String.eqb_spec (inferenceType (getSettings E)) "openai")
    as [Heq|_]; [contradiction|].
  unfold bind at 1. rewrite (tryCatch_run_throw _ _ _ _ _ Hbody).
  rewrite bind_unit_ok by noThrow_tac. rewrite bind_unit_ok by noThrow_tac.
  reflexivity.
Qed.

Lemma generateTextWithWllama_unknown_log E s :
  wllamaModels E (wllamaModelId (getSettings E)) = None ->
  exists e s', generateTextWithWllama E s = (Throw e, s') /\
               logEntries s' = logEntries s.
Proof.
  intros Hnone. unfold generateTextWithWllama. rewrite Hnone.
  rewrite bind_unit_ok by noThrow_tac. rewrite bind_unit_ok by noThrow_tac.
  eexists. eexists. split; [reflexivity|].
  assert (H : respects (keeping logEntries (fun _ => True))
                (emit (EvBackend Wllama) ;; suspend E))
    by respects_with keeping_leaf.
  specialize (H s). rewrite bind_unit_ok in H by noThrow_tac.
  destruct H as [H _]. exact H.
Qed.

Lemma fallback_failure E s1 e0 s2 :
  inferenceType (getSettings E) <> "openai"%string ->
  wllamaModels E (wllamaModelId (getSettings E)) = None ->
  (webGpuGuard E ;; generateTextWithWebLlm E) s1 = (Throw e0, s2) ->
  exists e,
    textGenerationState (snd (tryCatch (generateText E) reportFailure s1))
    = failed /\
    logEntries (snd (tryCatch (generateText E) reportFailure s1))
    = logEntries s2
      ++ [("Skipping text generation with WebLLM: " ++ e0)%string;
          "Starting text generation with Wllama"%string;
          ("Error generating text: " ++ e)%string].
Proof.
  intros Hkind Hnone Hbody.
  pose proof (generateText_fallback E s1 e0 s2 Hkind Hbody) as Hgen.
  set (s3 := snd (addLogEntry "Starting text generation with Wllama" _)) in Hgen.
  destruct (generateTextWithWllama_unknown_log E s3 Hnone)
    as [e [s4 [Hrun Hlog]]].
  rewrite (bind_run_throw _ _ _ _ _ Hrun) in Hgen.
  exists e. rewrite (tryCatch_run_throw _ _ _ _ _ Hgen).
  destruct (reportFailure_run e s4) as [Hfailed Hlogged].
  split; [exact Hfailed|]. rewrite Hlogged, Hlog. subst s3.
  cbn [addLogEntry snd logEntries]. rewrite <- !app_assoc. reflexivity.
Qed.

(** X11.  When WebLLM (or its WebGPU guard) throws and the settings name
    a Wllama model that the table of models does not have, the fallback
    fails as well: the run ends in the state "failed", and the log holds
    the entry "Skipping text generation with WebLLM: " with the error of
    WebLLM and an entry "Error generating text: ...". *)
Theorem X11_unknown_wllama_model_fails_the_fallback
        (E : Env) (s : Store) (e0 : string) :
  getQuery E <> ""%string ->
  enableAiResponse (getSettings E) = true ->
  inferenceType (getSettings E) <> "openai"%string ->
  wllamaModels E (wllamaModelId (getSettings E)) = None ->
  outcome (webGpuGuard E ;; generateTextWithWebLlm E)
          (after (enterGeneration E) s) = Throw e0 ->
  let s' := after (prepareTextGeneration E) s in
  textGenerationState s' = failed /\
  In ("Skipping text generation with WebLLM: " ++ e0)%string (logEntries s') /\
  exists e, In ("Error generating text: " ++ e)%string (logEntries s').
Proof.
  intros Hq Hen Hkind Hnone Hweb s'.
  destruct (outcome_run_throw _ _ _ Hweb) as [s2 Hbody].
  rewrite after_run in Hbody.
  destruct (fallback_failure E _ e0 s2 Hkind Hnone Hbody) as [e [Hfailed Hlog]].
  destruct (prepareTextGeneration_ending E s Hq Hen) as [Ht Hl].
  split; [|split].
  - subst s'. rewrite Ht. exact Hfailed.
  - apply Hl. rewrite Hlog. apply in_or_app. right. left. reflexivity.
  - exists e. apply Hl. rewrite Hlog. apply in_or_app. right. right. right.
    left. reflexivity.
Qed.

Lemma X11_unknown_wllama_model_fails_the_fallback_witness :
  let s' := after (prepareTextGeneration Failures.noModel) Samples.store0 in
  textGenerationState s' = failed /\
  In "Skipping text generation with WebLLM: Error: out of memory"%string
     (logEntries s') /\
  exists e, In ("Error generating text: " ++ e)%string (logEntries s').
Proof.
  apply (X11_unknown_wllama_model_fails_the_fallback Failures.noModel
           Samples.store0 "Error: out of memory").
  - discriminate.
  - reflexivity.
  - discriminate.
  - reflexivity.
  - vm_compute. reflexivity.
Defined.

Section Frames.
Variable E : Env.

Lemma searchStart_result s :
  snd (updateSearchPromise_startSearch E (getQuery E)
         (snd (updateSearchResults emptySearchResults
                (snd (updateResponse ""
                        (snd (setDocumentTitle (getQuery E) s)))))))
  = mkStore "" emptySearchResults searchRunning (textGenerationState s)
            (Pending (getQuery E) (searchLatency E)) (getQuery E)
            (modelLoadingProgress s) (logEntries s) (lastUpdateTime s) (now s)
            (trace s ++ [EvResponse (now s) ""; EvSearchResults emptySearchResults;
                         EvSearchState searchRunning; EvSearchPromise]).
Proof.
  unfold updateSearchPromise_startSearch, startSearch_begin, updateSearchState,
    updateSearchResults, updateResponse.
  cbv [bind reads ret emit setDocumentTitle writeResponse writeSearchResults
       writeSearchState writeSearchPromise snd
       response searchResults searchState textGenerationState searchPromise
       documentTitle modelLoadingProgress logEntries lastUpdateTime now trace].
  rewrite <- !app_assoc. reflexivity.
Qed.

Lemma searchStart_store s :
  let s0 := snd (updateSearchPromise_startSearch E (getQuery E)
              (snd (updateSearchResults emptySearchResults
                (snd (updateResponse ""
                  (snd (setDocumentTitle (getQuery E) s))))))) in
  documentTitle s0 = getQuery E /\
  logAndProgress s0 = logAndProgress s /\
  now s0 = now s /\
  trace s0 = trace s ++ [EvResponse (now s) ""; EvSearchResults emptySearchResults;
                         EvSearchState searchRunning; EvSearchPromise].
Proof. intros s0. subst s0. rewrite searchStart_result. repeat split. Qed.

Lemma prepareTextGeneration_disabled s :
  getQuery E <> ""%string ->
  enableAiResponse (getSettings E) = false ->
  after (prepareTextGeneration E) s
  = snd (updateSearchPromise_startSearch E (getQuery E)
      (snd (updateSearchResults emptySearchResults
        (snd (updateResponse ""
          (snd (setDocumentTitle (getQuery E) s))))))).
Proof.
  intros Hq Hdis. unfold after, prepareTextGeneration.
  destruct (String.eqb_spec (getQuery E) ""); [contradiction|].
  rewrite Hdis. simpl negb. cbv iota.
  repeat (rewrite bind_unit_ok by noThrow_tac). reflexivity.
Qed.

End Frames.

(** X14.  Every run with a non-empty query sets the document title to
    the query, and begins by clearing the response, clearing the search
    results, setting the search state to "running" and storing the
    promise of the search, in this order, also when the AI response is
    disabled. *)
Theorem X14_title_and_opening_of_a_run (E : Env) (s : Store) :
  getQuery E <> ""%string ->
  documentTitle (after (prepareTextGeneration E) s) = getQuery E /\
  exists evs,
    newEvents (prepareTextGeneration E) s
    = EvResponse (now s) "" :: EvSearchResults emptySearchResults
      :: EvSearchState searchRunning :: EvSearchPromise :: evs.
Proof.
  intros Hq.
  destruct (searchStart_store E s) as [Htitle [_ [_ Htrace]]].
  set (s0 := snd (updateSearchPromise_startSearch E (getQuery E) _)) in *.
  destruct (enableAiResponse (getSettings E)) eqn:Hen.
  - assert (Hrest : keeping documentTitle (fun _ => True) s0
                      (after (prepareTextGeneration E) s)).
    { unfold after. rewrite (prepareTextGeneration_elapsed E s Hq Hen).
      cbn [snd]. rewrite enterGeneration_steps. fold s0.
      etransitivity; [|etransitivity; [|etransitivity]].
      - assert (H : respects (keeping documentTitle (fun _ => True))
                      (updateTextGenerationState loadingModel ;;
                       untilUiIsUpdated E))
          by respects_with keeping_leaf.
        specialize (H s0). rewrite bind_unit_ok in H by noThrow_tac. exact H.
      - assert (H : respects (keeping documentTitle (fun _ => True))
                      (tryCatch (generateText E) reportFailure))
          by (unfold reportFailure; respects_with keeping_leaf).
        apply H.
      - assert (H : respects (keeping documentTitle (fun _ => True)) (suspend E))
          by respects_with keeping_leaf.
        apply H.
      - assert (H : forall entry,
                  respects (keeping documentTitle (fun _ => True))
                           (addLogEntry entry))
          by (intros entry; respects_with keeping_leaf).
        apply H. }
    destruct Hrest as [Hkeep [evs [Ht _]]]. split; [congruence|].
    exists evs. apply newEvents_spec. rewrite Ht, Htrace, <- app_assoc.
    reflexivity.
  - pose proof (prepareTextGeneration_disabled E s Hq Hen) as Hdis.
    fold s0 in Hdis. split; [rewrite Hdis; exact Htitle|]. exists [].
    apply newEvents_spec. rewrite Hdis. exact Htrace.
Qed.

Lemma X14_title_and_opening_of_a_run_witness :
  let E := Samples.env "openai" 3 true Samples.hello in
  documentTitle (after (prepareTextGeneration E) Samples.store0) = "cats"%string /\
  exists evs,
    newEvents (prepareTextGeneration E) Samples.store0
    = EvResponse 0 "" :: EvSearchResults emptySearchResults
      :: EvSearchState searchRunning :: EvSearchPromise :: evs.
Proof.
  apply (X14_title_and_opening_of_a_run
           (Samples.env "openai" 3 true Samples.hello) Samples.store0).
  discriminate.
Defined.

(** X15.  A run served by the OpenAI backend never writes the model
    loading progress, and adds to the log the elapsed-time entry only,
    preceded by the entry "Error generating text: ..." when the backend
    throws. *)
Theorem X15_what_an_openai_run_logs (E : Env) (s : Store) :
  getQuery E <> ""%string ->
  enableAiResponse (getSettings E) = true ->
  inferenceType (getSettings E) = "openai"%string ->
  let s' := after (prepareTextGeneration E) s in
  let took := ("Response generation took " ++
               prettyMilliseconds E (now s' - now s))%string in
  modelLoadingProgress s' = modelLoadingProgress s /\
  match outcome (generateTextWithOpenAI E) (after (enterGeneration E) s) with
  | Ok _ => logEntries s' = logEntries s ++ [took]
  | Throw e =>
      logEntries s'
      = logEntries s ++ [("Error generating text: " ++ e)%string; took]
  end.
Proof.
  intros Hq Hen Hkind s' took.
  destruct (searchStart_store E s) as [_ [Hframe0 _]].
  set (s0 := snd (updateSearchPromise_startSearch E (getQuery E) _)) in *.
  assert (Henter : logAndProgress (snd (enterGeneration E s)) = logAndProgress s).
  { rewrite enterGeneration_steps. fold s0.
    assert (H : respects (keeping logAndProgress (fun _ => True))
                  (updateTextGenerationState loadingModel ;; untilUiIsUpdated E))
      by respects_with keeping_leaf.
    specialize (H s0). rewrite bind_unit_ok in H by noThrow_tac.
    destruct H as [H _]. congruence. }
  unfold after, outcome.
  set (s1 := snd (enterGeneration E s)) in *.
  assert (Hbackend : logAndProgress (snd (generateTextWithOpenAI E s1))
                     = logAndProgress s1).
  { assert (H : respects (keeping logAndProgress (fun _ => True))
                  (generateTextWithOpenAI E))
      by respects_with keeping_leaf.
    destruct (H s1) as [H' _]. exact H'. }
  assert (Hsuspend : forall st, logAndProgress (snd (suspend E st))
                                = logAndProgress st /\
                                now (snd (suspend E st)) = now st).
  { intros st.
    assert (H : respects (keeping (fun x => (logAndProgress x, now x))
                                  (fun _ => True)) (suspend E))
      by respects_with keeping_leaf.
    destruct (H st) as [H' _]. injection H' as H1 H2 H3.
    split; [unfold logAndProgress; congruence | exact H3]. }
  assert (Hs' : s' = snd (addLogEntry
                  ("Response generation took " ++
                   prettyMilliseconds E
                     (now (snd (suspend E (snd (tryCatch (generateText E)
                        reportFailure s1)))) - now s))%string
                  (snd (suspend E (snd (tryCatch (generateText E)
                        reportFailure s1)))))).
  { subst s'. unfold after. rewrite (prepareTextGeneration_elapsed E s Hq Hen).
    reflexivity. }
  assert (Hgen : generateText E = (generateTextWithOpenAI E ;; markCompleted)).
  { unfold generateText. cbv zeta. rewrite Hkind. reflexivity. }
  assert (Hnow : now s' = now (snd (suspend E (snd (tryCatch (generateText E)
                        reportFailure s1))))).
  { rewrite Hs'. reflexivity. }
  subst took. rewrite Hnow.
  set (s3 := snd (tryCatch (generateText E) reportFailure s1)) in *.
  destruct (Hsuspend s3) as [Hlp3 _].
  assert (Hfinal : logEntries s' =
                   logEntries s3 ++
                   [("Response generation took " ++
                     prettyMilliseconds E (now (snd (suspend E s3)) - now s))%string]
                   /\ modelLoadingProgress s' = modelLoadingProgress s3).
  { rewrite Hs'. cbn [addLogEntry snd logEntries modelLoadingProgress].
    unfold logAndProgress in Hlp3. injection Hlp3 as H1 H2.
    rewrite H1, H2. auto. }
  destruct Hfinal as [Hlog Hprog].
  unfold logAndProgress in *.
  destruct (generateTextWithOpenAI E s1) as [[[]|e] s2] eqn:Hrun;
    cbn [fst snd] in *.
  - assert (Hs3 : logEntries s3 = logEntries s /\
                  modelLoadingProgress s3 = modelLoadingProgress s).
    { subst s3. rewrite Hgen.
      rewrite (tryCatch_run_ok _ _ s1 tt (snd (markCompleted s2))).
      - cbn [snd]. destruct (markCompleted_run s2) as [_ [_ Hl]].
        assert (Hp : modelLoadingProgress (snd (markCompleted s2))
                     = modelLoadingProgress s2).
        { assert (H : respects (keeping modelLoadingProgress (fun _ => True))
                        markCompleted)
            by (unfold markCompleted; respects_with keeping_leaf).
          destruct (H s2) as [H' _]. exact H'. }
        split; congruence.
      - rewrite (bind_run_ok _ _ _ _ _ Hrun).
        destruct (markCompleted_run s2) as [Hm _]. exact Hm. }
    destruct Hs3 as [H1 H2]. split; [congruence|]. rewrite Hlog, H1. reflexivity.
  - assert (Hs3 : logEntries s3
                  = logEntries s ++ [("Error generating text: " ++ e)%string] /\
                  modelLoadingProgress s3 = modelLoadingProgress s).
    { subst s3. rewrite Hgen.
      rewrite (tryCatch_run_throw _ _ s1 e s2)
        by (apply bind_run_throw; exact Hrun).
      cbn [reportFailure bind addLogEntry updateTextGenerationState
           writeTextGenerationState emit snd logEntries modelLoadingProgress].
      split; congruence. }
    destruct Hs3 as [H1 H2]. split; [congruence|].
    rewrite Hlog, H1, <- app_assoc. reflexivity.
Qed.

Lemma X15_what_an_openai_run_logs_witness :
  let E := Samples.env "openai" 3 true Samples.hello in
  let s := Samples.store0 in
  let s' := after (prepareTextGeneration E) s in
  let took := ("Response generation took " ++
               prettyMilliseconds E (now s' - now s))%string in
  modelLoadingProgress s' = modelLoadingProgress s /\
  match outcome (generateTextWithOpenAI E) (after (enterGeneration E) s) with
  | Ok _ => logEntries s' = logEntries s ++ [took]
  | Throw e =>
      logEntries s'
      = logEntries s ++ [("Error generating text: " ++ e)%string; took]
  end.
Proof.
  apply (X15_what_an_openai_run_logs
           (Samples.env "openai" 3 true Samples.hello) Samples.store0).
  - discriminate.
  - reflexivity.
  - reflexivity.
Defined.
